(** * Server pools of the DingTalk agent bridge

    A shallow embedding of [app/mcp/generic_mcp_server_pool.py]
    ([GenericMCPServerPool]), of [app/mcp/mcp_server_stdio_pool.py]
    ([MCPServerStdioPool] and its example [main()]), which shares its
    design, and of the two callers of the pools,
    [AgentManager.process_message] in [app/agent/agent_manager.py] and
    [main()] in [main.py]; together with the pool properties of the
    specification and further properties of the pools and their callers.

    Modelling choices.
    - A server is an opaque Python object; only its identity matters to the
      pool ([in], [list.remove]), so a server is its identity, a [nat].
    - The pool object ([self]) and the effects visible from outside (which
      servers had [cleanup()] awaited, how often the factory was awaited,
      what was logged) form one [State] that the methods pass along.
    - The two external capabilities, the factory and [cleanup()], are
      oracles of a [World]: they may return or raise, as the i-th call
      decides.
    - Logging.  [logger.info(f"...")] and the like, called with the message
      alone, only emit a record.  Every [except] block that logs the
      exception it caught calls [logger.error(f"...{e}", exc_info=True)]:
      with a keyword argument present, loguru applies [str.format] to the
      message, which by then contains the text of the exception.  A text
      without braces is left as it is; on a text with braces [str.format]
      may raise ([KeyError], [IndexError], [ValueError]), and then the
      logging call raises inside the handler.  What [str.format] does with
      a text that has braces is an oracle ([format_outcome]).  The part of
      such a message in front of the exception text (the names of pools and
      servers) is taken to have no braces.
    - Python exceptions are values with a class name; every exception of
      the model derives from [Exception], so [except Exception] catches all
      of them (task cancellation is outside the model).
    - A coroutine that awaits an empty [asyncio.Queue] is
      [Suspend]ed: the method has not returned and the state is as it was
      left.  Interleavings of several tasks inside one method are not
      modelled; methods run from call to return. *)

From Stdlib Require Import Ascii String.
From Stdlib Require Import List ZArith Lia Bool Arith Permutation.
Import ListNotations.

(** ** Exceptions, log levels, servers *)

Definition Server := nat.

(** An exception object: its class and message, and for one raised
    [from] another, the exception it wraps ([__cause__]). *)
Inductive exn : Type :=
| Exc (cls : string) (msg : string)
| ExcFrom (cls : string) (msg : string) (cause : exn).

Definition exn_class (e : exn) : string :=
  match e with Exc c _ | ExcFrom c _ _ => c end.

Definition exn_cause (e : exn) : option exn :=
  match e with Exc _ _ => None | ExcFrom _ _ c => Some c end.

Definition ValueError (msg : string) : exn := Exc "ValueError" msg.
Definition QueueFull : exn := Exc "QueueFull" "".
Definition QueueEmpty : exn := Exc "QueueEmpty" "".

(** [isinstance(e, cls)] for the exception classes the pools name. *)
Definition isinstance (e : exn) (cls : string) : bool :=
  String.eqb (exn_class e) cls.

Inductive Level : Type := DEBUG | INFO | WARNING | ERROR.

(** [str(e)] *)
Definition str (e : exn) : string :=
  match e with Exc _ msg | ExcFrom _ msg _ => msg end.

(** No [{] and no [}] in the text. *)
Fixpoint brace_free (text : string) : bool :=
  match text with
  | EmptyString => true
  | String c rest =>
      negb (Ascii.eqb c "{"%char) && negb (Ascii.eqb c "}"%char)
      && brace_free rest
  end.

(** What [message.format(exc_info=True)] does when the message ends in the
    text of [e]: [None] when it returns, [Some e'] when it raises [e'].
    [format_outcome] decides for the texts that have braces. *)
Definition format_raises (format_outcome : string -> option exn) (e : exn)
    : option exn :=
  if brace_free (str e) then None else format_outcome (str e).

(** ** asyncio.Queue *)

Module Queue.

Record t : Type := mk { maxsize : Z; items : list Server }.

Definition create (maxsize : Z) : t := mk maxsize [].

Definition qsize (q : t) : Z := Z.of_nat (length (items q)).

Definition empty (q : t) : bool :=
  match items q with [] => true | _ :: _ => false end.

(** [full()]: a queue with [maxsize <= 0] is unbounded. *)
Definition full (q : t) : bool :=
  if (maxsize q <=? 0)%Z then false else (maxsize q <=? qsize q)%Z.

Definition push (q : t) (item : Server) : t :=
  mk (maxsize q) (items q ++ [item]).

Definition popleft (q : t) : option (Server * t) :=
  match items q with
  | [] => None
  | x :: rest => Some (x, mk (maxsize q) rest)
  end.

End Queue.

(** ** The state the methods act on *)

Record State : Type := mkState {
  pool_size : Z;
  available_servers : Queue.t;
  all_servers : list Server;
  (* the world outside the pool object *)
  factory_calls : nat;          (* how often the factory was awaited *)
  cleaned : list Server;        (* servers whose cleanup() was awaited, in order *)
  logs : list Level             (* levels of the records logged, in order *)
}.

Record World : Type := mkWorld {
  (* outcome of the i-th await of the factory (0-based, over the run) *)
  server_factory : nat -> Server + exn;
  (* outcome of cleanup() on a server, given how many cleanups preceded it *)
  cleanup_outcome : Server -> nat -> option exn;
  (* what str.format raises, if anything, on a message that ends in this
     exception text (asked only for texts with braces) *)
  format_outcome : string -> option exn
}.

Definition set_available_servers (q : Queue.t) (s : State) : State :=
  mkState (pool_size s) q (all_servers s) (factory_calls s) (cleaned s) (logs s).

Definition set_all_servers (l : list Server) (s : State) : State :=
  mkState (pool_size s) (available_servers s) l (factory_calls s) (cleaned s) (logs s).

Definition set_factory_calls (n : nat) (s : State) : State :=
  mkState (pool_size s) (available_servers s) (all_servers s) n (cleaned s) (logs s).

Definition set_cleaned (l : list Server) (s : State) : State :=
  mkState (pool_size s) (available_servers s) (all_servers s) (factory_calls s) l (logs s).

Definition set_logs (l : list Level) (s : State) : State :=
  mkState (pool_size s) (available_servers s) (all_servers s) (factory_calls s) (cleaned s) l.

(** ** A monad for coroutines that mutate, raise and suspend

    [S] is what the computation mutates: the [State] alone for a method
    without local variables, a pair of the locals and the [State] inside a
    method that has some.  Whatever was mutated before an exception stays
    mutated, so [Raise] carries the state too. *)

Inductive result (S A : Type) : Type :=
| Return (a : A) (s : S)
| Raise (e : exn) (s : S)
| Suspend (s : S)
| OutOfFuel (s : S).

Arguments Return {S A} a s.
Arguments Raise {S A} e s.
Arguments Suspend {S A} s.
Arguments OutOfFuel {S A} s.

Definition M (S A : Type) : Type := S -> result S A.

Definition ret {S A} (a : A) : M S A := fun s => Return a s.

Definition bind {S A B} (m : M S A) (k : A -> M S B) : M S B :=
  fun s =>
    match m s with
    | Return a s' => k a s'
    | Raise e s' => Raise e s'
    | Suspend s' => Suspend s'
    | OutOfFuel s' => OutOfFuel s'
    end.

Definition raise {S A} (e : exn) : M S A := fun s => Raise e s.

Definition gets {S A} (f : S -> A) : M S A := fun s => Return (f s) s.

Definition modify {S} (f : S -> S) : M S unit := fun s => Return tt (f s).

Declare Scope pool_scope.
Delimit Scope pool_scope with pool.
Notation "x <- m ;; k" := (bind m (fun x => k))
  (at level 61, m at next level, right associativity) : pool_scope.
Notation "m ;; k" := (bind m (fun _ => k))
  (at level 61, right associativity) : pool_scope.
Open Scope pool_scope.

(** [try: body except <classes accepted by catches> as e: handler e] *)
Definition try_except {S A} (body : M S A) (catches : exn -> bool)
    (handler : exn -> M S A) : M S A :=
  fun s =>
    match body s with
    | Raise e s' => if catches e then handler e s' else Raise e s'
    | r => r
    end.

(** [try: body finally: final]; an exception of [body] is raised again
    once [final] has run. *)
Definition try_finally {S A} (body : M S A) (final : M S unit) : M S A :=
  fun s =>
    match body s with
    | Return a s' => (final ;; ret a) s'
    | Raise e s' => (final ;; raise e) s'
    | r => r
    end.

Definition Exception (e : exn) : bool := true.

(** [for x in xs: body x], over the list as it is when the loop starts. *)
Fixpoint for_each {S X} (xs : list X) (body : X -> M S unit) : M S unit :=
  match xs with
  | [] => ret tt
  | x :: rest => body x ;; for_each rest body
  end.

(** [range(n)]; a negative [n] gives the empty range. *)
Definition range (n : Z) : list nat := seq 0 (Z.to_nat n).

Inductive ctl : Type := Next | Break.

(** [while cond: body]; the body says whether it ran to its end or hit
    [break].  [fuel] bounds the number of iterations. *)
Fixpoint while {S} (fuel : nat) (cond : S -> bool) (body : M S ctl) : M S unit :=
  fun s =>
    if cond s then
      match fuel with
      | O => OutOfFuel s
      | Datatypes.S fuel' =>
          match body s with
          | Return Next s' => while fuel' cond body s'
          | Return Break s' => Return tt s'
          | Raise e s' => Raise e s'
          | Suspend s' => Suspend s'
          | OutOfFuel s' => OutOfFuel s'
          end
      end
    else Return tt s.

(** Local variables: [lift] runs an operation on the pool inside a frame
    that also holds locals of type [L]; [with_locals] opens the frame. *)
Definition lift {L A} (m : M State A) : M (L * State) A :=
  fun ls =>
    match m (snd ls) with
    | Return a s' => Return a (fst ls, s')
    | Raise e s' => Raise e (fst ls, s')
    | Suspend s' => Suspend (fst ls, s')
    | OutOfFuel s' => OutOfFuel (fst ls, s')
    end.

Definition with_locals {L A} (l0 : L) (m : M (L * State) A) : M State A :=
  fun s =>
    match m (l0, s) with
    | Return a ls => Return a (snd ls)
    | Raise e ls => Raise e (snd ls)
    | Suspend ls => Suspend (snd ls)
    | OutOfFuel ls => OutOfFuel (snd ls)
    end.

Definition get_local {L} : M (L * State) L := gets fst.

Definition set_local {L} (f : L -> L) : M (L * State) unit :=
  modify (fun ls => (f (fst ls), snd ls)).

(** ** What both pools are built from *)

Section Primitives.

Variable W : World.

(** [logger.debug/info/warning/error(...)]: only the level is kept. *)
Definition log (lvl : Level) : M State unit :=
  modify (fun s => set_logs (logs s ++ [lvl]) s).

(** [await self.server_factory()] / [await create_employee_info_mcp()] *)
Definition call_factory : M State Server :=
  fun s =>
    let s' := set_factory_calls (S (factory_calls s)) s in
    match server_factory W (factory_calls s) with
    | inl srv => Return srv s'
    | inr e => Raise e s'
    end.

(** [await srv.cleanup()] *)
Definition cleanup (srv : Server) : M State unit :=
  fun s =>
    let s' := set_cleaned (cleaned s ++ [srv]) s in
    match cleanup_outcome W srv (length (cleaned s)) with
    | None => Return tt s'
    | Some e => Raise e s'
    end.

(** [self.available_servers.put_nowait(item)] *)
Definition put_nowait (item : Server) : M State unit :=
  fun s =>
    if Queue.full (available_servers s) then Raise QueueFull s
    else Return tt (set_available_servers (Queue.push (available_servers s) item) s).

(** [self.available_servers.get_nowait()] *)
Definition get_nowait : M State Server :=
  fun s =>
    match Queue.popleft (available_servers s) with
    | None => Raise QueueEmpty s
    | Some (item, q) => Return item (set_available_servers q s)
    end.

(** [await self.available_servers.get()]: waits while the queue is empty. *)
Definition get : M State Server :=
  fun s =>
    if Queue.empty (available_servers s) then Suspend s else get_nowait s.

(** [await self.available_servers.put(item)]: waits while the queue is full. *)
Definition put (item : Server) : M State unit :=
  fun s =>
    if Queue.full (available_servers s) then Suspend s else put_nowait item s.

(** [x in l] on servers. *)
Definition contains (x : Server) (l : list Server) : bool :=
  existsb (Nat.eqb x) l.

(** [l.remove(x)]: drops the first occurrence, [None] when there is none. *)
Fixpoint remove_first (x : Server) (l : list Server) : option (list Server) :=
  match l with
  | [] => None
  | y :: rest =>
      if Nat.eqb x y then Some rest
      else match remove_first x rest with
           | Some rest' => Some (y :: rest')
           | None => None
           end
  end.

(** [self.all_servers.remove(x)] *)
Definition all_servers_remove (x : Server) : M State unit :=
  fun s =>
    match remove_first x (all_servers s) with
    | Some l => Return tt (set_all_servers l s)
    | None => Raise (ValueError "list.remove(x): x not in list") s
    end.

(** The loop both [initialize] methods empty the queue with:
<<
    while not self.available_servers.empty():
        try: self.available_servers.get_nowait()
        except asyncio.QueueEmpty: break
>>
    Each round takes one item, so as many rounds as the queue has items
    are enough ([drain_queue_returns]). *)
Definition drain_queue : M State unit :=
  fuel <- gets (fun s => length (Queue.items (available_servers s))) ;;
  while fuel (fun s => negb (Queue.empty (available_servers s)))
    (try_except
       (get_nowait ;; ret Next)
       (fun e => isinstance e "QueueEmpty")
       (fun _ => ret Break)).

(** [logger.error(f"...{e}", exc_info=True)]: the record is emitted when
    the message formats; otherwise the call raises and emits nothing. *)
Definition log_exception (e : exn) : M State unit :=
  fun s =>
    match format_raises (format_outcome W) e with
    | None => log ERROR s
    | Some e' => Raise e' s
    end.

(** [try: await srv.cleanup(); logger.info(..)
     except Exception as e: logger.error(f"..{e}", exc_info=True)] *)
Definition cleanup_logged (srv : Server) : M State unit :=
  try_except (cleanup srv ;; log INFO) Exception log_exception.

(** One round of [for server in ...] in both [shutdown] methods:
    [try: logger.info(..); await server.cleanup(); logger.info(..)
     except Exception as e: logger.error(f"..{e}", exc_info=True)] *)
Definition shut_down_server (server : Server) : M State unit :=
  try_except
    (log INFO ;; cleanup server ;; log INFO)
    Exception
    log_exception.

End Primitives.

(** ** GenericMCPServerPool *)

Module GenericMCPServerPool.

(** [__init__(pool_name, pool_size, server_factory)] in a new run.  The
    name only feeds log messages and is not kept; the factory is the
    [World]'s, a function, so the [callable] test cannot fail. *)
Definition __init__ (pool_size : Z) : exn + State :=
  if (pool_size <=? 0)%Z then inl (ValueError "Pool size must be positive.")
  else inr (mkState pool_size (Queue.create pool_size) [] 0 [] [INFO]).

Section Methods.

Variable W : World.

(** One round of [for i in range(self.pool_size)] in [initialize]; the
    local is [servers_created_this_attempt]. *)
Definition create_server (i : nat) : M (list Server * State) unit :=
  lift (log INFO) ;;
  mcp_server <- lift (call_factory W) ;;
  set_local (fun created => created ++ [mcp_server]) ;;
  lift (put_nowait mcp_server) ;;
  lift (log INFO).

(** The [except Exception as e] block of [initialize]. *)
Definition roll_back (e : exn) : M (list Server * State) unit :=
  lift (log_exception W e) ;;
  lift (log WARNING) ;;
  created <- get_local ;;
  for_each created (fun srv_to_clean => lift (cleanup_logged W srv_to_clean)) ;;
  lift drain_queue ;;
  lift (modify (set_all_servers [])) ;;
  raise e.

Definition initialize : M State unit :=
  log INFO ;;
  with_locals ([] : list Server)
    (try_except
       (n <- lift (gets pool_size) ;;
        for_each (range n) create_server ;;
        created <- get_local ;;
        lift (modify (fun s => set_all_servers (all_servers s ++ created) s)) ;;
        lift (log INFO))
       Exception
       roll_back).

Definition acquire : M State Server :=
  log DEBUG ;;
  server <- get ;;
  log INFO ;;
  ret server.

(** The [finally] block of both branches of [release]. *)
Definition forget (server : Server) (not_found : M State unit) : M State unit :=
  tracked <- gets all_servers ;;
  if contains server tracked
  then all_servers_remove server ;; log INFO
  else not_found.

Definition release (server : option Server) (is_healthy : bool) : M State unit :=
  match server with
  | None => log WARNING
  | Some server =>
      if is_healthy then
        log DEBUG ;;
        try_except
          (put_nowait server ;; log INFO)
          (fun e => isinstance e "QueueFull")
          (fun _ =>
             log ERROR ;;
             try_finally (cleanup_logged W server)
                         (forget server (ret tt)))
      else
        log WARNING ;;
        try_finally (cleanup_logged W server)
                    (forget server (log WARNING))
  end.

(** One round of the [while] loop of [shutdown]; the local is
    [servers_to_shutdown]. *)
Definition collect_from_queue : M (list Server * State) ctl :=
  try_except
    (server_in_queue <- lift get_nowait ;;
     servers_to_shutdown <- get_local ;;
     (if negb (contains server_in_queue servers_to_shutdown)
      then set_local (fun l => l ++ [server_in_queue]) ;;
           lift (log WARNING)
      else ret tt) ;;
     ret Next)
    (fun e => isinstance e "QueueEmpty")
    (fun _ => ret Break).

Definition shutdown : M State unit :=
  log INFO ;;
  tracked <- gets all_servers ;;
  with_locals tracked
    (lift (modify (set_all_servers [])) ;;
     fuel <- lift (gets (fun s => length (Queue.items (available_servers s)))) ;;
     while fuel (fun ls => negb (Queue.empty (available_servers (snd ls))))
       collect_from_queue ;;
     servers_to_shutdown <- get_local ;;
     for_each servers_to_shutdown (fun server => lift (shut_down_server W server)) ;;
     lift (modify (fun s => set_available_servers (Queue.create (pool_size s)) s)) ;;
     lift (log INFO)).

End Methods.

End GenericMCPServerPool.

(** ** MCPServerStdioPool: [initialize] and [shutdown] *)

Module MCPServerStdioPool.

(** [__init__(pool_size=None)] in a new run; [MCP_SERVER_POOL_SIZE] is the
    value of [settings.MCP_SERVER_POOL_SIZE], which lives outside these
    files. *)
Definition __init__ (MCP_SERVER_POOL_SIZE : Z) (pool_size : option Z)
    : exn + State :=
  let resolved_pool_size :=
    match pool_size with
    | None => MCP_SERVER_POOL_SIZE
    | Some n => n
    end in
  if (resolved_pool_size <=? 0)%Z
  then inl (ValueError "Pool size must be positive.")
  else inr (mkState resolved_pool_size (Queue.create resolved_pool_size)
                    [] 0 [] [INFO; INFO]).

Section Methods.

Variable W : World.

Definition acquire : M State Server :=
  log DEBUG ;;
  server <- get ;;
  log INFO ;;
  ret server.

(** The healthy branch awaits [put], which waits on a full queue where
    [put_nowait] would raise [QueueFull]. *)
Definition release (server : option Server) (is_healthy : bool) : M State unit :=
  match server with
  | None => log WARNING
  | Some server =>
      if is_healthy then
        log DEBUG ;;
        try_except
          (put server ;; log INFO)
          (fun e => isinstance e "QueueFull")
          (fun _ =>
             (* logger.error(f"..{server.name}: ..", exc_info=True): the
                message holds the server's name and no exception text *)
             log ERROR ;;
             log WARNING ;;
             try_except
               (cleanup W server ;;
                tracked <- gets all_servers ;;
                if contains server tracked
                then all_servers_remove server ;; log INFO
                else ret tt)
               Exception
               (log_exception W))
      else
        log WARNING ;;
        try_finally (cleanup_logged W server)
                    (GenericMCPServerPool.forget server (log WARNING))
  end.

(** The [except Exception as e] block of [initialize]. *)
Definition roll_back (e : exn) : M State unit :=
  log_exception W e ;;
  log WARNING ;;
  tracked <- gets all_servers ;;
  for_each tracked (cleanup_logged W) ;;
  modify (set_all_servers []) ;;
  drain_queue ;;
  raise e.

(** One round of [for i in range(self.pool_size)]; the factory here is
    [create_employee_info_mcp]. *)
Definition create_server (i : nat) : M State unit :=
  log INFO ;;
  try_except
    (mcp_server <- call_factory W ;;
     put_nowait mcp_server ;;
     modify (fun s => set_all_servers (all_servers s ++ [mcp_server]) s) ;;
     log INFO)
    Exception
    roll_back.

Definition initialize : M State unit :=
  log INFO ;;
  n <- gets pool_size ;;
  for_each (range n) create_server ;;
  log INFO.

(** One round of the [while] loop of [shutdown]. *)
Definition collect_from_queue : M State ctl :=
  try_except
    (server_in_queue <- get_nowait ;;
     tracked <- gets all_servers ;;
     (if negb (contains server_in_queue tracked)
      then log WARNING ;;
           modify (fun s => set_all_servers (all_servers s ++ [server_in_queue]) s)
      else ret tt) ;;
     ret Next)
    (fun e => isinstance e "QueueEmpty")
    (fun _ => ret Break).

Definition shutdown : M State unit :=
  log INFO ;;
  fuel <- gets (fun s => length (Queue.items (available_servers s))) ;;
  while fuel (fun s => negb (Queue.empty (available_servers s)))
    collect_from_queue ;;
  tracked <- gets all_servers ;;
  for_each tracked (shut_down_server W) ;;
  modify (set_all_servers []) ;;
  modify (fun s => set_available_servers (Queue.create (pool_size s)) s) ;;
  log INFO.

(** The part of the example [main()] that uses the pool, under
    [if pool.available_servers.qsize() > 0]. *)
Definition lend_and_take_back : M State unit :=
  s1 <- acquire ;;
  log INFO ;;
  s2 <- acquire ;;
  log INFO ;;
  release (Some s1) true ;;
  log INFO ;;
  release (Some s2) true ;;
  log INFO ;;
  s3 <- acquire ;;
  log INFO ;;
  release (Some s3) true ;;
  log INFO.

(** The [try] statement of the example [main()], on the pool it built. *)
Definition main_on_pool : M State unit :=
  try_finally
    (try_except
       (initialize ;;
        log INFO ;;
        size <- gets (fun s => Queue.qsize (available_servers s)) ;;
        if (0 <? size)%Z then lend_and_take_back else ret tt)
       Exception
       (log_exception W))
    (shutdown ;;
     log INFO).

(** The example [main()] of the module.  [credentials_missing] says whether
    one of the two DingTalk settings is empty, which only logs a warning
    before the pool is built. *)
Definition main (MCP_SERVER_POOL_SIZE : Z) (credentials_missing : bool)
    : exn + result State unit :=
  let warned := if credentials_missing then [WARNING] else [] in
  match __init__ MCP_SERVER_POOL_SIZE (Some 2%Z) with
  | inl e => inl e
  | inr pool => inr (main_on_pool (set_logs (warned ++ logs pool) pool))
  end.

End Methods.

End MCPServerStdioPool.

(** ** AgentManager.process_message

    The manager holds the pools in a dictionary; a reference to a pool is
    the key it is stored under.  Creating the agent and running it are
    capabilities from outside ([create_employee_info_agent], [Runner.run]):
    each returns or raises, as its arguments decide.  Server and pool
    objects are truthy. *)

(** Local variables of any type, over any state. *)
Definition lift_in {L S A} (m : M S A) : M (L * S) A :=
  fun ls =>
    match m (snd ls) with
    | Return a s' => Return a (fst ls, s')
    | Raise e s' => Raise e (fst ls, s')
    | Suspend s' => Suspend (fst ls, s')
    | OutOfFuel s' => OutOfFuel (fst ls, s')
    end.

Definition with_frame {L S A} (l0 : L) (m : M (L * S) A) : M S A :=
  fun s =>
    match m (l0, s) with
    | Return a ls => Return a (snd ls)
    | Raise e ls => Raise e (snd ls)
    | Suspend ls => Suspend (snd ls)
    | OutOfFuel ls => OutOfFuel (snd ls)
    end.

Definition get_frame {L S} : M (L * S) L := gets fst.

Definition set_frame {L S} (f : L -> L) : M (L * S) unit :=
  modify (fun ls => (f (fst ls), snd ls)).

(** Awaiting a capability from outside whose outcome is [o]. *)
Definition await {S A} (o : A + exn) : M S A :=
  fun s =>
    match o with
    | inl a => Return a s
    | inr e => Raise e s
    end.

Module AgentManager.

Definition Agent := nat.

Record Services : Type := mkServices {
  (* await create_employee_info_agent(mcp_server=server) *)
  create_employee_info_agent : Server -> Agent + exn;
  (* await Runner.run(agent, content, context=context), as its final_output *)
  Runner_run : Agent -> string -> string + exn;
  (* what str.format raises, if anything, on a message of the manager that
     ends in this exception text (asked only for texts with braces) *)
  manager_format_outcome : string -> option exn
}.

(** What [process_message] hands back: a text of its own, or the object
    [Runner.run] returned. *)
Inductive Reply : Type :=
| Text (message : string)
| RunResult (final_output : string).

Record Manager : Type := mkManager {
  mcp_pools : list (string * State);
  agent : option Agent;
  manager_logs : list Level
}.

Definition set_mcp_pools (d : list (string * State)) (m : Manager) : Manager :=
  mkManager d (agent m) (manager_logs m).

Definition set_agent (a : option Agent) (m : Manager) : Manager :=
  mkManager (mcp_pools m) a (manager_logs m).

Definition set_manager_logs (l : list Level) (m : Manager) : Manager :=
  mkManager (mcp_pools m) (agent m) l.

(** [d.get(key)] *)
Fixpoint dict_get (key : string) (d : list (string * State)) : option State :=
  match d with
  | [] => None
  | (k, v) :: rest => if String.eqb key k then Some v else dict_get key rest
  end.

(** The dictionary once the pool stored under [key] has become [v]. *)
Fixpoint dict_update (key : string) (v : State) (d : list (string * State))
    : list (string * State) :=
  match d with
  | [] => []
  | (k, old) :: rest =>
      if String.eqb key k then (k, v) :: rest
      else (k, old) :: dict_update key v rest
  end.

(** A method call on the pool stored under [key]. *)
Definition on_pool {A} (key : string) (method : M State A) : M Manager A :=
  fun m =>
    match dict_get key (mcp_pools m) with
    | None => Raise (Exc "AttributeError" "'NoneType' object has no attribute") m
    | Some pool =>
        let back p := set_mcp_pools (dict_update key p (mcp_pools m)) m in
        match method pool with
        | Return a p => Return a (back p)
        | Raise e p => Raise e (back p)
        | Suspend p => Suspend (back p)
        | OutOfFuel p => OutOfFuel (back p)
        end
    end.

Definition mlog (lvl : Level) : M Manager unit :=
  modify (fun m => set_manager_logs (manager_logs m ++ [lvl]) m).

(** [logger.error(f"...{str(e)}", exc_info=True)] in the manager. *)
Definition mlog_exception (format_outcome : string -> option exn) (e : exn)
    : M Manager unit :=
  fun m =>
    match format_raises format_outcome e with
    | None => mlog ERROR m
    | Some e' => Raise e' m
    end.

Record Locals : Type := mkLocals {
  acquired_mcp_server : option Server;
  selected_pool : option string;
  healthy_server : bool
}.

Section Methods.

(** The world of each pool, and the capabilities the manager awaits. *)
Variable world_of : string -> World.
Variable Sv : Services.

(** The [finally] block of [process_message]. *)
Definition give_back : M (Locals * Manager) unit :=
  locals <- get_frame ;;
  match acquired_mcp_server locals, selected_pool locals with
  | Some server, Some pool =>
      lift_in (mlog DEBUG) ;;
      lift_in (on_pool pool
                 (GenericMCPServerPool.release (world_of pool) (Some server)
                    (healthy_server locals)))
  | Some _, None => lift_in (mlog ERROR)
  | None, _ => ret tt
  end.

Definition process_message (content : string) : M Manager Reply :=
  let pool_key := "stdio"%string in
  with_frame (mkLocals None None true)
    (try_finally
       (try_except
          (lift_in (mlog INFO) ;;
           found <- lift_in (gets (fun m => dict_get pool_key (mcp_pools m))) ;;
           match found with
           | None =>
               lift_in (mlog ERROR) ;;
               ret (Text ("Configuration error: MCP pool '" ++ pool_key
                          ++ "' not found."))
           | Some _ =>
               set_frame (fun l => mkLocals (acquired_mcp_server l)
                                            (Some pool_key) (healthy_server l)) ;;
               lift_in (mlog INFO) ;;
               server <- lift_in (on_pool pool_key GenericMCPServerPool.acquire) ;;
               set_frame (fun l => mkLocals (Some server) (selected_pool l)
                                            (healthy_server l)) ;;
               if String.eqb pool_key "stdio" then
                 new_agent <- lift_in (await (create_employee_info_agent Sv server)) ;;
                 lift_in (modify (set_agent (Some new_agent))) ;;
                 result <- lift_in (await (Runner_run Sv new_agent content)) ;;
                 lift_in (mlog INFO) ;;
                 ret (RunResult result)
               else
                 lift_in (mlog ERROR) ;;
                 set_frame (fun l => mkLocals (acquired_mcp_server l)
                                              (selected_pool l) false) ;;
                 ret (Text ("Runtime error: No agent creation logic for pool key '"
                            ++ pool_key ++ "'."))
           end)
          Exception
          (fun e =>
             lift_in (mlog_exception (manager_format_outcome Sv) e) ;;
             set_frame (fun l => mkLocals (acquired_mcp_server l)
                                          (selected_pool l) false) ;;
             ret (Text ("处理消息时出错: " ++ str e))))
       give_back).

End Methods.

End AgentManager.

(** ** main.main

    The application owns the two pools as module globals and hands the
    same objects to the [AgentManager].  What [main] uses besides the pools
    comes from outside and either passes or raises: the logging set-up, the
    constructor of [AgentManager] (its LLM client set-up raises again what
    went wrong), the stream client's [start] and [stop], and the
    installation of the signal handlers.  [shutdown_event.wait()] returns
    once a signal has set the event.  Only the records [main] logs itself
    go to [app_logs]. *)

Module Main.

Inductive Signal : Type := SIGINT | SIGTERM.

Inductive StreamCall : Type := Start | Stop.

Record Externals : Type := mkExternals {
  (* configure_logging() *)
  configure_logging : option exn;
  (* AgentManager(mcp_pools=mcp_pools_map) *)
  AgentManager_init : option exn;
  (* stream_manager.start() *)
  stream_manager_start : option exn;
  (* loop.add_signal_handler(sig, handle_signal) *)
  add_signal_handler : Signal -> option exn;
  (* whether a signal ever sets shutdown_event *)
  shutdown_event_set : bool;
  (* stream_manager.stop() *)
  stream_manager_stop : option exn;
  (* what str.format raises, if anything, on a message of [main] that ends
     in this exception text (asked only for texts with braces) *)
  main_format_outcome : string -> option exn
}.

Record App : Type := mkApp {
  stdio_mcp_pool : State;
  code_analysis_mcp_pool : State;
  (* whether the global has been assigned; the instance holds the two
     pool objects above *)
  agent_manager_instance : bool;
  (* the calls made on stream_manager, in order *)
  stream_calls : list StreamCall;
  (* the signals that have a handler *)
  signal_handlers : list Signal;
  app_logs : list Level
}.

Definition set_stdio_mcp_pool (p : State) (a : App) : App :=
  mkApp p (code_analysis_mcp_pool a) (agent_manager_instance a)
        (stream_calls a) (signal_handlers a) (app_logs a).

Definition set_code_analysis_mcp_pool (p : State) (a : App) : App :=
  mkApp (stdio_mcp_pool a) p (agent_manager_instance a)
        (stream_calls a) (signal_handlers a) (app_logs a).

Definition set_agent_manager_instance (b : bool) (a : App) : App :=
  mkApp (stdio_mcp_pool a) (code_analysis_mcp_pool a) b
        (stream_calls a) (signal_handlers a) (app_logs a).

Definition set_stream_calls (l : list StreamCall) (a : App) : App :=
  mkApp (stdio_mcp_pool a) (code_analysis_mcp_pool a) (agent_manager_instance a)
        l (signal_handlers a) (app_logs a).

Definition set_signal_handlers (l : list Signal) (a : App) : App :=
  mkApp (stdio_mcp_pool a) (code_analysis_mcp_pool a) (agent_manager_instance a)
        (stream_calls a) l (app_logs a).

Definition set_app_logs (l : list Level) (a : App) : App :=
  mkApp (stdio_mcp_pool a) (code_analysis_mcp_pool a) (agent_manager_instance a)
        (stream_calls a) (signal_handlers a) l.

(** A method call on one of the two global pools. *)
Definition on_stdio {A} (method : M State A) : M App A :=
  fun a =>
    match method (stdio_mcp_pool a) with
    | Return x p => Return x (set_stdio_mcp_pool p a)
    | Raise e p => Raise e (set_stdio_mcp_pool p a)
    | Suspend p => Suspend (set_stdio_mcp_pool p a)
    | OutOfFuel p => OutOfFuel (set_stdio_mcp_pool p a)
    end.

Definition on_code_analysis {A} (method : M State A) : M App A :=
  fun a =>
    match method (code_analysis_mcp_pool a) with
    | Return x p => Return x (set_code_analysis_mcp_pool p a)
    | Raise e p => Raise e (set_code_analysis_mcp_pool p a)
    | Suspend p => Suspend (set_code_analysis_mcp_pool p a)
    | OutOfFuel p => OutOfFuel (set_code_analysis_mcp_pool p a)
    end.

Definition alog (lvl : Level) : M App unit :=
  modify (fun a => set_app_logs (app_logs a ++ [lvl]) a).

(** [logger.error(f"...{e}", exc_info=True)] in [main]. *)
Definition alog_exception (format_outcome : string -> option exn) (e : exn)
    : M App unit :=
  fun a =>
    match format_raises format_outcome e with
    | None => alog ERROR a
    | Some e' => Raise e' a
    end.

(** A call from outside that passes or raises. *)
Definition outcome (o : option exn) : M App unit :=
  fun a =>
    match o with
    | None => Return tt a
    | Some e => Raise e a
    end.

Section Methods.

Variable world_of : string -> World.
Variable X : Externals.

Definition start_stream_client : M App unit :=
  try_except
    (modify (fun a => set_stream_calls (stream_calls a ++ [Start]) a) ;;
     outcome (stream_manager_start X) ;;
     alog INFO)
    Exception
    (fun e => alog ERROR ;; raise e).

Definition stop_stream_client : M App unit :=
  try_except
    (modify (fun a => set_stream_calls (stream_calls a ++ [Stop]) a) ;;
     outcome (stream_manager_stop X) ;;
     alog INFO)
    Exception
    (fun e => alog ERROR).

(** [await shutdown_event.wait()] *)
Definition shutdown_event_wait : M App unit :=
  fun a => if shutdown_event_set X then Return tt a else Suspend a.

(** The [finally] block of [main]. *)
Definition shut_everything_down : M App unit :=
  alog INFO ;;
  stop_stream_client ;;
  alog INFO ;;
  try_except
    (on_stdio (GenericMCPServerPool.shutdown (world_of "stdio")) ;;
     alog INFO)
    Exception
    (alog_exception (main_format_outcome X)) ;;
  try_except
    (on_code_analysis (GenericMCPServerPool.shutdown (world_of "code_analysis")) ;;
     alog INFO)
    Exception
    (alog_exception (main_format_outcome X)) ;;
  alog INFO.

Definition main : M App unit :=
  outcome (configure_logging X) ;;
  try_finally
    (try_except
       (alog INFO ;;
        on_stdio (GenericMCPServerPool.initialize (world_of "stdio")) ;;
        alog INFO ;;
        on_code_analysis
          (GenericMCPServerPool.initialize (world_of "code_analysis")) ;;
        alog INFO ;;
        outcome (AgentManager_init X) ;;
        modify (set_agent_manager_instance true) ;;
        alog INFO ;;
        start_stream_client ;;
        for_each [SIGINT; SIGTERM]
          (fun sig =>
             outcome (add_signal_handler X sig) ;;
             modify (fun a => set_signal_handlers (signal_handlers a ++ [sig]) a)) ;;
        alog INFO ;;
        shutdown_event_wait)
       Exception
       (alog_exception (main_format_outcome X)))
    shut_everything_down.

End Methods.

End Main.

(** ** Vocabulary of the properties *)

(** The servers that [k] consecutive awaits of the factory return, starting
    with its [c]-th await and stopping at the first one that raises. *)
Fixpoint made (W : World) (c k : nat) : list Server :=
  match k with
  | O => []
  | S k' =>
      match server_factory W c with
      | inl srv => srv :: made W (S c) k'
      | inr _ => []
      end
  end.

(** The factory returns a server on each of the awaits [c, c + k). *)
Definition returns_on (W : World) (c k : nat) : Prop :=
  forall i, i < k -> exists srv, server_factory W (c + i) = inl srv.

(** The same, as a test. *)
Definition succeeds (W : World) (c k : nat) : bool :=
  forallb (fun i => match server_factory W (c + i) with
                    | inl _ => true
                    | inr _ => false
                    end)
          (seq 0 k).

(** No server occurs twice in the list. *)
Fixpoint distinct (l : list Server) : bool :=
  match l with
  | [] => true
  | x :: rest => negb (existsb (Nat.eqb x) rest) && distinct rest
  end.

(** The queue can take [k] more items without being full. *)
Definition room_for (k : nat) (q : Queue.t) : Prop :=
  (Queue.maxsize q <= 0 \/ Queue.qsize q + Z.of_nat k <= Queue.maxsize q)%Z.

Definition available (s : State) : list Server :=
  Queue.items (available_servers s).

(** A pool as the constructor leaves it, in a run that may be under way. *)
Definition fresh (s : State) : Prop :=
  (0 < pool_size s)%Z /\
  available_servers s = Queue.create (pool_size s) /\
  all_servers s = [].

(** What every method keeps true of the pool object. *)
Definition pool_ok (s : State) : Prop :=
  (0 < pool_size s)%Z /\
  Queue.maxsize (available_servers s) = pool_size s /\
  (Queue.qsize (available_servers s) <= pool_size s)%Z.

(** The fields a run of [cleanup()] calls leaves alone, and the one it
    extends. *)
Definition only_cleaned (l : list Server) (s s' : State) : Prop :=
  pool_size s' = pool_size s /\
  available_servers s' = available_servers s /\
  all_servers s' = all_servers s /\
  factory_calls s' = factory_calls s /\
  cleaned s' = cleaned s ++ l.

(** What a run of successful factory calls changes: the servers [new] are
    in the queue, behind what was there. *)
Definition only_created (new : list Server) (s s' : State) : Prop :=
  pool_size s' = pool_size s /\
  available_servers s' =
    Queue.mk (Queue.maxsize (available_servers s))
             (Queue.items (available_servers s) ++ new) /\
  all_servers s' = all_servers s /\
  factory_calls s' = factory_calls s + length new /\
  cleaned s' = cleaned s.

(** In [MCPServerStdioPool] a created server is tracked at once. *)
Definition created_and_tracked (new : list Server) (s s' : State) : Prop :=
  only_created new s (set_all_servers (all_servers s) s') /\
  all_servers s' = all_servers s ++ new.

(** What the [while] loop of [shutdown] leaves in the list of servers to
    clean up: the tracked ones, then each queued server that is not in the
    list yet. *)
Fixpoint to_shut_down (tracked items : list Server) : list Server :=
  match items with
  | [] => tracked
  | x :: rest =>
      to_shut_down (if contains x tracked then tracked else tracked ++ [x]) rest
  end.

(** What [shutdown] has done when it returns, in either pool. *)
Definition shut_down (s s' : State) : Prop :=
  pool_size s' = pool_size s /\
  available_servers s' = Queue.create (pool_size s) /\
  all_servers s' = [] /\
  factory_calls s' = factory_calls s /\
  cleaned s' = cleaned s ++ to_shut_down (all_servers s) (available s).

(** [l] once [l.remove(x)] has run if [x in l]. *)
Definition without (x : Server) (l : list Server) : list Server :=
  match remove_first x l with
  | Some l' => l'
  | None => l
  end.

(** What [release] does to a server it does not put back: [cleanup()] is
    awaited once and the server is dropped from the tracked list. *)
Definition discarded (x : Server) (s s' : State) : Prop :=
  pool_size s' = pool_size s /\
  available_servers s' = available_servers s /\
  all_servers s' = without x (all_servers s) /\
  factory_calls s' = factory_calls s /\
  cleaned s' = cleaned s ++ [x].

(** What [release] does to a server it puts back. *)
Definition enqueued (x : Server) (s s' : State) : Prop :=
  pool_size s' = pool_size s /\
  available_servers s' = Queue.push (available_servers s) x /\
  all_servers s' = all_servers s /\
  factory_calls s' = factory_calls s /\
  cleaned s' = cleaned s.

(** A call on the pool by any caller, well behaved or not. *)
Inductive call : Type :=
| Initialize
| Acquire
| Release (server : option Server) (is_healthy : bool)
| Shutdown.

(** The state a call leaves behind, however it ends. *)
Definition state_of {A} (r : result State A) : State :=
  match r with
  | Return _ s | Raise _ s | Suspend s | OutOfFuel s => s
  end.

Definition perform (W : World) (c : call) (s : State) : State :=
  match c with
  | Initialize => state_of (GenericMCPServerPool.initialize W s)
  | Acquire => state_of (GenericMCPServerPool.acquire s)
  | Release server is_healthy =>
      state_of (GenericMCPServerPool.release W server is_healthy s)
  | Shutdown => state_of (GenericMCPServerPool.shutdown W s)
  end.

Definition run (W : World) (calls : list call) (s : State) : State :=
  fold_left (fun s c => perform W c s) calls s.

(** The calls that are not [initialize]. *)
Definition creates_nothing (c : call) : bool :=
  match c with
  | Initialize => false
  | Acquire | Release _ _ | Shutdown => true
  end.

(** The pool keeps its size and its queue stays within it. *)
Definition kept (s s' : State) : Prop :=
  pool_size s' = pool_size s /\ pool_ok s'.

(** What a consumer that keeps to the contract does: it takes a server, or
    gives back one it holds, with its verdict. *)
Inductive request : Type :=
| Borrow
| GiveBack (server : Server) (is_healthy : bool).

(** Serving requests one after the other; [lent] are the servers handed out
    and not given back yet.  [None] when a request breaks the contract (the
    server is not held) or cannot be served now (no server to take). *)
Fixpoint serve (W : World) (requests : list request) (s : State)
    (lent : list Server) : option (State * list Server) :=
  match requests with
  | [] => Some (s, lent)
  | Borrow :: rest =>
      match GenericMCPServerPool.acquire s with
      | Return server s' => serve W rest s' (server :: lent)
      | _ => None
      end
  | GiveBack server is_healthy :: rest =>
      if contains server lent then
        match GenericMCPServerPool.release W (Some server) is_healthy s with
        | Return _ s' => serve W rest s' (without server lent)
        | _ => None
        end
      else None
  end.

(** The accounting of a pool served this way: the tracked servers are the
    available ones and the lent ones, and there are no more than the pool
    size. *)
Definition accounted (s : State) (lent : list Server) : Prop :=
  Permutation (available s ++ lent) (all_servers s) /\
  pool_ok s /\
  (Z.of_nat (length (all_servers s)) <= pool_size s)%Z.

(** An exception whose text the logging call cannot format: [{boom}] asks
    [str.format] for a keyword argument [boom], and the call passes only
    [exc_info]. *)
Definition unloggable : exn := Exc "RuntimeError" "{boom}".

(** [str.format] on a message that ends in [{boom}] raises
    [KeyError('boom')]. *)
Definition format_boom (text : string) : option exn :=
  if String.eqb text "{boom}" then Some (Exc "KeyError" "'boom'") else None.

(** Worlds and pools to run the model on: a factory that always returns a
    new server, and servers whose [cleanup()] always returns. *)
Definition reliable : World :=
  mkWorld (fun i => inl (10 + i)) (fun _ _ => None) format_boom.

Definition spawn_failed : exn := Exc "RuntimeError" "spawn failed".

(** A factory whose await number [k] raises, and a server, [10], whose
    [cleanup()] raises. *)
Definition flaky (k : nat) : World :=
  mkWorld (fun i => if Nat.eqb i k then inr spawn_failed else inl (10 + i))
          (fun srv _ => if Nat.eqb srv 10
                        then Some (Exc "OSError" "broken pipe")
                        else None)
          format_boom.

(** The same, with exception texts that have braces: await number [k] of
    the factory raises [unloggable]. *)
Definition unloggable_factory (k : nat) : World :=
  mkWorld (fun i => if Nat.eqb i k then inr unloggable else inl (10 + i))
          (fun _ _ => None)
          format_boom.

(** The factory always returns, and the [cleanup()] of server [10] raises
    [unloggable]. *)
Definition unloggable_cleanup : World :=
  mkWorld (fun i => inl (10 + i))
          (fun srv _ => if Nat.eqb srv 10 then Some unloggable else None)
          format_boom.

(** The logging call of an [except] block returns for [e]. *)
Definition loggable (W : World) (e : exn) : Prop :=
  format_raises (format_outcome W) e = None.

(** Every exception a [cleanup()] raises can be logged. *)
Definition quiet_cleanups (W : World) : Prop :=
  forall srv n e, cleanup_outcome W srv n = Some e -> loggable W e.

(** Every exception the factory raises can be logged. *)
Definition quiet_factory (W : World) : Prop :=
  forall i e, server_factory W i = inr e -> loggable W e.

(** What gets out of the [try] statement around [await srv.cleanup()] in
    the state [s]: nothing when the cleanup returns or its exception is
    logged, and otherwise what the logging call raises. *)
Definition escapes (W : World) (srv : Server) (s : State) : option exn :=
  match cleanup_outcome W srv (length (cleaned s)) with
  | None => None
  | Some e => format_raises (format_outcome W) e
  end.

(** A call that returns unless [escaped] gets out of it. *)
Definition finish {S} (escaped : option exn) (s : S) : result S unit :=
  match escaped with
  | None => Return tt s
  | Some e => Raise e s
  end.

(** The pool [__init__] builds for a positive size. *)
Definition new_pool (n : Z) : State :=
  mkState n (Queue.create n) [] 0 [] [INFO].

(** How a failed [initialize] leaves the pool: it raises [e], [cleanup()]
    was awaited on the servers [created], in that order and on no other,
    and the queue and the tracked list are empty. *)
Definition rolled_back (created : list Server) (e : exn) (s : State)
    (r : result State unit) : Prop :=
  exists s',
    r = Raise e s' /\
    cleaned s' = cleaned s ++ created /\
    available s' = [] /\
    all_servers s' = [].

(** What [shutdown] promises for the state [s] it is called in: it returns,
    every tracked server had [cleanup()] awaited exactly once during the
    call, and the tracked list and the queue are empty afterwards. *)
Definition disposes_tracked_once (s : State) (r : result State unit) : Prop :=
  exists s' disposed,
    r = Return tt s' /\
    cleaned s' = cleaned s ++ disposed /\
    (forall server, In server (all_servers s) ->
                    count_occ Nat.eq_dec disposed server = 1) /\
    all_servers s' = [] /\
    available s' = [].

(** What the two awaits between [acquire] and [release] come to for a
    server and a message: the agent made, if any, and the output or the
    exception. *)
Definition served (Sv : AgentManager.Services) (server : Server)
    (content : string)
    : option AgentManager.Agent * (string + exn) :=
  match AgentManager.create_employee_info_agent Sv server with
  | inl a =>
      match AgentManager.Runner_run Sv a content with
      | inl out => (Some a, inl out)
      | inr e => (Some a, inr e)
      end
  | inr e => (None, inr e)
  end.

(** What [process_message] returns for it, and the verdict it gives the
    pool. *)
Definition reply_of (o : string + exn) : AgentManager.Reply :=
  match o with
  | inl out => AgentManager.RunResult out
  | inr e => AgentManager.Text ("处理消息时出错: " ++ str e)
  end.

Definition verdict_of (o : string + exn) : bool :=
  match o with inl _ => true | inr _ => false end.

(** Messages handled one after the other, with what each call returns. *)
Fixpoint process_all (world_of : string -> World) (Sv : AgentManager.Services)
    (contents : list string) : M AgentManager.Manager (list AgentManager.Reply) :=
  match contents with
  | [] => ret []
  | content :: rest =>
      reply <- AgentManager.process_message world_of Sv content ;;
      replies <- process_all world_of Sv rest ;;
      ret (reply :: replies)
  end.

(** Services that answer: an agent per server, and a reply to the message. *)
Definition answering : AgentManager.Services :=
  AgentManager.mkServices
    (fun server => inl (100 + server))
    (fun _ content => inl ("re: " ++ content)%string)
    format_boom.

(** Services whose model backend is down: every run raises. *)
Definition backend_down : AgentManager.Services :=
  AgentManager.mkServices
    (fun server => inl (100 + server))
    (fun _ _ => inr (Exc "APIConnectionError" "Connection error."))
    format_boom.


(** The logging call of the manager's [except] block returns for [e]. *)
Definition manager_loggable (Sv : AgentManager.Services) (e : exn) : Prop :=
  format_raises (AgentManager.manager_format_outcome Sv) e = None.

(** Every exception of agent creation and of the run can be logged. *)
Definition quiet_services (Sv : AgentManager.Services) : Prop :=
  forall server content e,
    snd (served Sv server content) = inr e -> manager_loggable Sv e.

(** What gets out of the [except] block of [process_message] for the
    outcome [o] of the two awaits: nothing, unless the logging call of the
    handler raises. *)
Definition handler_escapes (Sv : AgentManager.Services) (o : string + exn)
    : option exn :=
  match o with
  | inl _ => None
  | inr e => format_raises (AgentManager.manager_format_outcome Sv) e
  end.

(** The verdict the [finally] block hands to [release]: [healthy_server] is
    set to [False] after the logging call of the handler, so it is still
    [True] when that call raised. *)
Definition verdict_given (Sv : AgentManager.Services) (o : string + exn)
    : bool :=
  match o, handler_escapes Sv o with
  | inr _, None => false
  | _, _ => true
  end.

(** Of two exceptions, the one that gets out of a [try]/[finally] whose
    [finally] block raised the first and whose body raised the second. *)
Definition first_raised (a b : option exn) : option exn :=
  match a with
  | Some e => Some e
  | None => b
  end.

(** A call that returns [x] unless [escaped] got out of it. *)
Definition reply_or_raise {S A} (escaped : option exn) (x : A) (s : S)
    : result S A :=
  match escaped with
  | None => Return x s
  | Some e => Raise e s
  end.

(** Every await between [acquire] and [release] ends in an exception. *)
Definition always_fails (Sv : AgentManager.Services) : Prop :=
  forall server content, verdict_of (snd (served Sv server content)) = false.

(** A pool of [n] servers after a successful start. *)
Definition started_pool (n : Z) : State :=
  state_of (GenericMCPServerPool.initialize reliable (new_pool n)).

(** A manager over the pools [pools], before its first message. *)
Definition manager_of (pools : list (string * State)) : AgentManager.Manager :=
  AgentManager.mkManager pools None [INFO].

(** The application as its module-level code leaves it: both pools new. *)
Definition new_app (stdio_size code_analysis_size : Z) : Main.App :=
  Main.mkApp (new_pool stdio_size) (new_pool code_analysis_size) false [] [] [].

(** Whether [initialize] of the pool [s] gets all its servers. *)
Definition comes_up (W : World) (s : State) : bool :=
  succeeds W (factory_calls s) (Z.to_nat (pool_size s)).

(** The servers the factory returns to [initialize] of the pool [s]. *)
Definition made_for (W : World) (s : State) : list Server :=
  made W (factory_calls s) (Z.to_nat (pool_size s)).

(** A pool after [shutdown]: [disposed] were cleaned up, nothing is left. *)
Definition closed_after (disposed : list Server) (s s' : State) : Prop :=
  cleaned s' = cleaned s ++ disposed /\
  all_servers s' = [] /\
  available s' = [].

(** Nothing outside the pools fails, and a signal arrives. *)
Definition calm : Main.Externals :=
  Main.mkExternals None None None (fun _ => None) true None format_boom.

(** The LLM settings are missing, and stopping the stream client fails. *)
Definition no_llm_settings : Main.Externals :=
  Main.mkExternals None
    (Some (ValueError "Please set LLM_API_BASE_URL and LLM_API_KEY"))
    None (fun _ => None) true
    (Some (Exc "RuntimeError" "not started"))
    format_boom.

(** The logging call of an [except] block of [main] returns for [e]. *)
Definition main_loggable (X : Main.Externals) (e : exn) : Prop :=
  format_raises (Main.main_format_outcome X) e = None.

(** A run in which no logging call raises: the loggers of the two pools can
    format every exception of their factory and of their cleanups, and the
    logger of [main] every exception that can reach its [except] block:
    those of the factories, of the [AgentManager] constructor, of the
    stream client's [start] and of the installation of a signal handler. *)
Definition quiet_run (world_of : string -> World) (X : Main.Externals) : Prop :=
  (forall key, quiet_cleanups (world_of key) /\ quiet_factory (world_of key)) /\
  (forall key i e,
      server_factory (world_of key) i = inr e -> main_loggable X e) /\
  (forall e, Main.AgentManager_init X = Some e -> main_loggable X e) /\
  (forall e, Main.stream_manager_start X = Some e -> main_loggable X e) /\
  (forall sig e, Main.add_signal_handler X sig = Some e -> main_loggable X e).


(** The [stdio] factory works; the second await of the [code_analysis]
    factory raises. *)
Definition second_pool_fails (key : string) : World :=
  if String.eqb key "stdio" then reliable else flaky 1.

(** What one [shutdown] cleans up: no server twice, and exactly the servers
    that were tracked or queued. *)
Definition cleans_each_once (s : State) (r : result State unit) : Prop :=
  exists s' disposed,
    r = Return tt s' /\
    cleaned s' = cleaned s ++ disposed /\
    NoDup disposed /\
    (forall x, In x disposed <-> In x (all_servers s) \/ In x (available s)).

(** [k] calls of [acquire()] in a row, with the servers they return. *)
Fixpoint acquire_all (k : nat) : M State (list Server) :=
  match k with
  | O => ret []
  | S k' =>
      server <- GenericMCPServerPool.acquire ;;
      others <- acquire_all k' ;;
      ret (server :: others)
  end.

(** ** Facts about the monad and the primitives *)

(** Settles that the exceptions of a given world can be logged, by running
    the world's oracles. *)
Ltac quiet_world :=
  intros;
  match goal with
  | H : _ = Some _ |- _ =>
      simpl in H;
      repeat match type of H with
             | context [if ?b then _ else _] => destruct b
             end;
      first [discriminate H | injection H as <-; reflexivity]
  | H : _ = inr _ |- _ =>
      simpl in H;
      repeat match type of H with
             | context [if ?b then _ else _] => destruct b
             end;
      first [discriminate H | injection H as <-; reflexivity]
  end.

Lemma bind_Return {S A B} (m : M S A) (k : A -> M S B) s a s' :
  m s = Return a s' -> bind m k s = k a s'.
Proof. intros H. unfold bind. now rewrite H. Qed.

Lemma bind_Raise {S A B} (m : M S A) (k : A -> M S B) s e s' :
  m s = Raise e s' -> bind m k s = Raise e s'.
Proof. intros H. unfold bind. now rewrite H. Qed.

Lemma for_each_app {S X} (xs ys : list X) (body : X -> M S unit) (s : S) :
  for_each (xs ++ ys) body s = bind (for_each xs body) (fun _ => for_each ys body) s.
Proof.
  revert s. induction xs as [|x xs IH]; intros s; simpl.
  - reflexivity.
  - unfold bind. destruct (body x s); try reflexivity.
    rewrite IH. reflexivity.
Qed.

Lemma for_each_lift {L X} (f : X -> M State unit) (xs : list X) (l : L) (s : State) :
  for_each xs (fun x => lift (f x)) (l, s) = lift (for_each xs f) (l, s).
Proof.
  revert s. induction xs as [|x xs IH]; intros s; simpl.
  - reflexivity.
  - unfold bind, lift. simpl. destruct (f x s); try reflexivity.
    rewrite IH. reflexivity.
Qed.

Lemma only_cleaned_step x l s s1 s2 :
  only_cleaned [x] s s1 -> only_cleaned l s1 s2 -> only_cleaned (x :: l) s s2.
Proof.
  unfold only_cleaned. intros (A1 & A2 & A3 & A4 & A5) (B1 & B2 & B3 & B4 & B5).
  rewrite B1, B2, B3, B4, B5, A1, A2, A3, A4, A5, <- app_assoc. simpl. auto.
Qed.

Section PrimitiveFacts.

Variable W : World.

Lemma log_exception_quiet e s :
  loggable W e ->
  log_exception W e s = Return tt (set_logs (logs s ++ [ERROR]) s).
Proof. unfold loggable, log_exception. intros H. now rewrite H. Qed.

Lemma log_exception_raises e e' s :
  format_raises (format_outcome W) e = Some e' ->
  log_exception W e s = Raise e' s.
Proof. unfold log_exception. intros H. now rewrite H. Qed.

(** A guarded cleanup awaits [cleanup()] whatever happens; the only
    exception that gets out of it is one of the logging call. *)
Lemma cleanup_logged_any srv s :
  exists s',
    cleanup_logged W srv s = finish (escapes W srv s) s' /\
    only_cleaned [srv] s s'.
Proof.
  unfold cleanup_logged, try_except, bind, cleanup, only_cleaned, escapes,
    log_exception, Exception.
  destruct (cleanup_outcome W srv (length (cleaned s))) as [e|]; simpl.
  - destruct (format_raises (format_outcome W) e); simpl;
      eexists; (split; [reflexivity|]); simpl; auto.
  - eexists. split; [reflexivity|]. simpl. auto.
Qed.

Lemma shut_down_server_any srv s :
  exists s',
    shut_down_server W srv s = finish (escapes W srv s) s' /\
    only_cleaned [srv] s s'.
Proof.
  unfold shut_down_server, try_except, bind, cleanup, only_cleaned, escapes,
    log_exception, Exception. simpl.
  destruct (cleanup_outcome W srv (length (cleaned s))) as [e|]; simpl.
  - destruct (format_raises (format_outcome W) e); simpl;
      eexists; (split; [reflexivity|]); simpl; auto.
  - eexists. split; [reflexivity|]. simpl. auto.
Qed.

Lemma brace_free_loggable e : brace_free (str e) = true -> loggable W e.
Proof. unfold loggable, format_raises. intros H. now rewrite H. Qed.

Lemma escapes_quiet srv s : quiet_cleanups W -> escapes W srv s = None.
Proof.
  intros Hq. unfold escapes.
  destruct (cleanup_outcome W srv (length (cleaned s))) as [e|] eqn:E;
    [exact (Hq _ _ _ E)|reflexivity].
Qed.

(** A cleanup that raises is logged and the exception ends there, when the
    logging call can format its text. *)
Lemma cleanup_logged_returns srv s :
  quiet_cleanups W ->
  exists s', cleanup_logged W srv s = Return tt s' /\ only_cleaned [srv] s s'.
Proof.
  intros Hq. destruct (cleanup_logged_any srv s) as (s' & E & F).
  rewrite (escapes_quiet srv s Hq) in E. now exists s'.
Qed.

Lemma shut_down_server_returns srv s :
  quiet_cleanups W ->
  exists s', shut_down_server W srv s = Return tt s' /\ only_cleaned [srv] s s'.
Proof.
  intros Hq. destruct (shut_down_server_any srv s) as (s' & E & F).
  rewrite (escapes_quiet srv s Hq) in E. now exists s'.
Qed.

(** A loop of guarded cleanups stops at the first one that lets an
    exception out; up to there every server had [cleanup()] awaited. *)
Lemma for_each_cleanup_any (body : Server -> M State unit) :
  (forall srv s, exists o s',
      body srv s = finish o s' /\ only_cleaned [srv] s s') ->
  forall l s, exists done rest s',
    l = done ++ rest /\
    (for_each l body s = Return tt s' /\ rest = [] \/
     exists e, for_each l body s = Raise e s' /\ done <> []) /\
    only_cleaned done s s'.
Proof.
  intros Hbody. induction l as [|x l IH]; intros s; simpl.
  - exists [], [], s. split; [reflexivity|]. split; [left; auto|].
    unfold only_cleaned. rewrite app_nil_r. auto.
  - destruct (Hbody x s) as ([e|] & s1 & E1 & F1); simpl in E1.
    + exists [x], l, s1. split; [reflexivity|]. split; [|exact F1].
      right. exists e. rewrite (bind_Raise _ _ _ _ _ E1).
      split; [reflexivity|discriminate].
    + destruct (IH s1) as (done & rest & s2 & Hl & H2 & F2).
      exists (x :: done), rest, s2. split; [simpl; now rewrite Hl|].
      rewrite (bind_Return _ _ _ _ _ E1). split.
      * destruct H2 as [H2|(e & E2 & _)]; [now left|].
        right. exists e. split; [exact E2|discriminate].
      * eapply only_cleaned_step; eauto.
Qed.

(** A loop of guarded cleanups goes through the whole list when every
    single one returns. *)
Lemma for_each_cleanup (body : Server -> M State unit) :
  (forall srv s, exists s', body srv s = Return tt s' /\ only_cleaned [srv] s s') ->
  forall l s, exists s', for_each l body s = Return tt s' /\ only_cleaned l s s'.
Proof.
  intros Hbody. induction l as [|x l IH]; intros s; simpl.
  - exists s. split; [reflexivity|]. unfold only_cleaned.
    rewrite app_nil_r. auto.
  - destruct (Hbody x s) as (s1 & E1 & F1).
    destruct (IH s1) as (s2 & E2 & F2).
    exists s2. split.
    + rewrite (bind_Return _ _ _ _ _ E1). exact E2.
    + eapply only_cleaned_step; eauto.
Qed.

(** Emptying the queue takes as many rounds as it has items and changes
    nothing else. *)
Lemma drain_rounds items :
  forall s, Queue.items (available_servers s) = items ->
    while (length items) (fun s => negb (Queue.empty (available_servers s)))
      (try_except (get_nowait ;; ret Next)
                  (fun e => isinstance e "QueueEmpty")
                  (fun _ => ret Break)) s
    = Return tt (set_available_servers
                   (Queue.mk (Queue.maxsize (available_servers s)) []) s).
Proof.
  induction items as [|x rest IH]; intros s Hs.
  - simpl. unfold Queue.empty. rewrite Hs. simpl.
    destruct s as [ps [mx it] al fc cl lg]. simpl in *. subst. reflexivity.
  - simpl. unfold Queue.empty at 1. rewrite Hs. simpl.
    unfold try_except, bind, get_nowait, Queue.popleft. rewrite Hs. simpl.
    rewrite IH by reflexivity. reflexivity.
Qed.

Lemma drain_queue_returns s :
  drain_queue s
  = Return tt (set_available_servers
                 (Queue.mk (Queue.maxsize (available_servers s)) []) s).
Proof.
  unfold drain_queue, bind, gets. apply drain_rounds. reflexivity.
Qed.

End PrimitiveFacts.

(** ** Creating the servers *)

Lemma returns_on_S W c k :
  returns_on W c (S k) ->
  (exists srv, server_factory W c = inl srv) /\ returns_on W (S c) k.
Proof.
  intros H. split.
  - destruct (H 0) as (srv & E); [lia|]. exists srv. now rewrite Nat.add_0_r in E.
  - intros i Hi. destruct (H (S i)) as (srv & E); [lia|].
    exists srv. now rewrite Nat.add_succ_comm.
Qed.

Lemma made_length W k : forall c, returns_on W c k -> length (made W c k) = k.
Proof.
  induction k as [|k IH]; intros c H; simpl; [reflexivity|].
  apply returns_on_S in H. destruct H as ((srv & E) & H). rewrite E. simpl.
  now rewrite IH.
Qed.

Lemma room_for_S k q :
  room_for (S k) q -> Queue.full q = false.
Proof.
  unfold room_for, Queue.full. intros [H|H].
  - destruct (Z.leb_spec (Queue.maxsize q) 0); [reflexivity|lia].
  - destruct (Z.leb_spec (Queue.maxsize q) 0); [reflexivity|].
    apply Z.leb_gt. lia.
Qed.

Lemma room_for_push k q srv :
  room_for (S k) q -> room_for k (Queue.push q srv).
Proof.
  unfold room_for, Queue.push, Queue.qsize. simpl. rewrite length_app. simpl.
  lia.
Qed.

Section GenericInitialize.

Variable W : World.
Import GenericMCPServerPool.

Lemma create_server_returns i created s srv :
  server_factory W (factory_calls s) = inl srv ->
  Queue.full (available_servers s) = false ->
  exists s',
    create_server W i (created, s) = Return tt (created ++ [srv], s') /\
    only_created [srv] s s'.
Proof.
  intros Hf Hq. unfold create_server, bind, lift, call_factory, put_nowait.
  simpl. rewrite Hf. simpl. rewrite Hq. simpl.
  eexists. split; [reflexivity|].
  unfold only_created. simpl. repeat split. lia.
Qed.

Lemma create_server_raises i created s e :
  server_factory W (factory_calls s) = inr e ->
  exists s',
    create_server W i (created, s) = Raise e (created, s') /\
    only_created [] s (set_factory_calls (factory_calls s) s').
Proof.
  intros Hf. unfold create_server, bind, lift, call_factory. simpl.
  rewrite Hf. simpl. eexists. split; [reflexivity|].
  unfold only_created. simpl. rewrite app_nil_r.
  destruct (available_servers s). simpl. repeat split. lia.
Qed.

Lemma only_created_step srv new s s1 s2 :
  only_created [srv] s s1 -> only_created new s1 s2 ->
  only_created (srv :: new) s s2.
Proof.
  unfold only_created.
  intros (A1 & A2 & A3 & A4 & A5) (B1 & B2 & B3 & B4 & B5).
  rewrite B1, B2, B3, B4, B5, A1, A2, A3, A4, A5. simpl.
  rewrite <- app_assoc. simpl. repeat split. lia.
Qed.

(** Rounds of the creation loop on which the factory returns. *)
Lemma create_servers_return k :
  forall a created s,
    returns_on W (factory_calls s) k ->
    room_for k (available_servers s) ->
    exists s',
      for_each (seq a k) (create_server W) (created, s)
      = Return tt (created ++ made W (factory_calls s) k, s') /\
      only_created (made W (factory_calls s) k) s s'.
Proof.
  induction k as [|k IH]; intros a created s Hs Hr; simpl.
  - exists s. rewrite app_nil_r. split; [reflexivity|].
    unfold only_created. rewrite app_nil_r.
    destruct (available_servers s). simpl. repeat split. lia.
  - apply returns_on_S in Hs. destruct Hs as ((srv & E) & Hs). rewrite E.
    destruct (create_server_returns a created s srv E (room_for_S _ _ Hr))
      as (s1 & E1 & F1).
    pose proof F1 as (_ & Q1 & _ & C1 & _). simpl in C1.
    assert (Hc : factory_calls s1 = S (factory_calls s)) by lia.
    destruct (IH (S a) (created ++ [srv]) s1) as (s2 & E2 & F2).
    + now rewrite Hc.
    + rewrite Q1. apply room_for_push. exact Hr.
    + rewrite Hc in E2, F2. exists s2. split.
      * rewrite (bind_Return _ _ _ _ _ E1), E2, <- app_assoc. reflexivity.
      * eapply only_created_step; eauto.
Qed.

(** The loop stops at the first round on which the factory raises. *)
Lemma create_servers_raise j m a created s e :
  returns_on W (factory_calls s) j ->
  server_factory W (factory_calls s + j) = inr e ->
  room_for j (available_servers s) ->
  exists s',
    for_each (seq a (j + S m)) (create_server W) (created, s)
    = Raise e (created ++ made W (factory_calls s) j, s') /\
    only_created (made W (factory_calls s) j) s
                 (set_factory_calls (factory_calls s + j) s').
Proof.
  intros Hs He Hr. rewrite seq_app, for_each_app.
  destruct (create_servers_return j a created s Hs Hr) as (s1 & E1 & F1).
  rewrite (bind_Return _ _ _ _ _ E1). simpl.
  pose proof F1 as (P1 & Q1 & A1 & C1 & D1).
  rewrite (made_length _ _ _ Hs) in C1.
  destruct (create_server_raises (a + j) (created ++ made W (factory_calls s) j)
              s1 e) as (s2 & E2 & F2).
  { now rewrite C1. }
  exists s2. split.
  - rewrite (bind_Raise _ _ _ _ _ E2). reflexivity.
  - destruct F2 as (P2 & Q2 & A2 & C2 & D2). simpl in *.
    rewrite app_nil_r in Q2.
    unfold only_created. simpl.
    rewrite P2, Q2, A2, D2, P1, Q1, A1, D1, (made_length _ _ _ Hs). simpl.
    repeat split.
Qed.

End GenericInitialize.

Section GenericInitializeOutcome.

Variable W : World.
Import GenericMCPServerPool.

(** The clean-up after a failed attempt, when every exception met on the
    way can be logged: every server of the attempt has [cleanup()] awaited,
    the queue and the list are emptied, and the exception caught is the one
    raised again. *)
Lemma roll_back_raises e created s :
  quiet_cleanups W -> loggable W e ->
  exists s',
    roll_back W e (created, s) = Raise e (created, s') /\
    pool_size s' = pool_size s /\
    available_servers s' = Queue.mk (Queue.maxsize (available_servers s)) [] /\
    all_servers s' = [] /\
    factory_calls s' = factory_calls s /\
    cleaned s' = cleaned s ++ created.
Proof.
  intros Hq He. unfold roll_back.
  unfold bind at 1. unfold lift at 1. cbn [snd fst].
  rewrite (log_exception_quiet W e s He).
  unfold bind at 1. unfold lift at 1. simpl.
  unfold bind at 1. unfold get_local, gets. simpl.
  set (s0 := set_logs _ _).
  destruct (for_each_cleanup (cleanup_logged W)
              (fun srv s => cleanup_logged_returns W srv s Hq)
              created s0) as (s1 & E1 & P1 & Q1 & A1 & C1 & D1).
  unfold bind at 1. rewrite for_each_lift. unfold lift at 1. simpl.
  rewrite E1.
  unfold bind at 1. unfold lift at 1. simpl. rewrite drain_queue_returns.
  unfold bind, lift, modify, raise. simpl.
  eexists. split; [reflexivity|]. simpl.
  rewrite P1, Q1, C1, D1. subst s0. simpl. repeat split.
Qed.

Lemma generic_initialize_returns s :
  returns_on W (factory_calls s) (Z.to_nat (pool_size s)) ->
  room_for (Z.to_nat (pool_size s)) (available_servers s) ->
  exists s',
    initialize W s = Return tt s' /\
    only_created (made W (factory_calls s) (Z.to_nat (pool_size s))) s
                 (set_all_servers (all_servers s) s') /\
    all_servers s' =
      all_servers s ++ made W (factory_calls s) (Z.to_nat (pool_size s)).
Proof.
  intros Hs Hr.
  set (s0 := set_logs (logs s ++ [INFO]) s).
  destruct (create_servers_return W (Z.to_nat (pool_size s)) 0 [] s0 Hs Hr)
    as (s1 & E1 & P1 & Q1 & A1 & C1 & D1).
  unfold initialize, with_locals, try_except, range.
  unfold bind at 1. unfold log at 1, modify. fold s0.
  unfold bind at 1. unfold lift at 1, gets. simpl.
  unfold bind at 1. rewrite E1.
  unfold bind, get_local, gets, lift, modify, log. simpl.
  eexists. split; [reflexivity|]. simpl in *.
  unfold only_created. simpl. rewrite P1, Q1, A1, C1, D1. repeat split.
Qed.

(** The clean-up after a failed attempt, whatever can be logged: it
    raises, adds nothing to the queue and awaits no factory. *)
Lemma roll_back_any e created s :
  exists e' s',
    roll_back W e (created, s) = Raise e' (created, s') /\
    pool_size s' = pool_size s /\
    Queue.maxsize (available_servers s') = Queue.maxsize (available_servers s) /\
    length (Queue.items (available_servers s'))
    <= length (Queue.items (available_servers s)) /\
    factory_calls s' = factory_calls s.
Proof.
  unfold roll_back.
  unfold bind at 1. unfold lift at 1. cbn [snd fst].
  destruct (format_raises (format_outcome W) e) as [e'|] eqn:Hfmt.
  - rewrite (log_exception_raises W e e' s Hfmt).
    exists e', s. repeat split. lia.
  - rewrite (log_exception_quiet W e s Hfmt).
    unfold bind at 1. unfold lift at 1. simpl.
    unfold bind at 1. unfold get_local, gets. simpl.
    set (s0 := set_logs _ _).
    destruct (for_each_cleanup_any (cleanup_logged W)
                (fun srv s => ex_intro _ _ (cleanup_logged_any W srv s))
                created s0)
      as (done & rest & s1 & _ & [(E1 & _)|(e1 & E1 & _)] & P1 & Q1 & A1 & C1 & D1).
    + unfold bind at 1. rewrite for_each_lift. unfold lift at 1. simpl.
      rewrite E1.
      unfold bind at 1. unfold lift at 1. simpl. rewrite drain_queue_returns.
      unfold bind, lift, modify, raise. simpl.
      exists e. eexists. split; [reflexivity|]. simpl.
      rewrite P1, Q1, C1. subst s0. simpl. repeat split. lia.
    + unfold bind at 1. rewrite for_each_lift. unfold lift at 1. simpl.
      rewrite E1.
      exists e1, s1. split; [reflexivity|].
      rewrite P1, Q1, C1. subst s0. simpl. repeat split. lia.
Qed.

Lemma generic_initialize_raises s j m e :
  quiet_cleanups W -> loggable W e ->
  Z.to_nat (pool_size s) = j + S m ->
  returns_on W (factory_calls s) j ->
  server_factory W (factory_calls s + j) = inr e ->
  room_for j (available_servers s) ->
  exists s',
    initialize W s = Raise e s' /\
    pool_size s' = pool_size s /\
    available_servers s' = Queue.mk (Queue.maxsize (available_servers s)) [] /\
    all_servers s' = [] /\
    cleaned s' = cleaned s ++ made W (factory_calls s) j.
Proof.
  intros Hq Hlog Hn Hs He Hr.
  set (s0 := set_logs (logs s ++ [INFO]) s).
  destruct (create_servers_raise W j m 0 [] s0 e Hs He Hr)
    as (s1 & E1 & P1 & Q1 & A1 & C1 & D1).
  simpl in E1.
  destruct (roll_back_raises e (made W (factory_calls s) j) s1 Hq Hlog)
    as (s2 & E2 & P2 & Q2 & A2 & C2 & D2).
  unfold initialize, with_locals, try_except, range.
  unfold bind at 1. unfold log at 1, modify. fold s0.
  unfold bind at 1. unfold lift at 1, gets. simpl.
  rewrite Hn. unfold bind at 1. rewrite E1. unfold Exception. rewrite E2.
  exists s2. split; [reflexivity|]. simpl in *.
  rewrite P2, Q2, A2, D2, P1, Q1, D1. repeat split.
Qed.

(** When the factory raises, [initialize] raises, whatever can be
    logged. *)
Lemma generic_initialize_fails s j m e :
  Z.to_nat (pool_size s) = j + S m ->
  returns_on W (factory_calls s) j ->
  server_factory W (factory_calls s + j) = inr e ->
  room_for j (available_servers s) ->
  exists e' s', initialize W s = Raise e' s'.
Proof.
  intros Hn Hs He Hr.
  set (s0 := set_logs (logs s ++ [INFO]) s).
  destruct (create_servers_raise W j m 0 [] s0 e Hs He Hr) as (s1 & E1 & _).
  simpl in E1.
  destruct (roll_back_any e (made W (factory_calls s) j) s1)
    as (e2 & s2 & E2 & _).
  exists e2, s2.
  unfold initialize, with_locals, try_except, range.
  unfold bind at 1. unfold log at 1, modify. fold s0.
  unfold bind at 1. unfold lift at 1, gets. simpl.
  rewrite Hn. unfold bind at 1. rewrite E1. unfold Exception. rewrite E2.
  reflexivity.
Qed.

End GenericInitializeOutcome.

Section StdioInitialize.

Variable W : World.
Import MCPServerStdioPool.

Lemma stdio_create_server_returns i s srv :
  server_factory W (factory_calls s) = inl srv ->
  Queue.full (available_servers s) = false ->
  exists s',
    create_server W i s = Return tt s' /\ created_and_tracked [srv] s s'.
Proof.
  intros Hf Hq.
  unfold create_server, try_except, bind, call_factory, put_nowait. simpl.
  rewrite Hf. simpl. rewrite Hq. simpl.
  eexists. split; [reflexivity|].
  unfold created_and_tracked, only_created. simpl. repeat split. lia.
Qed.

Lemma stdio_roll_back_raises e s :
  quiet_cleanups W -> loggable W e ->
  exists s',
    roll_back W e s = Raise e s' /\
    pool_size s' = pool_size s /\
    available_servers s' = Queue.mk (Queue.maxsize (available_servers s)) [] /\
    all_servers s' = [] /\
    factory_calls s' = factory_calls s /\
    cleaned s' = cleaned s ++ all_servers s.
Proof.
  intros Hq He. unfold roll_back.
  unfold bind at 1. rewrite (log_exception_quiet W e s He).
  unfold bind at 1. unfold log at 1, modify. simpl.
  unfold bind at 1. unfold gets at 1. simpl.
  set (s0 := set_logs _ _).
  destruct (for_each_cleanup (cleanup_logged W)
              (fun srv s => cleanup_logged_returns W srv s Hq)
              (all_servers s) s0) as (s1 & E1 & P1 & Q1 & A1 & C1 & D1).
  unfold bind at 1. rewrite E1. cbv beta iota.
  unfold bind at 1. cbv beta iota.
  unfold bind at 1. rewrite drain_queue_returns. unfold raise.
  eexists. split; [reflexivity|]. simpl.
  rewrite P1, Q1, C1, D1. subst s0. simpl. repeat split.
Qed.

Lemma stdio_create_server_raises i s e :
  quiet_cleanups W -> loggable W e ->
  server_factory W (factory_calls s) = inr e ->
  exists s',
    create_server W i s = Raise e s' /\
    pool_size s' = pool_size s /\
    available_servers s' = Queue.mk (Queue.maxsize (available_servers s)) [] /\
    all_servers s' = [] /\
    cleaned s' = cleaned s ++ all_servers s.
Proof.
  intros Hq Hlog Hf.
  unfold create_server, try_except.
  unfold bind at 1. unfold log at 1, modify. simpl.
  unfold bind at 1. unfold call_factory at 1. simpl. rewrite Hf.
  unfold Exception.
  set (s0 := set_factory_calls _ _).
  destruct (stdio_roll_back_raises e s0 Hq Hlog)
    as (s1 & E1 & P1 & Q1 & A1 & C1 & D1).
  rewrite E1. exists s1. split; [reflexivity|].
  rewrite P1, Q1, A1, D1. subst s0. simpl. repeat split.
Qed.

Lemma created_and_tracked_step srv new s s1 s2 :
  created_and_tracked [srv] s s1 -> created_and_tracked new s1 s2 ->
  created_and_tracked (srv :: new) s s2.
Proof.
  unfold created_and_tracked, only_created. simpl.
  intros ((A1 & A2 & _ & A4 & A5) & A3) ((B1 & B2 & _ & B4 & B5) & B3).
  rewrite B1, B2, B3, B4, B5, A1, A2, A3, A4, A5. simpl.
  rewrite <- !app_assoc. simpl. repeat split. lia.
Qed.

Lemma stdio_create_servers_return k :
  forall a s,
    returns_on W (factory_calls s) k ->
    room_for k (available_servers s) ->
    exists s',
      for_each (seq a k) (create_server W) s = Return tt s' /\
      created_and_tracked (made W (factory_calls s) k) s s'.
Proof.
  induction k as [|k IH]; intros a s Hs Hr; simpl.
  - exists s. split; [reflexivity|].
    unfold created_and_tracked, only_created. simpl. rewrite !app_nil_r.
    destruct (available_servers s). simpl. repeat split. lia.
  - apply returns_on_S in Hs. destruct Hs as ((srv & E) & Hs). rewrite E.
    destruct (stdio_create_server_returns a s srv E (room_for_S _ _ Hr))
      as (s1 & E1 & F1).
    pose proof F1 as ((_ & Q1 & _ & C1 & _) & _). simpl in Q1, C1.
    assert (Hc : factory_calls s1 = S (factory_calls s)) by lia.
    destruct (IH (S a) s1) as (s2 & E2 & F2).
    + now rewrite Hc.
    + rewrite Q1. apply room_for_push. exact Hr.
    + rewrite Hc in F2. exists s2. split.
      * rewrite (bind_Return _ _ _ _ _ E1). exact E2.
      * eapply created_and_tracked_step; eauto.
Qed.

Lemma stdio_initialize_raises s j m e :
  quiet_cleanups W -> loggable W e ->
  Z.to_nat (pool_size s) = j + S m ->
  returns_on W (factory_calls s) j ->
  server_factory W (factory_calls s + j) = inr e ->
  room_for j (available_servers s) ->
  exists s',
    initialize W s = Raise e s' /\
    pool_size s' = pool_size s /\
    available_servers s' = Queue.mk (Queue.maxsize (available_servers s)) [] /\
    all_servers s' = [] /\
    cleaned s' = cleaned s ++ all_servers s ++ made W (factory_calls s) j.
Proof.
  intros Hq Hlog Hn Hs He Hr.
  set (s0 := set_logs (logs s ++ [INFO]) s).
  destruct (stdio_create_servers_return j 0 s0 Hs Hr)
    as (s1 & E1 & (P1 & Q1 & _ & C1 & D1) & A1).
  simpl in P1, Q1, C1, D1, A1. rewrite (made_length _ _ _ Hs) in C1.
  destruct (stdio_create_server_raises (0 + j) s1 e Hq Hlog)
    as (s2 & E2 & P2 & Q2 & A2 & D2).
  { now rewrite C1. }
  unfold initialize, range.
  unfold bind at 1. unfold log at 1, modify. fold s0.
  unfold bind at 1. unfold gets at 1. simpl.
  rewrite Hn, seq_app. unfold bind at 1. rewrite for_each_app.
  rewrite (bind_Return _ _ _ _ _ E1). simpl.
  rewrite (bind_Raise _ _ _ _ _ E2).
  exists s2. split; [reflexivity|].
  rewrite P2, Q2, A2, D2, P1, Q1, D1, A1. simpl. repeat split.
Qed.

End StdioInitialize.

(** ** Shutting down *)

Lemma contains_In x l : contains x l = true <-> In x l.
Proof.
  unfold contains. rewrite existsb_exists. split.
  - intros (y & Hy & E). apply Nat.eqb_eq in E. now subst.
  - intros H. exists x. split; [exact H|apply Nat.eqb_refl].
Qed.

Lemma to_shut_down_keeps items :
  forall tracked x, In x tracked -> In x (to_shut_down tracked items).
Proof.
  induction items as [|y rest IH]; intros tracked x H; simpl; [exact H|].
  apply IH. destruct (contains y tracked); [exact H|].
  apply in_or_app. now left.
Qed.

Lemma to_shut_down_NoDup items :
  forall tracked, NoDup tracked -> NoDup (to_shut_down tracked items).
Proof.
  induction items as [|y rest IH]; intros tracked H; simpl; [exact H|].
  apply IH. destruct (contains y tracked) eqn:E; [exact H|].
  assert (~ In y tracked) as Hy.
  { intros Hin. apply contains_In in Hin. congruence. }
  clear E. induction tracked as [|z tracked IHt]; simpl.
  - constructor; [intros []|constructor].
  - inversion H as [|? ? Hz Hnd]; subst. constructor.
    + intros Hin. apply in_app_or in Hin. destruct Hin as [Hin|[->|[]]].
      * now apply Hz.
      * apply Hy. now left.
    + apply IHt; [exact Hnd|]. intros Hin. apply Hy. now right.
Qed.

Lemma NoDup_count_occ_1 (l : list Server) x :
  NoDup l -> In x l -> count_occ Nat.eq_dec l x = 1.
Proof.
  intros Hnd Hin.
  pose proof (proj1 (NoDup_count_occ Nat.eq_dec l) Hnd x).
  pose proof (proj1 (count_occ_In Nat.eq_dec l x) Hin). lia.
Qed.

(** Every tracked server is in the list exactly once. *)
Lemma to_shut_down_once tracked items x :
  NoDup tracked -> In x tracked ->
  count_occ Nat.eq_dec (to_shut_down tracked items) x = 1.
Proof.
  intros Hnd Hin. apply NoDup_count_occ_1.
  - now apply to_shut_down_NoDup.
  - now apply to_shut_down_keeps.
Qed.

Lemma while_done {S} fuel (cond : S -> bool) body s :
  cond s = false -> while fuel cond body s = Return tt s.
Proof. intros H. destruct fuel; simpl; now rewrite H. Qed.

Lemma while_next {S} fuel (cond : S -> bool) body s s' :
  cond s = true -> body s = Return Next s' ->
  while (Datatypes.S fuel) cond body s = while fuel cond body s'.
Proof. intros H E. simpl. now rewrite H, E. Qed.

Section Shutdown.

Variable W : World.

Lemma generic_collect_round tracked s x rest :
  Queue.items (available_servers s) = x :: rest ->
  exists s',
    GenericMCPServerPool.collect_from_queue (tracked, s)
    = Return Next (if contains x tracked then tracked else tracked ++ [x], s') /\
    available_servers s' = Queue.mk (Queue.maxsize (available_servers s)) rest /\
    only_cleaned [] (set_available_servers (available_servers s') s) s'.
Proof.
  intros Hs.
  unfold GenericMCPServerPool.collect_from_queue, try_except.
  unfold bind at 1. unfold lift at 1, get_nowait, Queue.popleft. simpl.
  rewrite Hs. simpl.
  unfold bind, get_local, gets, ret, set_local, modify, lift, log. simpl.
  destruct (contains x tracked); simpl;
    (eexists; split; [reflexivity|]); simpl;
    unfold only_cleaned; simpl; rewrite app_nil_r; repeat split.
Qed.

Lemma generic_collect_rounds items :
  forall tracked s, Queue.items (available_servers s) = items ->
    exists s',
      while (length items)
            (fun ls => negb (Queue.empty (available_servers (snd ls))))
            GenericMCPServerPool.collect_from_queue (tracked, s)
      = Return tt (to_shut_down tracked items, s') /\
      available_servers s' = Queue.mk (Queue.maxsize (available_servers s)) [] /\
      only_cleaned [] (set_available_servers (available_servers s') s) s'.
Proof.
  induction items as [|x rest IH]; intros tracked s Hs.
  - rewrite while_done by (simpl; unfold Queue.empty; now rewrite Hs).
    exists s. split; [reflexivity|].
    unfold only_cleaned. simpl. rewrite app_nil_r.
    destruct (available_servers s). simpl in *. subst. repeat split.
  - destruct (generic_collect_round tracked s x rest Hs)
      as (s1 & E1 & Q1 & P1 & _ & A1 & C1 & D1).
    assert (Hc : negb (Queue.empty (available_servers s)) = true)
      by (unfold Queue.empty; now rewrite Hs).
    simpl length.
    rewrite (while_next _
               (fun ls => negb (Queue.empty (available_servers (snd ls))))
               _ (tracked, s) _ Hc E1).
    destruct (IH (if contains x tracked then tracked else tracked ++ [x]) s1)
      as (s2 & E2 & Q2 & P2 & _ & A2 & C2 & D2).
    { now rewrite Q1. }
    exists s2. split; [exact E2|]. simpl in *.
    rewrite Q1 in Q2. simpl in Q2. split; [exact Q2|].
    unfold only_cleaned. simpl.
    rewrite P2, A2, C2, D2, P1, A1, C1, D1, !app_nil_r. repeat split.
Qed.

Lemma stdio_collect_round s x rest :
  Queue.items (available_servers s) = x :: rest ->
  exists s',
    MCPServerStdioPool.collect_from_queue s = Return Next s' /\
    available_servers s' = Queue.mk (Queue.maxsize (available_servers s)) rest /\
    all_servers s' =
      (if contains x (all_servers s) then all_servers s
       else all_servers s ++ [x]) /\
    only_cleaned []
      (set_all_servers (all_servers s')
         (set_available_servers (available_servers s') s)) s'.
Proof.
  intros Hs.
  unfold MCPServerStdioPool.collect_from_queue, try_except.
  unfold bind at 1. unfold get_nowait, Queue.popleft. simpl.
  rewrite Hs. simpl.
  unfold bind, gets, ret, modify, log. simpl.
  destruct (contains x (all_servers s)); simpl;
    (eexists; split; [reflexivity|]); simpl;
    unfold only_cleaned; simpl; rewrite app_nil_r; repeat split.
Qed.

Lemma stdio_collect_rounds items :
  forall s, Queue.items (available_servers s) = items ->
    exists s',
      while (length items)
            (fun s => negb (Queue.empty (available_servers s)))
            MCPServerStdioPool.collect_from_queue s
      = Return tt s' /\
      available_servers s' = Queue.mk (Queue.maxsize (available_servers s)) [] /\
      all_servers s' = to_shut_down (all_servers s) items /\
      only_cleaned []
        (set_all_servers (all_servers s')
           (set_available_servers (available_servers s') s)) s'.
Proof.
  induction items as [|x rest IH]; intros s Hs.
  - rewrite while_done by (unfold Queue.empty; now rewrite Hs).
    exists s. split; [reflexivity|].
    unfold only_cleaned. simpl. rewrite app_nil_r.
    destruct (available_servers s). simpl in *. subst. repeat split.
  - destruct (stdio_collect_round s x rest Hs)
      as (s1 & E1 & Q1 & T1 & P1 & _ & _ & C1 & D1).
    assert (Hc : negb (Queue.empty (available_servers s)) = true)
      by (unfold Queue.empty; now rewrite Hs).
    simpl length.
    rewrite (while_next _
               (fun s => negb (Queue.empty (available_servers s)))
               _ s _ Hc E1).
    destruct (IH s1) as (s2 & E2 & Q2 & T2 & P2 & _ & _ & C2 & D2).
    { now rewrite Q1. }
    exists s2. split; [exact E2|]. simpl in *.
    rewrite Q1 in Q2. simpl in Q2. split; [exact Q2|].
    rewrite T1 in T2. split; [exact T2|].
    unfold only_cleaned. simpl.
    rewrite P2, C2, D2, P1, C1, D1, !app_nil_r. repeat split.
Qed.

End Shutdown.

Section ShutdownOutcome.

Variable W : World.

Lemma generic_shutdown_returns s :
  quiet_cleanups W ->
  exists s', GenericMCPServerPool.shutdown W s = Return tt s' /\ shut_down s s'.
Proof.
  intros Hq.
  unfold GenericMCPServerPool.shutdown, with_locals.
  unfold bind at 1. unfold log at 1, modify. cbv beta iota.
  unfold bind at 1. unfold gets at 1. cbv beta iota.
  unfold bind at 1. unfold lift at 1. cbv beta iota.
  unfold bind at 1. unfold lift at 1, gets. cbv beta iota. cbn [fst snd].
  set (s0 := set_all_servers [] _).
  change (all_servers (set_logs (logs s ++ [INFO]) s)) with (all_servers s).
  destruct (generic_collect_rounds (Queue.items (available_servers s0))
              (all_servers s) s0 eq_refl)
    as (s1 & E1 & Q1 & P1 & _ & A1 & C1 & D1).
  unfold bind at 1. rewrite E1. cbv beta iota.
  unfold bind at 1. unfold get_local, gets. cbv beta iota. cbn [fst snd].
  destruct (for_each_cleanup (shut_down_server W)
              (fun srv s => shut_down_server_returns W srv s Hq)
              (to_shut_down (all_servers s)
                            (Queue.items (available_servers s0))) s1)
    as (s2 & E2 & P2 & Q2 & A2 & C2 & D2).
  unfold bind at 1. rewrite for_each_lift. unfold lift at 1. cbn [fst snd].
  rewrite E2. cbv beta iota.
  unfold bind, lift, log, modify. simpl.
  eexists. split; [reflexivity|].
  unfold shut_down, available. simpl in *.
  rewrite P2, A2, C2, D2, P1, A1, C1, D1, app_nil_r. repeat split.
Qed.

(** [shutdown] whatever can be logged: it returns, or it raises what the
    logging call of a failed cleanup raised and leaves the servers after
    that one as they are.  Either way the pool is empty afterwards. *)
Lemma generic_shutdown_any s :
  exists done rest s',
    to_shut_down (all_servers s) (available s) = done ++ rest /\
    (GenericMCPServerPool.shutdown W s = Return tt s' /\ rest = [] /\
     available_servers s' = Queue.create (pool_size s) \/
     exists e, GenericMCPServerPool.shutdown W s = Raise e s' /\ done <> []) /\
    pool_size s' = pool_size s /\
    (Queue.maxsize (available_servers s') = pool_size s \/
     Queue.maxsize (available_servers s') = Queue.maxsize (available_servers s)) /\
    available s' = [] /\
    all_servers s' = [] /\
    factory_calls s' = factory_calls s /\
    cleaned s' = cleaned s ++ done.
Proof.
  set (s0 := set_all_servers [] (set_logs (logs s ++ [INFO]) s)).
  destruct (generic_collect_rounds (Queue.items (available_servers s0))
              (all_servers s) s0 eq_refl)
    as (s1 & E1 & Q1 & P1 & _ & A1 & C1 & D1).
  destruct (for_each_cleanup_any (shut_down_server W)
              (fun srv s => ex_intro _ _ (shut_down_server_any W srv s))
              (to_shut_down (all_servers s)
                            (Queue.items (available_servers s0))) s1)
    as (done & rest & s2 & Hl & H2 & P2 & Q2 & A2 & C2 & D2).
  assert (Hrun : forall r,
             r = match for_each
                         (to_shut_down (all_servers s)
                            (Queue.items (available_servers s0)))
                         (shut_down_server W) s1 with
                 | Return _ s2 =>
                     Return tt
                       (set_logs
                          (logs s2 ++ [INFO])
                          (set_available_servers (Queue.create (pool_size s2)) s2))
                 | Raise e s2 => Raise e s2
                 | Suspend s2 => Suspend s2
                 | OutOfFuel s2 => OutOfFuel s2
                 end ->
             GenericMCPServerPool.shutdown W s = r).
  { intros r ->.
    unfold GenericMCPServerPool.shutdown, with_locals.
    unfold bind at 1. unfold log at 1, modify. cbv beta iota.
    unfold bind at 1. unfold gets at 1. cbv beta iota.
    unfold bind at 1. unfold lift at 1. cbv beta iota.
    unfold bind at 1. unfold lift at 1, gets. cbv beta iota. cbn [fst snd].
    fold s0.
    change (all_servers (set_logs (logs s ++ [INFO]) s)) with (all_servers s).
    unfold bind at 1. rewrite E1. cbv beta iota.
    unfold bind at 1. unfold get_local, gets. cbv beta iota. cbn [fst snd].
    unfold bind at 1. rewrite for_each_lift. unfold lift at 1. cbn [fst snd].
    destruct (for_each _ (shut_down_server W) s1); try reflexivity. }
  simpl in P1, A1, C1, D1, Q1. rewrite app_nil_r in D1.
  destruct H2 as [(E2 & Hrest)|(e2 & E2 & Hdone)].
  - exists done, rest. eexists. split; [exact Hl|].
    split; [left; split; [apply Hrun; rewrite E2; reflexivity|]|].
    { split; [exact Hrest|]. simpl. now rewrite P2, P1. }
    unfold available. simpl.
    rewrite P2, A2, C2, D2, P1, A1, C1, D1. repeat split. now left.
  - exists done, rest, s2. split; [exact Hl|].
    split; [right; exists e2; split;
            [apply Hrun; rewrite E2; reflexivity|exact Hdone]|].
    unfold available.
    rewrite P2, Q2, A2, C2, D2, P1, Q1, A1, C1, D1. simpl.
    repeat split. now right.
Qed.

Lemma stdio_shutdown_returns s :
  quiet_cleanups W ->
  exists s', MCPServerStdioPool.shutdown W s = Return tt s' /\ shut_down s s'.
Proof.
  intros Hq.
  unfold MCPServerStdioPool.shutdown.
  unfold bind at 1. unfold log at 1, modify. cbv beta iota.
  unfold bind at 1. unfold gets at 1. cbv beta iota.
  set (s0 := set_logs _ s).
  destruct (stdio_collect_rounds (Queue.items (available_servers s0)) s0 eq_refl)
    as (s1 & E1 & Q1 & T1 & P1 & _ & _ & C1 & D1).
  unfold bind at 1. rewrite E1. cbv beta iota.
  unfold bind at 1. unfold gets at 1. cbv beta iota.
  destruct (for_each_cleanup (shut_down_server W)
              (fun srv s => shut_down_server_returns W srv s Hq)
              (all_servers s1) s1)
    as (s2 & E2 & P2 & Q2 & A2 & C2 & D2).
  unfold bind at 1. rewrite E2. cbv beta iota.
  unfold bind, log, modify. simpl.
  eexists. split; [reflexivity|].
  unfold shut_down, available. simpl in *.
  rewrite P2, C2, D2, T1, P1, C1, D1, app_nil_r. repeat split.
Qed.

(** The same for [MCPServerStdioPool], which forgets its servers only at
    the end: after a [shutdown] that raised, every server is still
    tracked. *)
Lemma stdio_shutdown_any s :
  exists done rest s',
    to_shut_down (all_servers s) (available s) = done ++ rest /\
    (MCPServerStdioPool.shutdown W s = Return tt s' /\ rest = [] /\
     available_servers s' = Queue.create (pool_size s) /\
     all_servers s' = [] \/
     exists e, MCPServerStdioPool.shutdown W s = Raise e s' /\ done <> [] /\
               all_servers s' = to_shut_down (all_servers s) (available s)) /\
    pool_size s' = pool_size s /\
    available s' = [] /\
    factory_calls s' = factory_calls s /\
    cleaned s' = cleaned s ++ done.
Proof.
  set (s0 := set_logs (logs s ++ [INFO]) s).
  destruct (stdio_collect_rounds (Queue.items (available_servers s0)) s0 eq_refl)
    as (s1 & E1 & Q1 & T1 & P1 & _ & _ & C1 & D1).
  destruct (for_each_cleanup_any (shut_down_server W)
              (fun srv s => ex_intro _ _ (shut_down_server_any W srv s))
              (all_servers s1) s1)
    as (done & rest & s2 & Hl & H2 & P2 & Q2 & A2 & C2 & D2).
  assert (Hrun : forall r,
             r = match for_each (all_servers s1) (shut_down_server W) s1 with
                 | Return _ s2 =>
                     Return tt
                       (set_logs
                          (logs s2 ++ [INFO])
                          (set_available_servers
                             (Queue.create (pool_size s2))
                             (set_all_servers [] s2)))
                 | Raise e s2 => Raise e s2
                 | Suspend s2 => Suspend s2
                 | OutOfFuel s2 => OutOfFuel s2
                 end ->
             MCPServerStdioPool.shutdown W s = r).
  { intros r ->.
    unfold MCPServerStdioPool.shutdown.
    unfold bind at 1. unfold log at 1, modify. cbv beta iota.
    unfold bind at 1. unfold gets at 1. cbv beta iota. fold s0.
    unfold bind at 1. rewrite E1. cbv beta iota.
    unfold bind at 1. unfold gets at 1. cbv beta iota.
    unfold bind at 1.
    destruct (for_each _ (shut_down_server W) s1); try reflexivity. }
  simpl in P1, C1, D1, Q1, T1. rewrite app_nil_r in D1.
  rewrite T1 in Hl.
  destruct H2 as [(E2 & Hrest)|(e2 & E2 & Hdone)].
  - exists done, rest. eexists. split; [exact Hl|].
    split; [left; split; [apply Hrun; rewrite E2; reflexivity|]|].
    { split; [exact Hrest|]. simpl. now rewrite P2, P1. }
    unfold available. simpl.
    rewrite P2, C2, D2, P1, C1, D1. repeat split.
  - exists done, rest, s2. split; [exact Hl|].
    split; [right; exists e2; split;
            [apply Hrun; rewrite E2; reflexivity|]|].
    { split; [exact Hdone|]. now rewrite A2, T1. }
    unfold available.
    rewrite P2, Q2, C2, D2, P1, Q1, C1, D1. simpl. repeat split.
Qed.

End ShutdownOutcome.

(** ** Lending and taking back *)

Lemma remove_first_contains x l :
  contains x l = true -> exists l', remove_first x l = Some l'.
Proof.
  induction l as [|y l IH]; simpl; [discriminate|].
  destruct (Nat.eqb x y); simpl; [eauto|].
  intros H. destruct (IH H) as (l' & ->). eauto.
Qed.

Lemma remove_first_absent x l :
  contains x l = false -> remove_first x l = None.
Proof.
  induction l as [|y l IH]; simpl; [reflexivity|].
  destruct (Nat.eqb x y); simpl; [discriminate|].
  intros H. now rewrite IH.
Qed.

Section LendingFacts.

Variable W : World.
Import GenericMCPServerPool.

Lemma acquire_returns s x rest :
  available s = x :: rest ->
  exists s',
    acquire s = Return x s' /\
    pool_size s' = pool_size s /\
    available_servers s' = Queue.mk (Queue.maxsize (available_servers s)) rest /\
    all_servers s' = all_servers s /\
    factory_calls s' = factory_calls s /\
    cleaned s' = cleaned s.
Proof.
  unfold available. intros Hs.
  unfold acquire, bind, log, modify, get, get_nowait, Queue.empty, Queue.popleft.
  simpl. rewrite Hs. simpl. eexists. split; [reflexivity|]. simpl.
  repeat split.
Qed.

Lemma acquire_suspends s :
  available s = [] -> acquire s = Suspend (set_logs (logs s ++ [DEBUG]) s).
Proof.
  unfold available. intros Hs.
  unfold acquire, bind, log, modify, get, Queue.empty. simpl. rewrite Hs.
  reflexivity.
Qed.

(** The [finally] block never raises: [remove] is only called on a server
    that is in the list. *)
Lemma forget_returns x not_found s :
  (forall s0, exists s1, not_found s0 = Return tt s1 /\
                         set_logs (logs s0) s1 = s0) ->
  exists s',
    forget x not_found s = Return tt s' /\
    set_logs (logs s) s' = set_all_servers (without x (all_servers s)) s.
Proof.
  intros Hnf. unfold forget, bind, gets, without.
  destruct (contains x (all_servers s)) eqn:E.
  - destruct (remove_first_contains _ _ E) as (l' & El).
    unfold all_servers_remove, log, modify. rewrite El.
    eexists. split; reflexivity.
  - rewrite (remove_first_absent _ _ E).
    destruct (Hnf s) as (s1 & E1 & F1). exists s1. split; [exact E1|].
    rewrite F1. destruct s; reflexivity.
Qed.

Lemma discard_any x not_found s :
  (forall s0, exists s1, not_found s0 = Return tt s1 /\
                         set_logs (logs s0) s1 = s0) ->
  exists s',
    try_finally (cleanup_logged W x) (forget x not_found) s
    = finish (escapes W x s) s' /\
    discarded x s s'.
Proof.
  intros Hnf. unfold try_finally.
  destruct (cleanup_logged_any W x s) as (s1 & E1 & P1 & Q1 & A1 & C1 & D1).
  rewrite E1.
  destruct (forget_returns x not_found s1 Hnf) as (s2 & E2 & F2).
  exists s2. split.
  - destruct (escapes W x s); simpl; unfold bind; rewrite E2; reflexivity.
  - unfold discarded.
    assert (P : pool_size s2 = pool_size (set_logs (logs s1) s2)) by reflexivity.
    assert (Q : available_servers s2 = available_servers (set_logs (logs s1) s2))
      by reflexivity.
    assert (A : all_servers s2 = all_servers (set_logs (logs s1) s2))
      by reflexivity.
    assert (C : factory_calls s2 = factory_calls (set_logs (logs s1) s2))
      by reflexivity.
    assert (D : cleaned s2 = cleaned (set_logs (logs s1) s2)) by reflexivity.
    rewrite P, Q, A, C, D, F2. simpl. rewrite P1, Q1, A1, C1, D1. repeat split.
Qed.

Lemma release_none is_healthy s :
  release W None is_healthy s = Return tt (set_logs (logs s ++ [WARNING]) s).
Proof. reflexivity. Qed.

(** An unhealthy release awaits [cleanup()] and drops the server from the
    tracked list whatever happens; it raises only what the logging call of
    a failed cleanup raises. *)
Lemma release_unhealthy_any x s :
  exists s',
    release W (Some x) false s = finish (escapes W x s) s' /\ discarded x s s'.
Proof.
  unfold release. unfold bind at 1. unfold log at 1, modify. cbv beta iota.
  set (s0 := set_logs _ s).
  destruct (discard_any x (log WARNING) s0) as (s1 & E1 & F1).
  { intros s1. eexists. split; [reflexivity|]. destruct s1; reflexivity. }
  exists s1. split; [exact E1|exact F1].
Qed.

Lemma release_unhealthy x s :
  quiet_cleanups W ->
  exists s', release W (Some x) false s = Return tt s' /\ discarded x s s'.
Proof.
  intros Hq. destruct (release_unhealthy_any x s) as (s' & E & F).
  rewrite (escapes_quiet W x s Hq) in E. now exists s'.
Qed.

Lemma release_healthy_room x s :
  Queue.full (available_servers s) = false ->
  exists s', release W (Some x) true s = Return tt s' /\ enqueued x s s'.
Proof.
  intros Hq. unfold release, try_except, bind, log, modify, put_nowait. simpl.
  rewrite Hq. eexists. split; [reflexivity|]. unfold enqueued. simpl.
  repeat split.
Qed.

Lemma release_healthy_full_any x s :
  Queue.full (available_servers s) = true ->
  exists s',
    release W (Some x) true s = finish (escapes W x s) s' /\ discarded x s s'.
Proof.
  intros Hq. unfold release, try_except.
  unfold bind at 1. unfold log at 1, modify. cbv beta iota.
  unfold bind at 1. unfold put_nowait at 1. simpl available_servers.
  rewrite Hq. cbv beta iota.
  change (isinstance QueueFull "QueueFull") with true. cbv beta iota.
  unfold bind at 1. unfold log at 1, modify. cbv beta iota.
  set (s0 := set_logs _ (set_logs _ s)).
  destruct (discard_any x (ret tt) s0) as (s1 & E1 & F1).
  { intros s1. exists s1. split; [reflexivity|]. destruct s1; reflexivity. }
  exists s1. split; [exact E1|exact F1].
Qed.

Lemma release_healthy_full x s :
  quiet_cleanups W ->
  Queue.full (available_servers s) = true ->
  exists s', release W (Some x) true s = Return tt s' /\ discarded x s s'.
Proof.
  intros Hq Hf. destruct (release_healthy_full_any x s Hf) as (s' & E & F).
  rewrite (escapes_quiet W x s Hq) in E. now exists s'.
Qed.

End LendingFacts.

(** ** Sequences of calls *)


Lemma pool_ok_same s s' :
  pool_size s' = pool_size s ->
  available_servers s' = available_servers s ->
  pool_ok s -> kept s s'.
Proof. unfold kept, pool_ok. intros P Q H. rewrite P, Q. auto. Qed.

Lemma pool_ok_push s s' x :
  pool_size s' = pool_size s ->
  available_servers s' = Queue.push (available_servers s) x ->
  Queue.full (available_servers s) = false ->
  pool_ok s -> kept s s'.
Proof.
  unfold kept, pool_ok, Queue.full, Queue.push, Queue.qsize.
  intros P Q Hf (Hp & Hm & Hq). rewrite P, Q. simpl. rewrite length_app. simpl.
  rewrite Hm in *.
  destruct (Z.leb_spec (pool_size s) 0); [lia|].
  apply Z.leb_gt in Hf. lia.
Qed.

Lemma pool_ok_shorter s s' l :
  pool_size s' = pool_size s ->
  available_servers s' = Queue.mk (Queue.maxsize (available_servers s)) l ->
  length l <= length (Queue.items (available_servers s)) ->
  pool_ok s -> kept s s'.
Proof.
  unfold kept, pool_ok, Queue.qsize. intros P Q Hl (Hp & Hm & Hq).
  rewrite P, Q. simpl. lia.
Qed.

Section PoolOk.

Variable W : World.
Import GenericMCPServerPool.










End PoolOk.

(** ** Well-behaved consumers *)

Lemma remove_first_Permutation x l :
  forall l', remove_first x l = Some l' -> Permutation l (x :: l').
Proof.
  induction l as [|y l IH]; simpl; intros l' H; [discriminate|].
  destruct (Nat.eqb_spec x y) as [->|Hne].
  - injection H as <-. reflexivity.
  - destruct (remove_first x l) as [l0|]; [|discriminate].
    injection H as <-. rewrite (IH l0 eq_refl). apply perm_swap.
Qed.

Lemma without_Permutation x l :
  In x l -> Permutation l (x :: without x l).
Proof.
  intros H. apply contains_In in H.
  destruct (remove_first_contains x l H) as (l' & E).
  unfold without. rewrite E. now apply remove_first_Permutation.
Qed.

Lemma without_length x l :
  In x l -> length l = S (length (without x l)).
Proof.
  intros H. now rewrite (Permutation_length (without_Permutation x l H)).
Qed.

Lemma returns_or_raises W c n :
  returns_on W c n \/
  exists j m e, n = j + S m /\ returns_on W c j /\ server_factory W (c + j) = inr e.
Proof.
  induction n as [|n IH].
  - left. intros i Hi. lia.
  - destruct IH as [Hs|(j & m & e & -> & Hs & He)].
    + destruct (server_factory W (c + n)) as [srv|e] eqn:E.
      * left. intros i Hi. destruct (Nat.eq_dec i n) as [->|Hne].
        -- now exists srv.
        -- apply Hs. lia.
      * right. exists n, 0, e. repeat split; [lia|exact Hs|exact E].
    + right. exists j, (S m), e. repeat split; [lia|exact Hs|exact He].
Qed.

Lemma fresh_room s k :
  fresh s -> k <= Z.to_nat (pool_size s) -> room_for k (available_servers s).
Proof.
  intros (Hp & Hq & _) Hk. rewrite Hq. unfold room_for, Queue.qsize. simpl. lia.
Qed.

Section Accounting.

Variable W : World.
Import GenericMCPServerPool.

(** A successful [initialize] of a new pool made every server. *)
Lemma initialize_returned s0 s1 :
  fresh s0 -> initialize W s0 = Return tt s1 ->
  returns_on W (factory_calls s0) (Z.to_nat (pool_size s0)).
Proof.
  intros Hf E.
  destruct (returns_or_raises W (factory_calls s0) (Z.to_nat (pool_size s0)))
    as [Hs|(j & m & e & Hn & Hs & He)]; [exact Hs|].
  destruct (generic_initialize_fails W s0 j m e Hn Hs He) as (e' & s' & E').
  { apply fresh_room; [exact Hf|lia]. }
  congruence.
Qed.

Lemma initialize_accounted s0 s1 :
  fresh s0 -> initialize W s0 = Return tt s1 ->
  accounted s1 [] /\ pool_size s1 = pool_size s0.
Proof.
  intros Hf E. pose proof (initialize_returned s0 s1 Hf E) as Hs.
  destruct (generic_initialize_returns W s0 Hs) as (s' & E' & (P & Q & _) & A).
  { apply fresh_room; [exact Hf|lia]. }
  assert (s' = s1) by congruence. subst s'.
  destruct Hf as (Hp & Hq & Ha). simpl in P, Q.
  rewrite Hq in Q. simpl in Q. rewrite Ha in A. simpl in A.
  split; [|exact P]. unfold accounted, available, pool_ok, Queue.qsize.
  rewrite Q, A, P. simpl. rewrite app_nil_r, (made_length _ _ _ Hs).
  repeat split; try reflexivity; lia.
Qed.

Lemma borrow_accounted s lent server s' :
  accounted s lent -> acquire s = Return server s' ->
  accounted s' (server :: lent) /\ pool_size s' = pool_size s /\
  all_servers s' = all_servers s.
Proof.
  intros (Hperm & Hok & Hn) E.
  destruct (available s) as [|x rest] eqn:Hs.
  - rewrite (acquire_suspends s Hs) in E. discriminate.
  - destruct (acquire_returns s x rest Hs) as (s1 & E1 & P & Q & A & _).
    rewrite E1 in E. injection E as <- <-.
    split; [|split; [exact P|exact A]].
    unfold accounted, available. rewrite Q, A, P. simpl.
    split; [|split].
    + rewrite <- Hperm. simpl. symmetry. apply Permutation_middle.
    + eapply (pool_ok_shorter s); [exact P|exact Q| |exact Hok].
      unfold available in Hs. rewrite Hs. simpl. lia.
    + exact Hn.
Qed.

(** A held server can always be put back: the queue is not full. *)
Lemma accounted_room s lent server :
  accounted s lent -> In server lent ->
  Queue.full (available_servers s) = false /\ In server (all_servers s).
Proof.
  intros (Hperm & (Hp & Hm & Hq) & Hn) Hin. split.
  - pose proof (Permutation_length Hperm) as Hl. rewrite length_app in Hl.
    pose proof (without_length server lent Hin) as Hlent.
    unfold Queue.full, Queue.qsize. rewrite Hm. unfold available in Hl.
    destruct (Z.leb_spec (pool_size s) 0); [reflexivity|].
    apply Z.leb_gt. lia.
  - eapply Permutation_in; [exact Hperm|]. apply in_or_app. now right.
Qed.

(** Giving back a server that is held keeps the accounts, however the
    call ends: an unhealthy release may raise what the logging call of a
    failed cleanup raised, after the server was dropped. *)
Lemma give_back_accounted s lent server is_healthy :
  accounted s lent -> In server lent ->
  exists s',
    release W (Some server) is_healthy s
    = finish (if is_healthy then None else escapes W server s) s' /\
    accounted s' (without server lent) /\
    pool_size s' = pool_size s /\
    (if is_healthy then enqueued server s s' else discarded server s s').
Proof.
  intros Hacc Hin.
  destruct (accounted_room s lent server Hacc Hin) as (Hfull & Htracked).
  destruct Hacc as (Hperm & Hok & Hn).
  pose proof (without_Permutation server lent Hin) as Hlent.
  destruct is_healthy.
  - destruct (release_healthy_room W server s Hfull) as (s' & E & F).
    exists s'. split; [exact E|]. pose proof F as (P & Q & A & _).
    split; [|split; [exact P|exact F]].
    unfold accounted, available. rewrite Q, A, P. simpl.
    split; [|split].
    + rewrite <- Hperm, <- app_assoc. simpl.
      apply Permutation_app_head. symmetry. exact Hlent.
    + exact (proj2 (pool_ok_push s s' server P Q Hfull Hok)).
    + exact Hn.
  - destruct (release_unhealthy_any W server s) as (s' & E & F).
    exists s'. split; [exact E|]. pose proof F as (P & Q & A & _).
    split; [|split; [exact P|exact F]].
    unfold accounted, available. rewrite Q, A, P.
    split; [|split].
    + apply (Permutation_cons_inv (a := server)).
      rewrite <- (without_Permutation server (all_servers s) Htracked).
      rewrite <- Hperm. rewrite Hlent at 2. apply Permutation_middle.
    + exact (proj2 (pool_ok_same s s' P Q Hok)).
    + rewrite (without_length server (all_servers s) Htracked) in Hn. lia.
Qed.

Lemma serve_accounted requests :
  forall s lent s' lent',
    accounted s lent -> serve W requests s lent = Some (s', lent') ->
    accounted s' lent' /\ pool_size s' = pool_size s /\
    (forall x, In x (all_servers s') -> In x (all_servers s)).
Proof.
  induction requests as [|r requests IH]; intros s lent s' lent' Hacc E; cbn [serve] in E.
  - injection E as <- <-. auto.
  - destruct r as [|server h].
    + destruct (acquire s) as [x s1| | |] eqn:Ea; try discriminate.
      destruct (borrow_accounted s lent x s1 Hacc Ea) as (Hacc1 & P1 & A1).
      destruct (IH s1 (x :: lent) s' lent' Hacc1 E) as (H1 & H2 & H3).
      split; [exact H1|]. split; [congruence|].
      intros y Hy. rewrite <- A1. now apply H3.
    + destruct (contains server lent) eqn:Hc; [|discriminate].
      apply contains_In in Hc.
      destruct (give_back_accounted s lent server h Hacc Hc)
        as (s1 & E1 & Hacc1 & P1 & F1).
      rewrite E1 in E.
      destruct (if h then None else escapes W server s) as [e0|];
        cbn [finish] in E; [discriminate E|].
      destruct (IH s1 (without server lent) s' lent' Hacc1 E) as (H1 & H2 & H3).
      split; [exact H1|]. split; [congruence|].
      intros y Hy. apply H3 in Hy.
      assert (A1 : all_servers s1 = all_servers s \/
                   all_servers s1 = without server (all_servers s)).
      { destruct h; [left|right]; apply F1. }
      destruct A1 as [A1|A1]; rewrite A1 in Hy; [exact Hy|].
      destruct (accounted_room s lent server Hacc Hc) as (_ & Ht).
      eapply Permutation_in;
        [symmetry; exact (without_Permutation _ _ Ht)|now right].
Qed.

End Accounting.

(** ** The tests agree with the properties they test *)

Lemma succeeds_returns_on W c k :
  succeeds W c k = true -> returns_on W c k.
Proof.
  unfold succeeds, returns_on. rewrite forallb_forall. intros H i Hi.
  specialize (H i). rewrite in_seq in H.
  destruct (server_factory W (c + i)) as [srv|e].
  - now exists srv.
  - discriminate H. lia.
Qed.

Lemma distinct_NoDup l : distinct l = true -> NoDup l.
Proof.
  induction l as [|x l IH]; simpl; intros H; [constructor|].
  apply andb_prop in H. destruct H as (Hx & Hl). constructor.
  - intros Hin. apply contains_In in Hin. unfold contains in Hin.
    rewrite Hin in Hx. discriminate.
  - now apply IH.
Qed.

Lemma NoDup_without x l : NoDup l -> In x l -> ~ In x (without x l).
Proof.
  intros Hnd Hin Hin'.
  pose proof (without_Permutation x l Hin) as Hp.
  apply (Permutation_NoDup Hp) in Hnd. inversion Hnd. contradiction.
Qed.

Section NoReplacement.

Variable W : World.
Import GenericMCPServerPool.

(** Serving consumers never awaits the factory, and the tracked list
    never grows. *)
Lemma serve_never_creates requests :
  forall s lent s' lent',
    accounted s lent -> serve W requests s lent = Some (s', lent') ->
    factory_calls s' = factory_calls s /\
    length (all_servers s') <= length (all_servers s).
Proof.
  induction requests as [|r requests IH]; intros s lent s' lent' Hacc E;
    cbn [serve] in E.
  - injection E as <- <-. auto.
  - destruct r as [|server h].
    + destruct (acquire s) as [x s1| | |] eqn:Ea; try discriminate.
      destruct (borrow_accounted s lent x s1 Hacc Ea) as (Hacc1 & _ & A1).
      destruct (IH s1 (x :: lent) s' lent' Hacc1 E) as (H1 & H2).
      assert (C1 : factory_calls s1 = factory_calls s).
      { destruct (available s) as [|y rest] eqn:Hs.
        - rewrite (acquire_suspends s Hs) in Ea. discriminate.
        - destruct (acquire_returns s y rest Hs) as (s2 & E2 & _ & _ & _ & C & _).
          congruence. }
      rewrite <- A1, <- C1. auto.
    + destruct (contains server lent) eqn:Hc; [|discriminate].
      apply contains_In in Hc.
      destruct (give_back_accounted W s lent server h Hacc Hc)
        as (s1 & E1 & Hacc1 & _ & F1).
      rewrite E1 in E.
      destruct (if h then None else escapes W server s) as [e0|];
        cbn [finish] in E; [discriminate E|].
      destruct (IH s1 (without server lent) s' lent' Hacc1 E) as (H1 & H2).
      destruct (accounted_room s lent server Hacc Hc) as (_ & Ht).
      destruct h.
      * destruct F1 as (_ & _ & A1 & C1 & _). rewrite <- A1, <- C1. auto.
      * destruct F1 as (_ & _ & A1 & C1 & _). rewrite <- C1. split; [exact H1|].
        rewrite A1 in H2. rewrite (without_length server _ Ht). lia.
Qed.

End NoReplacement.

Lemma remove_first_incl x l :
  forall l' y, remove_first x l = Some l' -> In y l' -> In y l.
Proof.
  intros l' y H Hin. eapply Permutation_in.
  - symmetry. exact (remove_first_Permutation x l l' H).
  - now right.
Qed.

Lemma without_incl x l y : In y (without x l) -> In y l.
Proof.
  unfold without. destruct (remove_first x l) as [l'|] eqn:E; [|auto].
  now apply (remove_first_incl x l l').
Qed.

Lemma without_length_le x l : length (without x l) <= length l.
Proof.
  unfold without. destruct (remove_first x l) as [l'|] eqn:E; [|lia].
  rewrite (Permutation_length (remove_first_Permutation x l l' E)). simpl. lia.
Qed.

Lemma without_absent x l : contains x l = false -> without x l = l.
Proof.
  intros H. unfold without. now rewrite (remove_first_absent x l H).
Qed.

Section NeverCreates.

Variable W : World.
Import GenericMCPServerPool.

(** Only [initialize] awaits the factory or adds to the tracked list,
    whatever the arguments of the other calls and however they end. *)
Lemma perform_never_creates c s :
  creates_nothing c = true ->
  factory_calls (perform W c s) = factory_calls s /\
  (forall x, In x (all_servers (perform W c s)) -> In x (all_servers s)) /\
  length (all_servers (perform W c s)) <= length (all_servers s).
Proof.
  intros Hc. destruct c as [| |server h|]; simpl in *; [discriminate| | |].
  - destruct (available s) as [|y rest] eqn:Hs.
    + rewrite (acquire_suspends s Hs). simpl. auto.
    + destruct (acquire_returns s y rest Hs) as (s' & E & _ & _ & A & C & _).
      rewrite E. simpl. rewrite A, C. auto.
  - destruct server as [x|]; [|rewrite release_none; simpl; auto].
    assert (Hd : forall o s', release W (Some x) h s = finish o s' ->
                              discarded x s s' ->
                              factory_calls (state_of (release W (Some x) h s))
                              = factory_calls s /\
                              (forall y,
                                  In y (all_servers
                                          (state_of (release W (Some x) h s))) ->
                                  In y (all_servers s)) /\
                              length (all_servers
                                        (state_of (release W (Some x) h s)))
                              <= length (all_servers s)).
    { intros o s' E (_ & _ & A & C & _). rewrite E.
      destruct o; simpl; rewrite A, C; (split; [reflexivity|]);
        (split; [intros y; apply without_incl|apply without_length_le]). }
    destruct h.
    + destruct (Queue.full (available_servers s)) eqn:Hf.
      * destruct (release_healthy_full_any W x s Hf) as (s' & E & F).
        exact (Hd _ _ E F).
      * destruct (release_healthy_room W x s Hf) as (s' & E & _ & _ & A & C & _).
        rewrite E. simpl. rewrite A, C. auto.
    + destruct (release_unhealthy_any W x s) as (s' & E & F).
      exact (Hd _ _ E F).
  - destruct (generic_shutdown_any W s)
      as (done & rest & s' & _ & H & _ & _ & _ & A & C & _).
    assert (Hs : state_of (shutdown W s) = s').
    { destruct H as [(E & _)|(e & E & _)]; now rewrite E. }
    rewrite Hs, A, C. split; [reflexivity|]. split; [intros x []|simpl; lia].
Qed.

Lemma run_never_creates calls :
  forall s,
    forallb creates_nothing calls = true ->
    factory_calls (run W calls s) = factory_calls s /\
    (forall x, In x (all_servers (run W calls s)) -> In x (all_servers s)) /\
    length (all_servers (run W calls s)) <= length (all_servers s).
Proof.
  induction calls as [|c calls IH]; intros s Hc; simpl in *; [auto|].
  apply andb_prop in Hc. destruct Hc as (Hc & Hcs).
  destruct (perform_never_creates c s Hc) as (C1 & A1 & L1).
  destruct (IH (perform W c s) Hcs) as (C2 & A2 & L2).
  split; [congruence|]. split; [|lia]. intros x Hx. apply A1, A2, Hx.
Qed.

End NeverCreates.

(** * The properties of the specification *)

(** C1 does not hold of the code on every failure.  The [except] block of
    [initialize] first logs the exception it caught, with
    [logger.error(f"...{e}", exc_info=True)], and the logging call formats
    the message again.  With a factory whose second await raises an
    exception whose text is [{boom}], the logging call raises [KeyError],
    and nothing of the clean-up runs: the server made by the first await
    stays in the queue (and, in [MCPServerStdioPool], in the tracked list)
    and its [cleanup()] is never awaited; the caller gets the [KeyError]. *)
Theorem initialize_rollback_is_skipped_when_logging_raises :
  let W := unloggable_factory 1 in
  server_factory W 1 = inr unloggable /\
  made W 0 1 = [10] /\
  (exists s',
      GenericMCPServerPool.initialize W (new_pool 2)
      = Raise (Exc "KeyError" "'boom'") s' /\
      available s' = [10] /\ cleaned s' = []) /\
  (exists s',
      MCPServerStdioPool.initialize W (new_pool 2)
      = Raise (Exc "KeyError" "'boom'") s' /\
      available s' = [10] /\ all_servers s' = [10] /\ cleaned s' = []) /\
  ~ rolled_back (made W 0 1) unloggable (new_pool 2)
      (GenericMCPServerPool.initialize W (new_pool 2)) /\
  ~ rolled_back (made W 0 1) unloggable (new_pool 2)
      (MCPServerStdioPool.initialize W (new_pool 2)).
Proof.
  split; [reflexivity|]. split; [reflexivity|].
  split; [eexists; vm_compute; repeat split|].
  split; [eexists; vm_compute; repeat split|].
  split; intros (s' & E & _); vm_compute in E; discriminate E.
Qed.

(** C2.  For a new pool of size n > 0 whose factory returns on all n
    awaits, [initialize] returns with exactly the n servers made in the
    queue and the same n servers tracked. *)
Theorem initialize_fills_pool (W : World) (n : Z) (s : State) :
  (0 < n)%Z ->
  pool_size s = n ->
  fresh s ->
  succeeds W (factory_calls s) (Z.to_nat n) = true ->
  exists s',
    GenericMCPServerPool.initialize W s = Return tt s' /\
    available s' = made W (factory_calls s) (Z.to_nat n) /\
    all_servers s' = made W (factory_calls s) (Z.to_nat n) /\
    Z.of_nat (length (available s')) = n /\
    Z.of_nat (length (all_servers s')) = n.
Proof.
  intros Hn Hp Hf Hs. subst n. apply succeeds_returns_on in Hs.
  destruct (generic_initialize_returns W s Hs) as (s' & E & (_ & Q & _) & A).
  { apply fresh_room; [exact Hf|lia]. }
  destruct Hf as (_ & Hq & Ha). simpl in Q. rewrite Hq in Q. simpl in Q.
  rewrite Ha in A. simpl in A.
  exists s'. split; [exact E|]. unfold available. rewrite Q, A. simpl.
  rewrite (made_length _ _ _ Hs). repeat split; lia.
Qed.

Lemma initialize_fills_pool_witness :
  exists s',
    GenericMCPServerPool.initialize reliable (new_pool 3) = Return tt s' /\
    available s' = made reliable 0 3 /\
    all_servers s' = made reliable 0 3 /\
    Z.of_nat (length (available s')) = 3%Z /\
    Z.of_nat (length (all_servers s')) = 3%Z.
Proof.
  apply (initialize_fills_pool reliable 3 (new_pool 3)).
  - lia.
  - reflexivity.
  - unfold fresh. simpl. repeat split.
  - reflexivity.
Defined.

(** C3, as the specification states it, fails: the pool keeps no lifecycle
    state, so nothing tells a shut-down pool from an empty one.  On a pool
    of size 2 that was initialized and shut down, [acquire] does not raise
    (it suspends on the empty queue), [release] returns, and [initialize]
    returns. *)
Lemma acquire_after_shutdown_suspends :
  let s := run reliable [Initialize; Shutdown] (new_pool 2) in
  ~ (exists e s', GenericMCPServerPool.acquire s = Raise e s') /\
  (exists s', GenericMCPServerPool.acquire s = Suspend s') /\
  (exists s', GenericMCPServerPool.release reliable (Some 10) true s
              = Return tt s') /\
  (exists s', GenericMCPServerPool.initialize reliable s = Return tt s').
Proof.
  split; [|split; [|split]].
  - intros (e & s' & E). vm_compute in E. discriminate E.
  - eexists. vm_compute. reflexivity.
  - eexists. vm_compute. reflexivity.
  - eexists. vm_compute. reflexivity.
Qed.

(** C3, amended.  Once [shutdown] has returned, the tracked list and the
    queue are empty and the pool behaves as an empty pool, without any
    state error: [acquire] suspends; a healthy [release] returns and queues
    the server; an unhealthy [release] awaits the server's [cleanup()] and
    lets nothing out but what the logging call of a failed cleanup raises;
    and [initialize] awaits the factory again and, when the factory returns
    every time, fills the pool anew. *)
Theorem shutdown_leaves_an_empty_pool (W : World) (s s1 : State) :
  GenericMCPServerPool.shutdown W s = Return tt s1 ->
  all_servers s1 = [] /\
  available s1 = [] /\
  (exists s2, GenericMCPServerPool.acquire s1 = Suspend s2) /\
  (forall server,
      exists s2,
        GenericMCPServerPool.release W (Some server) true s1 = Return tt s2 /\
        available s2 = [server] /\ cleaned s2 = cleaned s1) /\
  (forall server,
      exists s2,
        GenericMCPServerPool.release W (Some server) false s1
        = finish (escapes W server s1) s2 /\
        cleaned s2 = cleaned s1 ++ [server]) /\
  (succeeds W (factory_calls s1) (Z.to_nat (pool_size s1)) = true ->
   exists s2,
     GenericMCPServerPool.initialize W s1 = Return tt s2 /\
     available s2 = made W (factory_calls s1) (Z.to_nat (pool_size s1)) /\
     all_servers s2 = made W (factory_calls s1) (Z.to_nat (pool_size s1))).
Proof.
  intros E.
  destruct (generic_shutdown_any W s)
    as (done & rest & s' & _ & [(E' & _ & Hq)|(e & E' & _)] & P & _ & Hav & A & _);
    [|congruence].
  assert (s' = s1) by congruence. subst s'.
  split; [exact A|]. split; [exact Hav|]. split; [|split; [|split]].
  - eexists. apply acquire_suspends. exact Hav.
  - intros server.
    destruct (release_healthy_room W server s1) as (s2 & E2 & _ & Q2 & _ & _ & D2).
    { rewrite Hq. unfold Queue.full, Queue.qsize. simpl.
      destruct (pool_size s <=? 0)%Z; reflexivity. }
    exists s2. split; [exact E2|]. unfold available. rewrite Q2, Hq.
    split; [reflexivity|exact D2].
  - intros server.
    destruct (release_unhealthy_any W server s1)
      as (s2 & E2 & _ & _ & _ & _ & D2).
    exists s2. split; [exact E2|exact D2].
  - intros Hs. apply succeeds_returns_on in Hs.
    destruct (generic_initialize_returns W s1 Hs) as (s2 & E2 & (_ & Q2 & _) & A2).
    { rewrite Hq, P. unfold room_for, Queue.qsize. simpl. lia. }
    exists s2. split; [exact E2|]. unfold available.
    simpl in Q2. rewrite Q2, A2, A, Hq. simpl. auto.
Qed.

(** A pool of two servers that was initialized and shut down, in a world
    where the [cleanup()] of server [10] raises. *)
Lemma shutdown_leaves_an_empty_pool_witness :
  let s := run reliable [Initialize] (new_pool 2) in
  let s1 := state_of (GenericMCPServerPool.shutdown (flaky 5) s) in
  all_servers s1 = [] /\
  available s1 = [] /\
  (exists s2, GenericMCPServerPool.acquire s1 = Suspend s2) /\
  (forall server,
      exists s2,
        GenericMCPServerPool.release (flaky 5) (Some server) true s1
        = Return tt s2 /\
        available s2 = [server] /\ cleaned s2 = cleaned s1) /\
  (forall server,
      exists s2,
        GenericMCPServerPool.release (flaky 5) (Some server) false s1
        = finish (escapes (flaky 5) server s1) s2 /\
        cleaned s2 = cleaned s1 ++ [server]) /\
  (succeeds (flaky 5) (factory_calls s1) (Z.to_nat (pool_size s1)) = true ->
   exists s2,
     GenericMCPServerPool.initialize (flaky 5) s1 = Return tt s2 /\
     available s2 = made (flaky 5) (factory_calls s1) (Z.to_nat (pool_size s1)) /\
     all_servers s2
     = made (flaky 5) (factory_calls s1) (Z.to_nat (pool_size s1))).
Proof.
  intros s s1.
  apply (shutdown_leaves_an_empty_pool (flaky 5) s s1).
  vm_compute. reflexivity.
Defined.

(** C4 does not hold of the code on every cleanup failure.  In the loop of
    [shutdown] the [except] block logs the exception of a failed
    [cleanup()] with [logger.error(f"...{e}", exc_info=True)].  When the
    [cleanup()] of the first of two tracked servers raises an exception
    whose text is [{boom}], the logging call raises [KeyError] and
    [shutdown] ends there: the second server never has [cleanup()]
    awaited.  [GenericMCPServerPool] has forgotten both servers by then;
    [MCPServerStdioPool] still tracks both. *)
Theorem shutdown_stops_at_a_failure_it_cannot_log :
  let W := unloggable_cleanup in
  let s := run reliable [Initialize] (new_pool 2) in
  all_servers s = [10; 11] /\
  cleanup_outcome W 10 0 = Some unloggable /\
  (exists s',
      GenericMCPServerPool.shutdown W s = Raise (Exc "KeyError" "'boom'") s' /\
      cleaned s' = [10] /\ all_servers s' = [] /\ available s' = []) /\
  (exists s',
      MCPServerStdioPool.shutdown W s = Raise (Exc "KeyError" "'boom'") s' /\
      cleaned s' = [10] /\ all_servers s' = [10; 11] /\ available s' = []) /\
  ~ disposes_tracked_once s (GenericMCPServerPool.shutdown W s) /\
  ~ disposes_tracked_once s (MCPServerStdioPool.shutdown W s).
Proof.
  split; [reflexivity|]. split; [reflexivity|].
  split; [eexists; vm_compute; repeat split|].
  split; [eexists; vm_compute; repeat split|].
  split; intros (s' & disposed & E & _); vm_compute in E; discriminate E.
Qed.




(** C6, as the specification states it, fails: no initialization-error type
    exists in the code.  With a factory whose second await raises
    [RuntimeError], what [initialize] raises is not an exception of class
    [PoolInitializationError] that wraps it. *)
Lemma factory_error_is_not_wrapped :
  server_factory (flaky 1) 1 = inr spawn_failed /\
  ~ (exists raised s',
        GenericMCPServerPool.initialize (flaky 1) (new_pool 2) = Raise raised s' /\
        exn_class raised = "PoolInitializationError"%string /\
        exn_cause raised = Some spawn_failed).
Proof.
  split; [reflexivity|].
  intros (raised & s' & E & Hc & _). vm_compute in E.
  injection E as <- _. discriminate Hc.
Qed.

(** C6, amended.  When the factory raises during [initialize] on a new
    pool and the [except] block runs to its end (the logging calls in it
    return), the exception the caller gets is the factory's own, raised
    again as it is ([raise] with no argument), not wrapped in another
    one. *)
Theorem initialize_reraises_factory_error
    (W : World) (s : State) (k : nat) (e : exn) :
  fresh s ->
  1 <= k <= Z.to_nat (pool_size s) ->
  succeeds W (factory_calls s) (k - 1) = true ->
  server_factory W (factory_calls s + (k - 1)) = inr e ->
  loggable W e ->
  quiet_cleanups W ->
  exists s', GenericMCPServerPool.initialize W s = Raise e s'.
Proof.
  intros Hf Hk Hs He Hlog Hq. apply succeeds_returns_on in Hs.
  assert (Hn : Z.to_nat (pool_size s) = (k - 1) + S (Z.to_nat (pool_size s) - k))
    by lia.
  destruct (generic_initialize_raises W s _ _ e Hq Hlog Hn Hs He) as (s' & E & _).
  { apply fresh_room; [exact Hf|lia]. }
  exists s'. exact E.
Qed.

Lemma initialize_reraises_factory_error_witness :
  exists s', GenericMCPServerPool.initialize (flaky 1) (new_pool 2)
             = Raise spawn_failed s'.
Proof.
  apply (initialize_reraises_factory_error (flaky 1) (new_pool 2) 2 spawn_failed).
  - unfold fresh. simpl. repeat split.
  - simpl. lia.
  - reflexivity.
  - reflexivity.
  - reflexivity.
  - intros srv n e H. simpl in H.
    destruct (Nat.eqb srv 10); [injection H as <-; reflexivity|discriminate H].
Defined.

(** C7, as the specification states it, fails: [acquire] hands out whatever
    is in the queue, and a healthy [release] queues any server without
    looking it up.  On a pool of size 2, [10] is taken, a server [99] that
    the pool never made is given back as healthy, and two more calls of
    [acquire] follow: the second returns [99].  Released as unhealthy, [99]
    has [cleanup()] awaited, but it is not in the tracked list, which keeps
    its two servers. *)
Lemma untracked_server_from_acquire_leaves_tracked_unchanged :
  let s := run reliable [Initialize; Acquire; Release (Some 99) true; Acquire]
             (new_pool 2) in
  exists s1 s2,
    GenericMCPServerPool.acquire s = Return 99 s1 /\
    GenericMCPServerPool.release reliable (Some 99) false s1 = Return tt s2 /\
    cleaned s2 = [99] /\
    all_servers s1 = [10; 11] /\
    all_servers s2 = [10; 11] /\
    ~ (S (length (all_servers s2)) = length (all_servers s1)).
Proof.
  do 2 eexists. split; [vm_compute; reflexivity|].
  split; [vm_compute; reflexivity|].
  vm_compute. repeat split. discriminate.
Qed.

(** C7, amended.  For every server, so for every one obtained from
    [acquire], and in every state of the pool,
    [release(server, is_healthy=False)] awaits the server's [cleanup()]
    once, leaves the queue as it is and does not await the factory; it
    lets nothing out but what the logging call of a failed cleanup raises.
    A tracked server is dropped from the tracked list, which gets one
    shorter; for a server that is not tracked the list stays as it is.
    The pool makes no replacement: whatever calls of [acquire], [release]
    and [shutdown] follow, the factory is not awaited and no server is
    added to the tracked list. *)
Theorem unhealthy_release_shrinks_pool
    (W : World) (s : State) (server : Server) :
  exists s',
    GenericMCPServerPool.release W (Some server) false s
    = finish (escapes W server s) s' /\
    cleaned s' = cleaned s ++ [server] /\
    available_servers s' = available_servers s /\
    factory_calls s' = factory_calls s /\
    all_servers s' = without server (all_servers s) /\
    (contains server (all_servers s) = true ->
     S (length (all_servers s')) = length (all_servers s)) /\
    (contains server (all_servers s) = false ->
     all_servers s' = all_servers s) /\
    (forall calls,
        forallb creates_nothing calls = true ->
        factory_calls (run W calls s') = factory_calls s /\
        (forall x, In x (all_servers (run W calls s')) ->
                   In x (all_servers s')) /\
        length (all_servers (run W calls s')) <= length (all_servers s')).
Proof.
  destruct (release_unhealthy_any W server s) as (s' & E & _ & Q & A & C & D).
  exists s'. split; [exact E|]. split; [exact D|]. split; [exact Q|].
  split; [exact C|]. split; [exact A|]. split; [|split].
  - intros Hc. apply contains_In in Hc. rewrite A. symmetry.
    now apply without_length.
  - intros Hc. rewrite A. now apply without_absent.
  - intros calls Hcalls.
    destruct (run_never_creates W calls s' Hcalls) as (C' & A' & L').
    split; [congruence|]. split; [exact A'|exact L'].
Qed.

(** C8 does not hold of the code for every argument.  [release] catches the
    exception of a failed [cleanup()] and logs it with
    [logger.error(f"...{e}", exc_info=True)]; when the text of the
    exception is [{boom}], the logging call raises [KeyError] inside the
    [except] block, and after the [finally] block has dropped the server
    the [KeyError] reaches the caller.  This happens on the unhealthy
    branch and on the healthy branch with a full queue. *)
Theorem release_raises_when_it_cannot_log :
  let W := unloggable_cleanup in
  let lent := run reliable [Initialize; Acquire] (new_pool 2) in
  let full := run reliable [Initialize] (new_pool 2) in
  cleanup_outcome W 10 0 = Some unloggable /\
  (exists s',
      GenericMCPServerPool.release W (Some 10) false lent
      = Raise (Exc "KeyError" "'boom'") s' /\
      cleaned s' = [10] /\ all_servers s' = [11]) /\
  (exists s',
      GenericMCPServerPool.release W (Some 10) true full
      = Raise (Exc "KeyError" "'boom'") s' /\
      cleaned s' = [10] /\ all_servers s' = [11] /\ available s' = [10; 11]) /\
  ~ (exists s', GenericMCPServerPool.release W (Some 10) false lent
                = Return tt s').
Proof.
  split; [reflexivity|].
  split; [eexists; vm_compute; repeat split|].
  split; [eexists; vm_compute; repeat split|].
  intros (s' & E). vm_compute in E. discriminate E.
Qed.

(** C9.  In a pool with a server available, [acquire] followed at once by
    [release] of that server as healthy leaves as many servers available as
    before, and the tracked list is the same before, between and after. *)
Theorem acquire_release_round_trip (W : World) (s : State) :
  pool_ok s ->
  Queue.empty (available_servers s) = false ->
  exists server s1 s2,
    GenericMCPServerPool.acquire s = Return server s1 /\
    GenericMCPServerPool.release W (Some server) true s1 = Return tt s2 /\
    length (available s2) = length (available s) /\
    all_servers s1 = all_servers s /\
    all_servers s2 = all_servers s.
Proof.
  intros (Hp & Hm & Hq) He.
  destruct (available s) as [|x rest] eqn:Hs.
  { unfold available in Hs. unfold Queue.empty in He. rewrite Hs in He.
    discriminate. }
  destruct (acquire_returns s x rest Hs) as (s1 & E1 & P1 & Q1 & A1 & _).
  destruct (release_healthy_room W x s1) as (s2 & E2 & _ & Q2 & A2 & _).
  { unfold Queue.full, Queue.qsize. rewrite Q1. simpl. rewrite Hm.
    unfold Queue.qsize in Hq. unfold available in Hs. rewrite Hs in Hq.
    simpl length in Hq.
    destruct (Z.leb_spec (pool_size s) 0); [reflexivity|].
    apply Z.leb_gt. lia. }
  exists x, s1, s2. split; [exact E1|]. split; [exact E2|].
  split; [|split; [exact A1|congruence]].
  unfold available. rewrite Q2, Q1. simpl. rewrite length_app. simpl. lia.
Qed.

Lemma acquire_release_round_trip_witness :
  let s := run reliable [Initialize; Acquire] (new_pool 3) in
  exists server s1 s2,
    GenericMCPServerPool.acquire s = Return server s1 /\
    GenericMCPServerPool.release (flaky 0) (Some server) true s1 = Return tt s2 /\
    length (available s2) = length (available s) /\
    all_servers s1 = all_servers s /\
    all_servers s2 = all_servers s.
Proof.
  apply (acquire_release_round_trip (flaky 0)
           (run reliable [Initialize; Acquire] (new_pool 3))).
  - unfold pool_ok. vm_compute. repeat split; discriminate.
  - reflexivity.
Defined.

(** C10.  [release(server, is_healthy=True)] never looks the server up in
    the tracked list before queueing it: for any server at all, tracked or
    not, held or not, if the queue has fewer items than the pool size the
    call returns, the server is appended to the queue, the tracked list is
    unchanged and no [cleanup()] is awaited.  [cleanup()] is awaited by a
    healthy release only when the queue is already full (and only then can
    the call let out what the logging call of a failed cleanup raises). *)
Theorem healthy_release_checks_no_membership
    (W : World) (s : State) (server : Server) :
  pool_ok s ->
  exists s',
    GenericMCPServerPool.release W (Some server) true s
    = (if Queue.full (available_servers s)
       then finish (escapes W server s) s'
       else Return tt s') /\
    ((Queue.qsize (available_servers s) < pool_size s)%Z ->
     GenericMCPServerPool.release W (Some server) true s = Return tt s' /\
     available s' = available s ++ [server] /\
     all_servers s' = all_servers s /\
     cleaned s' = cleaned s) /\
    (cleaned s' <> cleaned s ->
     Queue.qsize (available_servers s) = pool_size s).
Proof.
  intros (Hp & Hm & Hq).
  destruct (Queue.full (available_servers s)) eqn:Hfull.
  - destruct (release_healthy_full_any W server s Hfull) as (s' & E & _).
    exists s'. split; [exact E|].
    unfold Queue.full in Hfull. rewrite Hm in Hfull.
    destruct (Z.leb_spec (pool_size s) 0); [discriminate|].
    apply Z.leb_le in Hfull. split; [lia|]. intros _. lia.
  - destruct (release_healthy_room W server s Hfull) as (s' & E & _ & Q & A & _ & D).
    exists s'. split; [exact E|]. split.
    + intros _. unfold available. rewrite Q. auto.
    + intros Hne. contradiction.
Qed.

(** A server, [99], that the pool never made is released as healthy while
    one of the pool's two servers is lent out. *)
Lemma healthy_release_checks_no_membership_witness :
  let s := run reliable [Initialize; Acquire] (new_pool 2) in
  exists s',
    GenericMCPServerPool.release reliable (Some 99) true s
    = (if Queue.full (available_servers s)
       then finish (escapes reliable 99 s) s'
       else Return tt s') /\
    ((Queue.qsize (available_servers s) < pool_size s)%Z ->
     GenericMCPServerPool.release reliable (Some 99) true s = Return tt s' /\
     available s' = available s ++ [99] /\
     all_servers s' = all_servers s /\
     cleaned s' = cleaned s) /\
    (cleaned s' <> cleaned s ->
     Queue.qsize (available_servers s) = pool_size s).
Proof.
  apply (healthy_release_checks_no_membership reliable
           (run reliable [Initialize; Acquire] (new_pool 2)) 99).
  unfold pool_ok. vm_compute. repeat split; discriminate.
Defined.


(** * Further properties of the pools *)

Lemma to_shut_down_tracked_only items :
  forall tracked,
    (forall x, In x items -> In x tracked) ->
    to_shut_down tracked items = tracked.
Proof.
  induction items as [|y rest IH]; intros tracked H; simpl; [reflexivity|].
  assert (Hy : contains y tracked = true)
    by (apply contains_In; apply H; now left).
  rewrite Hy. apply IH. intros x Hx. apply H. now right.
Qed.

Lemma to_shut_down_collects items :
  forall tracked x, In x items -> In x (to_shut_down tracked items).
Proof.
  induction items as [|y rest IH]; intros tracked x Hin; [contradiction|].
  destruct Hin as [<-|Hin]; simpl.
  - apply to_shut_down_keeps. destruct (contains y tracked) eqn:E.
    + now apply contains_In.
    + apply in_or_app. right. now left.
  - now apply IH.
Qed.

Lemma made_until_failure W j m :
  forall c e,
    returns_on W c j -> server_factory W (c + j) = inr e ->
    made W c (j + S m) = made W c j.
Proof.
  induction j as [|j IH]; intros c e Hs He; simpl.
  - rewrite Nat.add_0_r in He. now rewrite He.
  - apply returns_on_S in Hs. destruct Hs as ((srv & E) & Hs). rewrite E.
    f_equal. apply (IH (S c) e Hs). rewrite <- He. f_equal. lia.
Qed.

Lemma acquire_all_takes k :
  forall s,
    k <= length (available s) ->
    exists s',
      acquire_all k s = Return (firstn k (available s)) s' /\
      pool_size s' = pool_size s /\
      available_servers s' =
        Queue.mk (Queue.maxsize (available_servers s)) (skipn k (available s)) /\
      all_servers s' = all_servers s /\
      factory_calls s' = factory_calls s /\
      cleaned s' = cleaned s.
Proof.
  induction k as [|k IH]; intros s Hk.
  - simpl. exists s. split; [reflexivity|]. unfold available.
    destruct (available_servers s). simpl. auto.
  - destruct (available s) as [|x rest] eqn:Hs; [simpl in Hk; lia|].
    destruct (acquire_returns s x rest Hs) as (s1 & E1 & P1 & Q1 & A1 & C1 & D1).
    assert (Hs1 : available s1 = rest) by (unfold available; now rewrite Q1).
    destruct (IH s1) as (s2 & E2 & P2 & Q2 & A2 & C2 & D2).
    { rewrite Hs1. simpl in Hk. lia. }
    exists s2. split.
    + cbn [acquire_all]. rewrite (bind_Return _ _ _ _ _ E1).
      rewrite (bind_Return _ _ _ _ _ E2). unfold ret. rewrite Hs1. reflexivity.
    + rewrite P2, Q2, A2, C2, D2, Hs1, Q1. simpl. auto.
Qed.

(** X1.  After a successful [initialize] of a new pool, [pool_size] calls of
    [acquire] in a row return the servers in the order the factory made
    them, keeping all of them tracked, and the next [acquire] suspends. *)
Theorem servers_are_lent_in_creation_order (W : World) (s : State) :
  fresh s ->
  succeeds W (factory_calls s) (Z.to_nat (pool_size s)) = true ->
  exists s1 s2 s3,
    GenericMCPServerPool.initialize W s = Return tt s1 /\
    acquire_all (Z.to_nat (pool_size s)) s1
    = Return (made W (factory_calls s) (Z.to_nat (pool_size s))) s2 /\
    available s2 = [] /\
    all_servers s2 = made W (factory_calls s) (Z.to_nat (pool_size s)) /\
    GenericMCPServerPool.acquire s2 = Suspend s3.
Proof.
  intros Hf Hs. apply succeeds_returns_on in Hs.
  destruct (generic_initialize_returns W s Hs) as (s1 & E1 & (_ & Q1 & _) & A1).
  { apply fresh_room; [exact Hf|lia]. }
  destruct Hf as (_ & Hq & Ha). simpl in Q1. rewrite Hq in Q1. simpl in Q1.
  rewrite Ha in A1. simpl in A1.
  assert (Hlen : length (made W (factory_calls s) (Z.to_nat (pool_size s)))
                 = Z.to_nat (pool_size s)) by (apply made_length; exact Hs).
  remember (made W (factory_calls s) (Z.to_nat (pool_size s))) as l eqn:Hl.
  assert (Hav : available s1 = l) by (unfold available; now rewrite Q1).
  destruct (acquire_all_takes (length l) s1) as (s2 & E2 & _ & Q2 & A2 & _).
  { rewrite Hav. lia. }
  rewrite Hav, firstn_all in E2. rewrite Hav, skipn_all in Q2.
  rewrite Hlen in E2.
  assert (Hav2 : available s2 = []) by (unfold available; now rewrite Q2).
  exists s1, s2, (set_logs (logs s2 ++ [DEBUG]) s2).
  split; [exact E1|]. split; [exact E2|]. split; [exact Hav2|].
  split; [congruence|]. now apply acquire_suspends.
Qed.

Lemma servers_are_lent_in_creation_order_witness :
  exists s1 s2 s3,
    GenericMCPServerPool.initialize reliable (new_pool 3) = Return tt s1 /\
    acquire_all 3 s1 = Return (made reliable 0 3) s2 /\
    available s2 = [] /\
    all_servers s2 = made reliable 0 3 /\
    GenericMCPServerPool.acquire s2 = Suspend s3.
Proof.
  apply (servers_are_lent_in_creation_order reliable (new_pool 3)).
  - unfold fresh. simpl. repeat split.
  - reflexivity.
Defined.

Section FurtherInitialize.

Variable W : World.

Lemma create_server_queue_full i created s srv :
  server_factory W (factory_calls s) = inl srv ->
  Queue.full (available_servers s) = true ->
  exists s',
    GenericMCPServerPool.create_server W i (created, s)
    = Raise QueueFull (created ++ [srv], s') /\
    only_created [] s (set_factory_calls (factory_calls s) s').
Proof.
  intros Hf Hq.
  unfold GenericMCPServerPool.create_server, bind, lift, call_factory, put_nowait.
  simpl. rewrite Hf. simpl. rewrite Hq. simpl.
  eexists. split; [reflexivity|].
  unfold only_created. simpl. rewrite app_nil_r.
  destruct (available_servers s). simpl. repeat split. lia.
Qed.

Lemma stdio_initialize_returns s :
  returns_on W (factory_calls s) (Z.to_nat (pool_size s)) ->
  room_for (Z.to_nat (pool_size s)) (available_servers s) ->
  exists s',
    MCPServerStdioPool.initialize W s = Return tt s' /\
    created_and_tracked (made W (factory_calls s) (Z.to_nat (pool_size s))) s s'.
Proof.
  intros Hs Hr.
  set (s0 := set_logs (logs s ++ [INFO]) s).
  destruct (stdio_create_servers_return W (Z.to_nat (pool_size s)) 0 s0 Hs Hr)
    as (s1 & E1 & (P1 & Q1 & _ & C1 & D1) & A1).
  unfold MCPServerStdioPool.initialize, range.
  unfold bind at 1. unfold log at 1, modify. fold s0.
  unfold bind at 1. unfold gets at 1. simpl.
  unfold bind at 1. rewrite E1. unfold log, modify.
  eexists. split; [reflexivity|].
  unfold created_and_tracked, only_created. simpl in *.
  rewrite P1, Q1, C1, D1, A1. repeat split.
Qed.

End FurtherInitialize.

(** X2.  In a world where the logging calls of the [except] blocks can
    format every exception the factory and the cleanups raise,
    [initialize] called on a pool whose queue is already full (a new pool
    that was initialized and not used since, for one) never succeeds: it
    awaits the factory once, raises [QueueFull] when the factory returned
    (the factory's exception otherwise), and its clean-up empties the queue
    and the tracked list.  [cleanup()] is awaited on the one new server
    only: the servers the pool held are forgotten without it. *)
Theorem initialize_on_full_queue_forgets_servers (W : World) (s : State) :
  quiet_cleanups W ->
  quiet_factory W ->
  pool_ok s ->
  Queue.full (available_servers s) = true ->
  exists e s',
    GenericMCPServerPool.initialize W s = Raise e s' /\
    e = match server_factory W (factory_calls s) with
        | inl _ => QueueFull
        | inr e' => e'
        end /\
    cleaned s' = cleaned s ++ made W (factory_calls s) 1 /\
    all_servers s' = [] /\
    available s' = [].
Proof.
  intros Hq Hqf (Hp & _) Hfull.
  set (s0 := set_logs (logs s ++ [INFO]) s).
  destruct (Z.to_nat (pool_size s)) as [|m] eqn:Hn; [lia|].
  assert (Hloop : exists e created s1,
             for_each (seq 0 (S m)) (GenericMCPServerPool.create_server W) ([], s0)
             = Raise e (created, s1) /\
             e = match server_factory W (factory_calls s) with
                 | inl _ => QueueFull
                 | inr e' => e'
                 end /\
             loggable W e /\
             created = made W (factory_calls s) 1 /\
             cleaned s1 = cleaned s /\
             available_servers s1 = available_servers s).
  { simpl. destruct (server_factory W (factory_calls s)) as [srv|e'] eqn:Hf.
    - destruct (create_server_queue_full W 0 [] s0 srv Hf Hfull)
        as (s1 & E1 & _ & Q1 & _ & _ & D1).
      exists QueueFull, [srv], s1. rewrite (bind_Raise _ _ _ _ _ E1).
      simpl in Q1, D1. rewrite app_nil_r in Q1.
      repeat split; [exact D1|]. rewrite Q1. now destruct (available_servers s).
    - destruct (create_server_raises W 0 [] s0 e' Hf)
        as (s1 & E1 & _ & Q1 & _ & _ & D1).
      exists e', [], s1. rewrite (bind_Raise _ _ _ _ _ E1).
      simpl in Q1, D1. rewrite app_nil_r in Q1.
      split; [reflexivity|]. split; [reflexivity|].
      split; [exact (Hqf _ _ Hf)|].
      repeat split; [exact D1|]. rewrite Q1. now destruct (available_servers s). }
  destruct Hloop as (e & created & s1 & E1 & He & Hlog & Hc & D1 & Q1).
  destruct (roll_back_raises W e created s1 Hq Hlog)
    as (s2 & E2 & _ & Q2 & A2 & _ & D2).
  exists e, s2. split.
  - unfold GenericMCPServerPool.initialize, with_locals, try_except, range.
    unfold bind at 1. unfold log at 1, modify. fold s0.
    unfold bind at 1. unfold lift at 1, gets. simpl fst. simpl snd.
    cbv beta iota. change (pool_size s0) with (pool_size s). rewrite Hn.
    unfold bind at 1. rewrite E1. unfold Exception. rewrite E2. reflexivity.
  - split; [exact He|]. split; [congruence|]. split; [exact A2|].
    unfold available. now rewrite Q2.
Qed.

Lemma initialize_on_full_queue_forgets_servers_witness :
  let s := run reliable [Initialize] (new_pool 2) in
  exists e s',
    GenericMCPServerPool.initialize reliable s = Raise e s' /\
    e = match server_factory reliable (factory_calls s) with
        | inl _ => QueueFull
        | inr e' => e'
        end /\
    cleaned s' = cleaned s ++ made reliable (factory_calls s) 1 /\
    all_servers s' = [] /\
    available s' = [].
Proof.
  intros s.
  apply (initialize_on_full_queue_forgets_servers reliable s).
  - unfold quiet_cleanups. quiet_world.
  - unfold quiet_factory. quiet_world.
  - unfold pool_ok. vm_compute. repeat split; discriminate.
  - reflexivity.
Defined.

(** X3.  In a world where the logging calls of the [except] blocks can
    format every exception the factory and the cleanups raise, starting a
    new pool and shutting it down, with no use in between, awaits
    [cleanup()] exactly on the servers the factory returned, once each,
    whether [initialize] succeeded or failed part-way (a failed attempt is
    cleaned up by [initialize], and [shutdown] then finds nothing to
    clean), and leaves the pool empty.  This holds for both pools, also
    when single cleanups raise. *)
Theorem start_and_stop_cleans_what_was_made (W : World) (s : State) :
  quiet_cleanups W ->
  quiet_factory W ->
  fresh s ->
  let created := made W (factory_calls s) (Z.to_nat (pool_size s)) in
  (exists s',
      GenericMCPServerPool.shutdown W
        (state_of (GenericMCPServerPool.initialize W s)) = Return tt s' /\
      cleaned s' = cleaned s ++ created /\
      all_servers s' = [] /\ available s' = []) /\
  (exists s',
      MCPServerStdioPool.shutdown W
        (state_of (MCPServerStdioPool.initialize W s)) = Return tt s' /\
      cleaned s' = cleaned s ++ created /\
      all_servers s' = [] /\ available s' = []).
Proof.
  intros Hquiet Hqf Hf created. subst created.
  pose proof Hf as (Hp & Hq & Ha).
  destruct (returns_or_raises W (factory_calls s) (Z.to_nat (pool_size s)))
    as [Hs|(j & m & e & Hn & Hs & He)].
  - assert (Hr : room_for (Z.to_nat (pool_size s)) (available_servers s))
      by (apply fresh_room; [exact Hf|lia]).
    split.
    + destruct (generic_initialize_returns W s Hs Hr) as (s1 & E1 & (_ & Q1 & _ & _ & D1) & A1).
      rewrite E1. simpl state_of.
      destruct (generic_shutdown_returns W s1 Hquiet) as (s2 & E2 & _ & Q2 & A2 & _ & D2).
      exists s2. split; [exact E2|]. split; [|split; [exact A2|]].
      * simpl in Q1, D1. rewrite D2, D1. f_equal. unfold available.
        rewrite Q1, A1, Hq, Ha. simpl.
        apply to_shut_down_tracked_only. auto.
      * unfold available. now rewrite Q2.
    + destruct (stdio_initialize_returns W s Hs Hr) as (s1 & E1 & (_ & Q1 & _ & _ & D1) & A1).
      rewrite E1. simpl state_of.
      destruct (stdio_shutdown_returns W s1 Hquiet) as (s2 & E2 & _ & Q2 & A2 & _ & D2).
      exists s2. split; [exact E2|]. split; [|split; [exact A2|]].
      * simpl in Q1, D1. rewrite D2, D1. f_equal. unfold available.
        rewrite Q1, A1, Hq, Ha. simpl.
        apply to_shut_down_tracked_only. auto.
      * unfold available. now rewrite Q2.
  - assert (Hr : room_for j (available_servers s))
      by (apply fresh_room; [exact Hf|lia]).
    rewrite Hn, (made_until_failure W j m _ e Hs He).
    split.
    + destruct (generic_initialize_raises W s j m e Hquiet (Hqf _ _ He) Hn Hs He Hr)
        as (s1 & E1 & _ & Q1 & A1 & D1).
      rewrite E1. simpl state_of.
      destruct (generic_shutdown_returns W s1 Hquiet) as (s2 & E2 & _ & Q2 & A2 & _ & D2).
      exists s2. split; [exact E2|]. split; [|split; [exact A2|]].
      * rewrite D2, D1. unfold available. rewrite Q1, A1. simpl.
        now rewrite app_nil_r.
      * unfold available. now rewrite Q2.
    + destruct (stdio_initialize_raises W s j m e Hquiet (Hqf _ _ He) Hn Hs He Hr)
        as (s1 & E1 & _ & Q1 & A1 & D1).
      rewrite E1. simpl state_of.
      destruct (stdio_shutdown_returns W s1 Hquiet) as (s2 & E2 & _ & Q2 & A2 & _ & D2).
      exists s2. split; [exact E2|]. split; [|split; [exact A2|]].
      * rewrite D2, D1. unfold available. rewrite Q1, A1, Ha. simpl.
        now rewrite app_nil_r.
      * unfold available. now rewrite Q2.
Qed.

(** A pool of size 3 whose third factory await raises. *)
Lemma start_and_stop_cleans_what_was_made_witness :
  let created := made (flaky 2) 0 3 in
  (exists s',
      GenericMCPServerPool.shutdown (flaky 2)
        (state_of (GenericMCPServerPool.initialize (flaky 2) (new_pool 3)))
      = Return tt s' /\
      cleaned s' = [] ++ created /\
      all_servers s' = [] /\ available s' = []) /\
  (exists s',
      MCPServerStdioPool.shutdown (flaky 2)
        (state_of (MCPServerStdioPool.initialize (flaky 2) (new_pool 3)))
      = Return tt s' /\
      cleaned s' = [] ++ created /\
      all_servers s' = [] /\ available s' = []).
Proof.
  apply (start_and_stop_cleans_what_was_made (flaky 2) (new_pool 3)).
  - unfold quiet_cleanups. quiet_world.
  - unfold quiet_factory. quiet_world.
  - unfold fresh. simpl. repeat split.
Defined.

Section Lifetime.

Variable W : World.
Import GenericMCPServerPool.

(** While consumers keep to the contract, the servers cleaned up so far
    and the ones still tracked are, together, the ones tracked at the
    start. *)
Lemma serve_cleans_what_it_drops requests :
  forall s lent s' lent',
    accounted s lent -> serve W requests s lent = Some (s', lent') ->
    exists dropped,
      cleaned s' = cleaned s ++ dropped /\
      Permutation (dropped ++ all_servers s') (all_servers s).
Proof.
  induction requests as [|r requests IH]; intros s lent s' lent' Hacc E;
    cbn [serve] in E.
  - injection E as <- <-. exists []. rewrite app_nil_r. auto.
  - destruct r as [|server h].
    + destruct (acquire s) as [x s1| | |] eqn:Ea; try discriminate.
      destruct (borrow_accounted s lent x s1 Hacc Ea) as (Hacc1 & _ & A1).
      destruct (IH s1 (x :: lent) s' lent' Hacc1 E) as (d & D & Hperm).
      assert (D1 : cleaned s1 = cleaned s).
      { destruct (available s) as [|y rest] eqn:Hs.
        - rewrite (acquire_suspends s Hs) in Ea. discriminate.
        - destruct (acquire_returns s y rest Hs) as (s2 & E2 & _ & _ & _ & _ & D2).
          congruence. }
      exists d. rewrite <- D1, <- A1. auto.
    + destruct (contains server lent) eqn:Hc; [|discriminate].
      apply contains_In in Hc.
      destruct (give_back_accounted W s lent server h Hacc Hc)
        as (s1 & E1 & Hacc1 & _ & F1).
      rewrite E1 in E.
      destruct (if h then None else escapes W server s) as [e0|];
        cbn [finish] in E; [discriminate E|].
      destruct (IH s1 (without server lent) s' lent' Hacc1 E) as (d & D & Hperm).
      destruct (accounted_room s lent server Hacc Hc) as (_ & Ht).
      destruct h.
      * destruct F1 as (_ & _ & A1 & _ & D1). exists d.
        rewrite <- D1, <- A1. auto.
      * destruct F1 as (_ & _ & A1 & _ & D1). exists (server :: d).
        rewrite D, D1, <- app_assoc. split; [reflexivity|].
        simpl. rewrite Hperm, A1. symmetry.
        now apply without_Permutation.
Qed.

End Lifetime.

(** X4.  In a world where the logging calls can format every exception a
    cleanup raises: over the life of a pool that is initialized with
    success, used by consumers that keep to the contract (every call of
    theirs returned), and shut down, [cleanup()] is awaited exactly once on
    every server the factory made, by an unhealthy release or by
    [shutdown], never twice and never on another server: the servers
    cleaned up are a rearrangement of the servers made.  Servers still lent
    out at [shutdown] are among them. *)
Theorem every_server_is_cleaned_up_once
    (W : World) (s0 s1 : State) (requests : list request) (s : State)
    (lent : list Server) :
  quiet_cleanups W ->
  fresh s0 ->
  GenericMCPServerPool.initialize W s0 = Return tt s1 ->
  serve W requests s1 [] = Some (s, lent) ->
  exists s' disposed,
    GenericMCPServerPool.shutdown W s = Return tt s' /\
    cleaned s' = cleaned s0 ++ disposed /\
    Permutation disposed (made W (factory_calls s0) (Z.to_nat (pool_size s0))) /\
    all_servers s' = [] /\
    available s' = [].
Proof.
  intros Hquiet Hf E1 E.
  pose proof (initialize_returned W s0 s1 Hf E1) as Hs.
  destruct (generic_initialize_returns W s0 Hs) as (s1' & E1' & (_ & _ & _ & _ & D1) & A1).
  { apply fresh_room; [exact Hf|lia]. }
  assert (s1' = s1) by congruence. subst s1'.
  destruct (initialize_accounted W s0 s1 Hf E1) as (Hacc1 & _).
  destruct (serve_accounted W requests s1 [] s lent Hacc1 E) as ((Hperm & _) & _ & _).
  destruct (serve_cleans_what_it_drops W requests s1 [] s lent Hacc1 E)
    as (dropped & D & Hdrop).
  destruct (generic_shutdown_returns W s Hquiet)
    as (s' & E' & _ & Q' & A' & _ & D').
  exists s', (dropped ++ all_servers s).
  split; [exact E'|]. split; [|split; [|split; [exact A'|]]].
  - rewrite D', D. simpl in D1. rewrite D1, <- app_assoc. do 2 f_equal.
    apply to_shut_down_tracked_only. intros x Hx.
    eapply Permutation_in; [exact Hperm|]. apply in_or_app. now left.
  - rewrite Hdrop, A1. destruct Hf as (_ & _ & Ha). rewrite Ha. reflexivity.
  - unfold available. now rewrite Q'.
Qed.

(** Three servers; [10] and [11] are taken, [10] is given back unhealthy,
    [12] is taken, and the pool is shut down with [11] and [12] lent out. *)
Lemma every_server_is_cleaned_up_once_witness :
  let s1 := state_of (GenericMCPServerPool.initialize (flaky 9) (new_pool 3)) in
  let requests := [Borrow; Borrow; GiveBack 10 false; Borrow] in
  let s := match serve (flaky 9) requests s1 [] with
           | Some (s, _) => s
           | None => s1
           end in
  exists s' disposed,
    GenericMCPServerPool.shutdown (flaky 9) s = Return tt s' /\
    cleaned s' = cleaned (new_pool 3) ++ disposed /\
    Permutation disposed (made (flaky 9) 0 3) /\
    all_servers s' = [] /\
    available s' = [].
Proof.
  intros s1 requests s.
  apply (every_server_is_cleaned_up_once (flaky 9) (new_pool 3) s1 requests s
           [12; 11]).
  - unfold quiet_cleanups. quiet_world.
  - unfold fresh. simpl. repeat split.
  - vm_compute. reflexivity.
  - vm_compute. reflexivity.
Defined.

Lemma to_shut_down_only items :
  forall tracked x,
    In x (to_shut_down tracked items) -> In x tracked \/ In x items.
Proof.
  induction items as [|y rest IH]; intros tracked x H; simpl in *; [now left|].
  apply IH in H. destruct H as [H|H]; [|now right; right].
  destruct (contains y tracked); [now left|].
  apply in_app_or in H. destruct H as [H|[->|[]]]; [now left|now right; left].
Qed.

(** X5.  In a world where the logging calls can format every exception a
    cleanup raises, one [shutdown] awaits [cleanup()] on every server that
    is tracked or sits in the queue, also on a queued server the pool does
    not track (one handed to [release] from outside), and on none of them
    twice, even when a server is both tracked and queued or is queued
    twice.  This holds for both pools, when the tracked servers are
    distinct objects. *)
Theorem shutdown_cleans_tracked_and_queued_once (W : World) (s : State) :
  quiet_cleanups W ->
  distinct (all_servers s) = true ->
  cleans_each_once s (GenericMCPServerPool.shutdown W s) /\
  cleans_each_once s (MCPServerStdioPool.shutdown W s).
Proof.
  intros Hquiet Hd. apply distinct_NoDup in Hd.
  assert (Hchar : forall x,
             In x (to_shut_down (all_servers s) (available s)) <->
             In x (all_servers s) \/ In x (available s)).
  { intros x. split.
    - apply to_shut_down_only.
    - intros [H|H]; [now apply to_shut_down_keeps|now apply to_shut_down_collects]. }
  split.
  - destruct (generic_shutdown_returns W s Hquiet) as (s' & E & _ & _ & _ & _ & D).
    exists s', (to_shut_down (all_servers s) (available s)).
    split; [exact E|]. split; [exact D|].
    split; [now apply to_shut_down_NoDup|exact Hchar].
  - destruct (stdio_shutdown_returns W s Hquiet) as (s' & E & _ & _ & _ & _ & D).
    exists s', (to_shut_down (all_servers s) (available s)).
    split; [exact E|]. split; [exact D|].
    split; [now apply to_shut_down_NoDup|exact Hchar].
Qed.

(** Two servers; [10] is taken and given back, [11] is taken, and [10] is
    given back twice more: the queue holds [10] twice, [10] is no longer
    tracked, and [11] is tracked and lent out. *)
Lemma shutdown_cleans_tracked_and_queued_once_witness :
  let s := run reliable
             [Initialize; Acquire; Release (Some 10) true; Acquire;
              Release (Some 10) true; Release (Some 10) true]
             (new_pool 2) in
  cleans_each_once s (GenericMCPServerPool.shutdown (flaky 9) s) /\
  cleans_each_once s (MCPServerStdioPool.shutdown (flaky 9) s).
Proof.
  intros s.
  apply (shutdown_cleans_tracked_and_queued_once (flaky 9) s).
  - unfold quiet_cleanups. quiet_world.
  - reflexivity.
Defined.

(** X6.  Once a [shutdown] has returned, a second [shutdown] right after it
    returns too and awaits no [cleanup()]: repeating a [shutdown] that
    returned never disposes of a server twice.  This holds for both pools,
    from any state and in any world. *)
Theorem second_shutdown_cleans_nothing (W : World) (s g1 p1 : State) :
  GenericMCPServerPool.shutdown W s = Return tt g1 ->
  MCPServerStdioPool.shutdown W s = Return tt p1 ->
  (exists s2,
      GenericMCPServerPool.shutdown W g1 = Return tt s2 /\
      cleaned s2 = cleaned g1 /\ all_servers s2 = [] /\ available s2 = []) /\
  (exists s2,
      MCPServerStdioPool.shutdown W p1 = Return tt s2 /\
      cleaned s2 = cleaned p1 /\ all_servers s2 = [] /\ available s2 = []).
Proof.
  intros Eg Ep. split.
  - destruct (generic_shutdown_any W s)
      as (d1 & r1 & s1 & _ & [(E1 & _ & Q1)|(e & E1 & _)] & _ & _ & _ & A1 & _);
      [|congruence].
    assert (s1 = g1) by congruence. subst s1.
    destruct (generic_shutdown_any W g1)
      as (d2 & r2 & s2 & Hl & H2 & _ & _ & Hav & A2 & _ & D2).
    unfold available in Hl. rewrite Q1, A1 in Hl. simpl in Hl.
    symmetry in Hl. apply app_eq_nil in Hl. destruct Hl as (-> & ->).
    destruct H2 as [(E2 & _)|(e & _ & Hne)]; [|now destruct Hne].
    exists s2. rewrite app_nil_r in D2. auto.
  - destruct (stdio_shutdown_any W s)
      as (d1 & r1 & s1 & _ & [(E1 & _ & Q1 & A1)|(e & E1 & _)] & _);
      [|congruence].
    assert (s1 = p1) by congruence. subst s1.
    destruct (stdio_shutdown_any W p1)
      as (d2 & r2 & s2 & Hl & H2 & _ & Hav & _ & D2).
    unfold available in Hl. rewrite Q1, A1 in Hl. simpl in Hl.
    symmetry in Hl. apply app_eq_nil in Hl. destruct Hl as (-> & ->).
    destruct H2 as [(E2 & _ & _ & A2)|(e & _ & Hne & _)]; [|now destruct Hne].
    exists s2. rewrite app_nil_r in D2. auto.
Qed.

(** Two servers, [11] lent out, in a world where the [cleanup()] of server
    [10] raises. *)
Lemma second_shutdown_cleans_nothing_witness :
  let s := run reliable [Initialize; Acquire; Acquire; Release (Some 10) true]
             (new_pool 2) in
  let g1 := state_of (GenericMCPServerPool.shutdown (flaky 9) s) in
  let p1 := state_of (MCPServerStdioPool.shutdown (flaky 9) s) in
  (exists s2,
      GenericMCPServerPool.shutdown (flaky 9) g1 = Return tt s2 /\
      cleaned s2 = cleaned g1 /\ all_servers s2 = [] /\ available s2 = []) /\
  (exists s2,
      MCPServerStdioPool.shutdown (flaky 9) p1 = Return tt s2 /\
      cleaned s2 = cleaned p1 /\ all_servers s2 = [] /\ available s2 = []).
Proof.
  intros s g1 p1.
  apply (second_shutdown_cleans_nothing (flaky 9) s g1 p1).
  - vm_compute. reflexivity.
  - vm_compute. reflexivity.
Defined.

(** X7.  [release(server, is_healthy=False)] has no guard against a second
    call: released twice as unhealthy, a server has [cleanup()] awaited
    twice.  The first call drops it from the tracked list; the second finds
    it gone, leaves the list and the queue alone, and still awaits
    [cleanup()].  (The tracked servers are distinct objects, and the
    logging calls can format every exception a cleanup raises, so both
    calls return.) *)
Theorem unhealthy_release_twice_cleans_twice
    (W : World) (s : State) (server : Server) :
  quiet_cleanups W ->
  distinct (all_servers s) = true ->
  contains server (all_servers s) = true ->
  exists s1 s2,
    GenericMCPServerPool.release W (Some server) false s = Return tt s1 /\
    GenericMCPServerPool.release W (Some server) false s1 = Return tt s2 /\
    cleaned s2 = cleaned s ++ [server; server] /\
    all_servers s1 = without server (all_servers s) /\
    all_servers s2 = all_servers s1 /\
    available_servers s2 = available_servers s.
Proof.
  intros Hquiet Hd Hc. apply distinct_NoDup in Hd. apply contains_In in Hc.
  destruct (release_unhealthy W server s Hquiet)
    as (s1 & E1 & _ & Q1 & A1 & _ & D1).
  destruct (release_unhealthy W server s1 Hquiet)
    as (s2 & E2 & _ & Q2 & A2 & _ & D2).
  exists s1, s2. split; [exact E1|]. split; [exact E2|].
  split; [rewrite D2, D1, <- app_assoc; reflexivity|].
  split; [exact A1|]. split; [|congruence].
  rewrite A2. apply without_absent.
  destruct (contains server (all_servers s1)) eqn:E; [|reflexivity].
  apply contains_In in E. rewrite A1 in E.
  destruct (NoDup_without server (all_servers s) Hd Hc E).
Qed.

Lemma unhealthy_release_twice_cleans_twice_witness :
  let s := run reliable [Initialize; Acquire] (new_pool 2) in
  exists s1 s2,
    GenericMCPServerPool.release reliable (Some 10) false s = Return tt s1 /\
    GenericMCPServerPool.release reliable (Some 10) false s1 = Return tt s2 /\
    cleaned s2 = cleaned s ++ [10; 10] /\
    all_servers s1 = without 10 (all_servers s) /\
    all_servers s2 = all_servers s1 /\
    available_servers s2 = available_servers s.
Proof.
  intros s.
  apply (unhealthy_release_twice_cleans_twice reliable s 10).
  - unfold quiet_cleanups. quiet_world.
  - reflexivity.
  - reflexivity.
Defined.

(** X8.  In [MCPServerStdioPool], a healthy [release] awaits [put], so the
    [except asyncio.QueueFull] block is never entered: on a full queue the
    call suspends, with nothing cleaned up, dropped or queued; with room
    the server is queued.  A healthy release never awaits [cleanup()] and
    never raises. *)
Theorem stdio_healthy_release_waits_on_full_queue
    (W : World) (s : State) (server : Server) :
  if Queue.full (available_servers s)
  then MCPServerStdioPool.release W (Some server) true s
       = Suspend (set_logs (logs s ++ [DEBUG]) s)
  else exists s',
      MCPServerStdioPool.release W (Some server) true s = Return tt s' /\
      enqueued server s s'.
Proof.
  destruct (Queue.full (available_servers s)) eqn:Hfull.
  - unfold MCPServerStdioPool.release, try_except, bind, log, modify, put.
    simpl. rewrite Hfull. reflexivity.
  - unfold MCPServerStdioPool.release, try_except, bind, log, modify, put,
      put_nowait.
    simpl. rewrite Hfull. simpl.
    eexists. split; [reflexivity|]. unfold enqueued. simpl. repeat split.
Qed.

(** X9.  The two pools lend and take back alike: [acquire] is the same, and
    [release] gives the same result, state and log included, for [None],
    for an unhealthy server, and for a healthy one when the queue has room.
    They part only on a healthy release into a full queue. *)
Theorem stdio_pool_lends_like_generic_pool
    (W : World) (server : option Server) (is_healthy : bool) (s : State) :
  server = None \/ is_healthy = false \/
  Queue.full (available_servers s) = false ->
  MCPServerStdioPool.release W server is_healthy s
  = GenericMCPServerPool.release W server is_healthy s /\
  MCPServerStdioPool.acquire s = GenericMCPServerPool.acquire s.
Proof.
  intros H. split; [|reflexivity].
  destruct server as [x|]; [|reflexivity].
  destruct is_healthy; [|reflexivity].
  destruct H as [H|[H|Hfull]]; try discriminate.
  unfold MCPServerStdioPool.release, GenericMCPServerPool.release,
    try_except, bind, log, modify, put, put_nowait.
  simpl. rewrite Hfull. reflexivity.
Qed.

Lemma stdio_pool_lends_like_generic_pool_witness :
  let s := run reliable [Initialize; Acquire] (new_pool 2) in
  MCPServerStdioPool.release (flaky 9) (Some 10) true s
  = GenericMCPServerPool.release (flaky 9) (Some 10) true s /\
  MCPServerStdioPool.acquire s = GenericMCPServerPool.acquire s.
Proof.
  intros s.
  apply (stdio_pool_lends_like_generic_pool (flaky 9) (Some 10) true s).
  right. right. reflexivity.
Defined.

(** X10.  [MCPServerStdioPool.initialize] on a new pool whose factory
    returns every time returns with exactly the [pool_size] servers made,
    in order, both in the queue and in the tracked list. *)
Theorem stdio_initialize_fills_pool (W : World) (s : State) :
  fresh s ->
  succeeds W (factory_calls s) (Z.to_nat (pool_size s)) = true ->
  exists s',
    MCPServerStdioPool.initialize W s = Return tt s' /\
    available s' = made W (factory_calls s) (Z.to_nat (pool_size s)) /\
    all_servers s' = made W (factory_calls s) (Z.to_nat (pool_size s)) /\
    Z.of_nat (length (all_servers s')) = pool_size s /\
    cleaned s' = cleaned s.
Proof.
  intros Hf Hs. apply succeeds_returns_on in Hs.
  destruct (stdio_initialize_returns W s Hs) as (s' & E & (_ & Q & _ & _ & D) & A).
  { apply fresh_room; [exact Hf|lia]. }
  destruct Hf as (Hp & Hq & Ha). simpl in Q, D. rewrite Hq in Q. simpl in Q.
  rewrite Ha in A. simpl in A.
  exists s'. split; [exact E|]. unfold available. rewrite Q, A. simpl.
  rewrite (made_length _ _ _ Hs). repeat split; [lia|exact D].
Qed.

Lemma stdio_initialize_fills_pool_witness :
  exists s',
    MCPServerStdioPool.initialize reliable (new_pool 3) = Return tt s' /\
    available s' = made reliable 0 3 /\
    all_servers s' = made reliable 0 3 /\
    Z.of_nat (length (all_servers s')) = pool_size (new_pool 3) /\
    cleaned s' = cleaned (new_pool 3).
Proof.
  apply (stdio_initialize_fills_pool reliable (new_pool 3)).
  - unfold fresh. simpl. repeat split.
  - reflexivity.
Defined.

(** X18.  In a world where the logging call of the rollback can format the
    factory's exception and those of the cleanups: when the factory raises
    on the k-th of the [pool_size] awaits of [initialize] on a new pool,
    the k-1 servers made so far each have [cleanup()] awaited (once each
    when they are distinct objects), whether or not a cleanup raises; the
    queue is emptied, no server stays tracked, and the factory's exception
    is raised again.  This holds for [GenericMCPServerPool] and for
    [MCPServerStdioPool]. *)
Theorem initialize_rolls_back_when_it_can_log
    (W : World) (s : State) (k : nat) (e : exn) :
  quiet_cleanups W ->
  loggable W e ->
  fresh s ->
  1 <= k <= Z.to_nat (pool_size s) ->
  succeeds W (factory_calls s) (k - 1) = true ->
  server_factory W (factory_calls s + (k - 1)) = inr e ->
  let created := made W (factory_calls s) (k - 1) in
  length created = k - 1 /\
  rolled_back created e s (GenericMCPServerPool.initialize W s) /\
  rolled_back created e s (MCPServerStdioPool.initialize W s) /\
  (distinct created = true ->
   forall srv, In srv created -> count_occ Nat.eq_dec created srv = 1).
Proof.
  intros Hquiet Hlog Hf Hk Hs He created.
  apply succeeds_returns_on in Hs.
  assert (Hn : Z.to_nat (pool_size s) = (k - 1) + S (Z.to_nat (pool_size s) - k))
    by lia.
  assert (Hr : room_for (k - 1) (available_servers s))
    by (apply fresh_room; [exact Hf|lia]).
  split; [apply made_length; exact Hs|].
  split; [|split].
  - destruct (generic_initialize_raises W s _ _ e Hquiet Hlog Hn Hs He Hr)
      as (s' & E & _ & Q & A & D).
    exists s'. unfold available. rewrite Q. auto.
  - destruct (stdio_initialize_raises W s _ _ e Hquiet Hlog Hn Hs He Hr)
      as (s' & E & _ & Q & A & D).
    exists s'. unfold available. rewrite Q.
    destruct Hf as (_ & _ & Ha). rewrite Ha in D. auto.
  - intros Hd srv Hin. apply NoDup_count_occ_1; [|exact Hin].
    now apply distinct_NoDup.
Qed.

(** A pool of size 3 whose third factory await raises, in a world where the
    [cleanup()] of server [10] raises. *)
Lemma initialize_rolls_back_when_it_can_log_witness :
  length (made (flaky 2) 0 2) = 2 /\
  rolled_back (made (flaky 2) 0 2) spawn_failed (new_pool 3)
    (GenericMCPServerPool.initialize (flaky 2) (new_pool 3)) /\
  rolled_back (made (flaky 2) 0 2) spawn_failed (new_pool 3)
    (MCPServerStdioPool.initialize (flaky 2) (new_pool 3)) /\
  (distinct (made (flaky 2) 0 2) = true ->
   forall srv, In srv (made (flaky 2) 0 2) ->
     count_occ Nat.eq_dec (made (flaky 2) 0 2) srv = 1).
Proof.
  apply (initialize_rolls_back_when_it_can_log (flaky 2) (new_pool 3) 3
           spawn_failed).
  - unfold quiet_cleanups. quiet_world.
  - reflexivity.
  - unfold fresh. simpl. repeat split.
  - simpl. lia.
  - reflexivity.
  - reflexivity.
Defined.

(** X19.  In a world where the logging calls can format every exception a
    cleanup raises, [shutdown] returns, awaits [cleanup()] exactly once on
    every tracked server, queued or lent out, also when single cleanups
    raise, and leaves the tracked list and the queue empty.  This holds
    for both pools, when the tracked servers are distinct objects. *)
Theorem shutdown_disposes_tracked_when_it_can_log (W : World) (s : State) :
  quiet_cleanups W ->
  distinct (all_servers s) = true ->
  disposes_tracked_once s (GenericMCPServerPool.shutdown W s) /\
  disposes_tracked_once s (MCPServerStdioPool.shutdown W s).
Proof.
  intros Hquiet Hd. apply distinct_NoDup in Hd.
  split.
  - destruct (generic_shutdown_returns W s Hquiet)
      as (s' & E & P & Q & A & C & D).
    exists s', (to_shut_down (all_servers s) (available s)).
    split; [exact E|]. split; [exact D|]. split; [|split; [exact A|]].
    + intros server Hin. now apply to_shut_down_once.
    + unfold available. now rewrite Q.
  - destruct (stdio_shutdown_returns W s Hquiet)
      as (s' & E & P & Q & A & C & D).
    exists s', (to_shut_down (all_servers s) (available s)).
    split; [exact E|]. split; [exact D|]. split; [|split; [exact A|]].
    + intros server Hin. now apply to_shut_down_once.
    + unfold available. now rewrite Q.
Qed.

(** Two servers tracked, [10] lent out and [11] queued, and the cleanup of
    [10] raises. *)
Lemma shutdown_disposes_tracked_when_it_can_log_witness :
  let s := run reliable [Initialize; Acquire] (new_pool 2) in
  disposes_tracked_once s (GenericMCPServerPool.shutdown (flaky 9) s) /\
  disposes_tracked_once s (MCPServerStdioPool.shutdown (flaky 9) s).
Proof.
  apply (shutdown_disposes_tracked_when_it_can_log (flaky 9)
           (run reliable [Initialize; Acquire] (new_pool 2))).
  - unfold quiet_cleanups. quiet_world.
  - reflexivity.
Defined.

(** X20.  [release] raises nothing but what the logging call of a failed
    [cleanup()] raised, for every server argument, verdict and pool state:
    for [None] it only logs a warning and returns; a healthy server is
    queued when there is room, and the call returns; otherwise (healthy on
    a full queue, or unhealthy) the server has [cleanup()] awaited and is
    dropped from the tracked list, and the call returns unless that
    [cleanup()] raised and the logging call raised on its exception.
    Where the logging calls can format every exception of a cleanup,
    [release] returns. *)
Theorem release_raises_only_logging_errors
    (W : World) (server : option Server) (is_healthy : bool) (s : State) :
  exists s',
    GenericMCPServerPool.release W server is_healthy s
    = finish (match server with
              | None => None
              | Some x =>
                  if is_healthy && negb (Queue.full (available_servers s))
                  then None
                  else escapes W x s
              end) s' /\
    (quiet_cleanups W ->
     GenericMCPServerPool.release W server is_healthy s = Return tt s') /\
    match server with
    | None => s' = set_logs (logs s ++ [WARNING]) s
    | Some x =>
        if is_healthy
        then if Queue.full (available_servers s)
             then discarded x s s'
             else enqueued x s s'
        else discarded x s s'
    end.
Proof.
  destruct server as [x|].
  - destruct is_healthy; [destruct (Queue.full (available_servers s)) eqn:Hfull|];
      cbn [andb negb].
    + destruct (release_healthy_full_any W x s Hfull) as (s' & E & F).
      exists s'. split; [exact E|]. split; [|exact F].
      intros Hq. now rewrite E, (escapes_quiet W x s Hq).
    + destruct (release_healthy_room W x s Hfull) as (s' & E & F).
      exists s'. split; [exact E|]. split; [|exact F]. now intros _.
    + destruct (release_unhealthy_any W x s) as (s' & E & F).
      exists s'. split; [exact E|]. split; [|exact F].
      intros Hq. now rewrite E, (escapes_quiet W x s Hq).
  - exists (set_logs (logs s ++ [WARNING]) s). repeat split.
Qed.


(** X24.  For a server a consumer holds (it got it from [acquire] and has
    not given it back), on a pool that was initialized with success and
    used by consumers that keep to the contract:
    [release(server, is_healthy=False)] awaits its [cleanup()], drops it
    from the tracked list, which gets one shorter, leaves the queue as it
    is and does not await the factory; it raises only what the logging
    call of a failed [cleanup()] raised.  When the tracked servers are
    distinct objects, then however consumers go on using the pool the
    server is never available or tracked again, the factory is never
    awaited, and the tracked list stays shorter. *)
Theorem held_server_released_unhealthy_is_gone
    (W : World) (s0 s1 : State) (requests : list request) (s : State)
    (lent : list Server) (server : Server) :
  fresh s0 ->
  GenericMCPServerPool.initialize W s0 = Return tt s1 ->
  serve W requests s1 [] = Some (s, lent) ->
  contains server lent = true ->
  exists s',
    GenericMCPServerPool.release W (Some server) false s
    = finish (escapes W server s) s' /\
    cleaned s' = cleaned s ++ [server] /\
    all_servers s' = without server (all_servers s) /\
    S (length (all_servers s')) = length (all_servers s) /\
    available_servers s' = available_servers s /\
    factory_calls s' = factory_calls s /\
    (distinct (all_servers s) = true ->
     forall later s2 lent2,
       serve W later s' (without server lent) = Some (s2, lent2) ->
       ~ In server (available s2) /\
       ~ In server (all_servers s2) /\
       factory_calls s2 = factory_calls s /\
       length (all_servers s2) < length (all_servers s)).
Proof.
  intros Hf E1 E Hc. apply contains_In in Hc.
  destruct (initialize_accounted W s0 s1 Hf E1) as (Hacc1 & _).
  destruct (serve_accounted W requests s1 [] s lent Hacc1 E) as (Hacc & _ & _).
  destruct (accounted_room s lent server Hacc Hc) as (_ & Ht).
  destruct (give_back_accounted W s lent server false Hacc Hc)
    as (s' & E' & Hacc' & _ & (_ & Q & A & C & D)).
  exists s'. split; [exact E'|]. split; [exact D|]. split; [exact A|].
  split; [rewrite A; symmetry; now apply without_length|].
  split; [exact Q|]. split; [exact C|].
  intros Hd later s2 lent2 E2. apply distinct_NoDup in Hd.
  destruct (serve_accounted W later s' _ s2 lent2 Hacc' E2)
    as ((Hperm2 & _) & _ & Hsub).
  destruct (serve_never_creates W later s' _ s2 lent2 Hacc' E2) as (C2 & L2).
  assert (Hgone : ~ In server (all_servers s2)).
  { intros Hin. apply Hsub in Hin. rewrite A in Hin.
    exact (NoDup_without server (all_servers s) Hd Ht Hin). }
  split; [|split; [exact Hgone|split]].
  - intros Hin. apply Hgone. eapply Permutation_in; [exact Hperm2|].
    apply in_or_app. now left.
  - congruence.
  - rewrite A in L2. rewrite (without_length server _ Ht). lia.
Qed.

(** Both servers of a pool of size 2 are taken; [10], whose [cleanup()]
    raises, is given back unhealthy. *)
Lemma held_server_released_unhealthy_is_gone_witness :
  let s1 := state_of (GenericMCPServerPool.initialize (flaky 9) (new_pool 2)) in
  let s := state_of (GenericMCPServerPool.acquire
                       (state_of (GenericMCPServerPool.acquire s1))) in
  exists s',
    GenericMCPServerPool.release (flaky 9) (Some 10) false s
    = finish (escapes (flaky 9) 10 s) s' /\
    cleaned s' = cleaned s ++ [10] /\
    all_servers s' = without 10 (all_servers s) /\
    S (length (all_servers s')) = length (all_servers s) /\
    available_servers s' = available_servers s /\
    factory_calls s' = factory_calls s /\
    (distinct (all_servers s) = true ->
     forall later s2 lent2,
       serve (flaky 9) later s' (without 10 [11; 10]) = Some (s2, lent2) ->
       ~ In 10 (available s2) /\
       ~ In 10 (all_servers s2) /\
       factory_calls s2 = factory_calls s /\
       length (all_servers s2) < length (all_servers s)).
Proof.
  intros s1 s.
  apply (held_server_released_unhealthy_is_gone (flaky 9) (new_pool 2) s1
           [Borrow; Borrow] s [11; 10] 10).
  - unfold fresh. simpl. repeat split.
  - vm_compute. reflexivity.
  - vm_compute. reflexivity.
  - reflexivity.
Defined.

(** * Properties of AgentManager.process_message *)

Lemma dict_get_update key p d :
  forall pool, AgentManager.dict_get key d = Some pool ->
    AgentManager.dict_get key (AgentManager.dict_update key p d) = Some p.
Proof.
  induction d as [|(k, v) d IH]; simpl; intros pool H; [discriminate|].
  destruct (String.eqb key k) eqn:E; simpl; rewrite E; [reflexivity|].
  now apply (IH pool).
Qed.

Lemma dict_get_update_other key p d other :
  other <> key ->
  AgentManager.dict_get other (AgentManager.dict_update key p d)
  = AgentManager.dict_get other d.
Proof.
  intros Hne. induction d as [|(k, v) d IH]; simpl; [reflexivity|].
  destruct (String.eqb_spec key k) as [->|Hk]; simpl.
  - destruct (String.eqb_spec other k); [contradiction|reflexivity].
  - destruct (String.eqb other k); [reflexivity|exact IH].
Qed.

Lemma dict_update_twice key p q d :
  AgentManager.dict_update key q (AgentManager.dict_update key p d)
  = AgentManager.dict_update key q d.
Proof.
  induction d as [|(k, v) d IH]; simpl; [reflexivity|].
  destruct (String.eqb key k) eqn:E; simpl; rewrite E; [reflexivity|].
  now rewrite IH.
Qed.

Section ProcessMessage.

Variable world_of : string -> World.
Variable Sv : AgentManager.Services.
Import AgentManager.

Opaque GenericMCPServerPool.acquire GenericMCPServerPool.release.

(** [process_message] when the pool has a server to lend: what it returns
    or raises and the manager it leaves, in terms of the pool's own
    methods.  An exception of [release] replaces the one of the handler. *)
Lemma process_message_serves content m pool server p1 esc p2 :
  dict_get "stdio" (mcp_pools m) = Some pool ->
  GenericMCPServerPool.acquire pool = Return server p1 ->
  GenericMCPServerPool.release (world_of "stdio") (Some server)
    (verdict_given Sv (snd (served Sv server content))) p1 = finish esc p2 ->
  exists m',
    process_message world_of Sv content m
    = reply_or_raise
        (first_raised esc (handler_escapes Sv (snd (served Sv server content))))
        (reply_of (snd (served Sv server content))) m' /\
    mcp_pools m' = dict_update "stdio" p2 (mcp_pools m) /\
    agent m' = match fst (served Sv server content) with
               | Some a => Some a
               | None => agent m
               end.
Proof.
  intros Hget Hacq Hrel.
  unfold process_message, with_frame, try_finally, try_except, give_back, bind,
    lift_in, mlog_exception, mlog, modify, gets, get_frame, set_frame, on_pool,
    await, ret, raise, Exception.
  simpl. repeat (rewrite Hget; simpl). rewrite Hacq. simpl.
  unfold verdict_given, handler_escapes, served in *.
  destruct (create_employee_info_agent Sv server) as [a|e]; simpl in *;
    [destruct (Runner_run Sv a content) as [out|e]; simpl in *|];
    try (destruct (format_raises (manager_format_outcome Sv) e) as [e'|];
         simpl in *);
    rewrite (dict_get_update _ _ _ pool Hget), Hrel;
    destruct esc as [e''|]; simpl;
    (eexists; split; [reflexivity|]); simpl;
    rewrite ?dict_update_twice; auto.
Qed.

(** With no server to lend the call waits in [acquire]; neither the handler
    nor the [finally] block has run. *)
Lemma process_message_waits content m pool p1 :
  dict_get "stdio" (mcp_pools m) = Some pool ->
  GenericMCPServerPool.acquire pool = Suspend p1 ->
  exists m',
    process_message world_of Sv content m = Suspend m' /\
    mcp_pools m' = dict_update "stdio" p1 (mcp_pools m) /\
    agent m' = agent m.
Proof.
  intros Hget Hacq.
  unfold process_message, with_frame, try_finally, try_except, give_back, bind,
    lift_in, mlog, modify, gets, get_frame, set_frame, on_pool, await, ret,
    raise, Exception.
  simpl. repeat (rewrite Hget; simpl). rewrite Hacq. simpl.
  eexists. split; [reflexivity|]. simpl. auto.
Qed.

Lemma process_message_no_pool content m :
  dict_get "stdio" (mcp_pools m) = None ->
  process_message world_of Sv content m
  = Return (Text "Configuration error: MCP pool 'stdio' not found.")
           (set_manager_logs (manager_logs m ++ [INFO; ERROR]) m).
Proof.
  intros Hget.
  unfold process_message, with_frame, try_finally, try_except, give_back, bind,
    lift_in, mlog, modify, gets, get_frame, set_frame, on_pool, await, ret,
    raise, Exception.
  simpl. repeat (rewrite Hget; simpl).
  unfold set_manager_logs. simpl. rewrite <- app_assoc. reflexivity.
Qed.

Transparent GenericMCPServerPool.acquire GenericMCPServerPool.release.

(** One message on a pool whose servers are all at home: however the call
    ends, the pool is consistent again, and the server that served it is
    back in the queue or cleaned up and gone. *)
Lemma process_message_accounted content m pool server rest :
  dict_get "stdio" (mcp_pools m) = Some pool ->
  accounted pool [] ->
  available pool = server :: rest ->
  exists m' pool',
    process_message world_of Sv content m
    = reply_or_raise
        (first_raised
           (if verdict_given Sv (snd (served Sv server content)) then None
            else escapes (world_of "stdio") server pool)
           (handler_escapes Sv (snd (served Sv server content))))
        (reply_of (snd (served Sv server content))) m' /\
    dict_get "stdio" (mcp_pools m') = Some pool' /\
    accounted pool' [] /\
    pool_size pool' = pool_size pool /\
    factory_calls pool' = factory_calls pool /\
    if verdict_given Sv (snd (served Sv server content))
    then available pool' = rest ++ [server] /\
         all_servers pool' = all_servers pool /\
         cleaned pool' = cleaned pool
    else available pool' = rest /\
         all_servers pool' = without server (all_servers pool) /\
         cleaned pool' = cleaned pool ++ [server].
Proof.
  intros Hget Hacc Hav.
  destruct (acquire_returns pool server rest Hav)
    as (p1 & E1 & P1 & Q1 & A1 & F1 & D1).
  destruct (borrow_accounted pool [] server p1 Hacc E1) as (Hacc1 & _ & _).
  destruct (give_back_accounted (world_of "stdio") p1 [server] server
              (verdict_given Sv (snd (served Sv server content))) Hacc1
              (or_introl eq_refl))
    as (p2 & E2 & Hacc2 & P2 & F2).
  assert (Hw : without server [server] = []).
  { unfold without. simpl. now rewrite Nat.eqb_refl. }
  rewrite Hw in Hacc2.
  destruct (process_message_serves content m pool server p1 _ p2 Hget E1 E2)
    as (m' & E & Hpools & _).
  assert (Hesc : escapes (world_of "stdio") server p1
                 = escapes (world_of "stdio") server pool).
  { unfold escapes. now rewrite D1. }
  rewrite Hesc in E.
  exists m', p2. split; [exact E|]. rewrite Hpools.
  split; [exact (dict_get_update _ _ _ pool Hget)|].
  split; [exact Hacc2|]. split; [congruence|].
  destruct (verdict_given Sv (snd (served Sv server content)));
    destruct F2 as (_ & Q2 & A2 & C2 & D2);
    (split; [congruence|]); unfold available; rewrite Q2, Q1; simpl;
    (split; [reflexivity|]); split; congruence.
Qed.

End ProcessMessage.

(** Where the logging call of the handler returns, the handler lets nothing
    out and the verdict is the one the outcome calls for. *)
Lemma quiet_handler Sv server content :
  quiet_services Sv ->
  handler_escapes Sv (snd (served Sv server content)) = None /\
  verdict_given Sv (snd (served Sv server content))
  = verdict_of (snd (served Sv server content)).
Proof.
  intros Hq. unfold verdict_given, handler_escapes.
  destruct (snd (served Sv server content)) as [out|e] eqn:E; [now split|].
  rewrite (Hq server content e E). now split.
Qed.

(** Whatever [release] is given, it returns or raises. *)
Lemma release_returns_or_raises (W : World) server is_healthy s :
  exists esc s',
    GenericMCPServerPool.release W (Some server) is_healthy s = finish esc s' /\
    (esc = None \/ esc = escapes W server s).
Proof.
  destruct is_healthy.
  - destruct (Queue.full (available_servers s)) eqn:Hf.
    + destruct (release_healthy_full_any W server s Hf) as (s' & E & _).
      exists (escapes W server s), s'. auto.
    + destruct (release_healthy_room W server s Hf) as (s' & E & _).
      exists None, s'. auto.
  - destruct (release_unhealthy_any W server s) as (s' & E & _).
    exists (escapes W server s), s'. auto.
Qed.

(** Messages that all fail take the servers off the front of the queue, one
    each, for good. *)
Lemma failed_messages_take_servers world_of Sv :
  quiet_cleanups (world_of "stdio"%string) ->
  quiet_services Sv ->
  always_fails Sv ->
  forall contents m pool taken rest,
    AgentManager.dict_get "stdio" (AgentManager.mcp_pools m) = Some pool ->
    accounted pool [] ->
    available pool = taken ++ rest ->
    length contents = length taken ->
    exists m' pool',
      process_all world_of Sv contents m
      = Return (map (fun sc => reply_of (snd (served Sv (fst sc) (snd sc))))
                    (combine taken contents)) m' /\
      AgentManager.dict_get "stdio" (AgentManager.mcp_pools m') = Some pool' /\
      accounted pool' [] /\
      available pool' = rest /\
      cleaned pool' = cleaned pool ++ taken.
Proof.
  intros Hqc Hqs Hfail.
  induction contents as [|content contents IH];
    intros m pool taken rest Hget Hacc Hav Hlen.
  - destruct taken; [|discriminate]. exists m, pool. simpl.
    rewrite app_nil_r. auto.
  - destruct taken as [|server taken]; [discriminate|].
    simpl in Hav, Hlen. injection Hlen as Hlen.
    destruct (process_message_accounted world_of Sv content m pool server
                (taken ++ rest) Hget Hacc Hav)
      as (m1 & p1 & E1 & Hget1 & Hacc1 & _ & _ & H1).
    destruct (quiet_handler Sv server content Hqs) as (Hh & Hv).
    rewrite Hh, Hv, (Hfail server content) in E1.
    rewrite (escapes_quiet _ server pool Hqc) in E1. cbn in E1.
    rewrite Hv, (Hfail server content) in H1. destruct H1 as (Hav1 & _ & D1).
    destruct (IH m1 p1 taken rest Hget1 Hacc1 Hav1 Hlen)
      as (m' & pool' & E & Hget' & Hacc' & Hav' & D').
    exists m', pool'.
    split; [|split; [exact Hget'|split; [exact Hacc'|split; [exact Hav'|]]]].
    + cbn [process_all combine map fst snd].
      rewrite (bind_Return _ _ _ _ _ E1), (bind_Return _ _ _ _ _ E).
      reflexivity.
    + rewrite D', D1, <- app_assoc. reflexivity.
Qed.

(** X11.  When the [stdio] pool has a server available, [process_message]
    takes the first one and has given it back exactly once by the time it
    ends.  Where the logging calls can format every exception of agent
    creation, of the run and of [cleanup()], the call returns (it does not
    raise), and the server went back as healthy, to the back of the queue,
    when the agent was created and ran without exception, the call
    returning what [Runner.run] returned; as unhealthy otherwise, so that
    the server has [cleanup()] awaited and is dropped from the pool for
    good, the call returning an error text that carries the exception's
    message.  In every world the server goes back with the verdict
    [healthy_server] holds when the [finally] block runs, the call raises
    only what a logging call raised, and the other pools are not
    touched. *)
Theorem process_message_gives_back_its_server
    (world_of : string -> World) (Sv : AgentManager.Services)
    (content : string) (m : AgentManager.Manager) (pool : State)
    (server : Server) (rest : list Server) :
  AgentManager.dict_get "stdio" (AgentManager.mcp_pools m) = Some pool ->
  pool_ok pool ->
  available pool = server :: rest ->
  exists m' pool',
    AgentManager.process_message world_of Sv content m
    = reply_or_raise
        (first_raised
           (if verdict_given Sv (snd (served Sv server content)) then None
            else escapes (world_of "stdio"%string) server pool)
           (handler_escapes Sv (snd (served Sv server content))))
        (reply_of (snd (served Sv server content))) m' /\
    (quiet_services Sv -> quiet_cleanups (world_of "stdio"%string) ->
     AgentManager.process_message world_of Sv content m
     = Return (reply_of (snd (served Sv server content))) m' /\
     verdict_given Sv (snd (served Sv server content))
     = verdict_of (snd (served Sv server content))) /\
    AgentManager.dict_get "stdio" (AgentManager.mcp_pools m') = Some pool' /\
    (forall other, other <> "stdio"%string ->
       AgentManager.dict_get other (AgentManager.mcp_pools m')
       = AgentManager.dict_get other (AgentManager.mcp_pools m)) /\
    if verdict_given Sv (snd (served Sv server content))
    then available pool' = rest ++ [server] /\
         all_servers pool' = all_servers pool /\
         cleaned pool' = cleaned pool
    else available pool' = rest /\
         all_servers pool' = without server (all_servers pool) /\
         cleaned pool' = cleaned pool ++ [server].
Proof.
  intros Hget (Hp & Hm & Hq) Hav.
  destruct (acquire_returns pool server rest Hav)
    as (p1 & E1 & P1 & Q1 & A1 & _ & D1).
  assert (Hroom : Queue.full (available_servers p1) = false).
  { unfold Queue.full, Queue.qsize. rewrite Q1. simpl. rewrite Hm.
    unfold Queue.qsize in Hq. unfold available in Hav. rewrite Hav in Hq.
    simpl length in Hq.
    destruct (Z.leb_spec (pool_size pool) 0); [reflexivity|].
    apply Z.leb_gt. lia. }
  assert (Hesc : escapes (world_of "stdio"%string) server p1
                 = escapes (world_of "stdio"%string) server pool).
  { unfold escapes. now rewrite D1. }
  assert (Hrel : exists p2,
             GenericMCPServerPool.release (world_of "stdio"%string) (Some server)
               (verdict_given Sv (snd (served Sv server content))) p1
             = finish (if verdict_given Sv (snd (served Sv server content))
                       then None
                       else escapes (world_of "stdio"%string) server pool) p2 /\
             if verdict_given Sv (snd (served Sv server content))
             then enqueued server p1 p2 else discarded server p1 p2).
  { destruct (verdict_given Sv (snd (served Sv server content))).
    - exact (release_healthy_room (world_of "stdio"%string) server p1 Hroom).
    - rewrite <- Hesc.
      exact (release_unhealthy_any (world_of "stdio"%string) server p1). }
  destruct Hrel as (p2 & E2 & F2).
  destruct (process_message_serves world_of Sv content m pool server p1 _ p2
              Hget E1 E2) as (m' & E & Hpools & _).
  exists m', p2. split; [exact E|]. rewrite Hpools.
  split.
  { intros Hqs Hqc. destruct (quiet_handler Sv server content Hqs) as (Hh & Hv).
    split; [|exact Hv]. rewrite E, Hh.
    rewrite (escapes_quiet _ server pool Hqc).
    now destruct (verdict_given Sv (snd (served Sv server content))). }
  split; [exact (dict_get_update _ _ _ pool Hget)|].
  split; [intros other Hne; now apply dict_get_update_other|].
  destruct (verdict_given Sv (snd (served Sv server content)));
    destruct F2 as (_ & Q2 & A2 & _ & D2);
    unfold available; rewrite Q2, Q1; simpl;
    (split; [reflexivity|]); split; congruence.
Qed.

(** Two pools; the model backend is down, so the first [stdio] server is
    cleaned up and dropped, and [code_analysis] is as it was. *)
Lemma process_message_gives_back_its_server_witness :
  let m := manager_of [("stdio"%string, started_pool 2);
                       ("code_analysis"%string, started_pool 1)] in
  exists m' pool',
    AgentManager.process_message (fun _ => flaky 9) backend_down "hi" m
    = reply_or_raise
        (first_raised
           (if verdict_given backend_down (snd (served backend_down 10 "hi"))
            then None
            else escapes (flaky 9) 10 (started_pool 2))
           (handler_escapes backend_down (snd (served backend_down 10 "hi"))))
        (reply_of (snd (served backend_down 10 "hi"))) m' /\
    (quiet_services backend_down -> quiet_cleanups (flaky 9) ->
     AgentManager.process_message (fun _ => flaky 9) backend_down "hi" m
     = Return (reply_of (snd (served backend_down 10 "hi"))) m' /\
     verdict_given backend_down (snd (served backend_down 10 "hi"))
     = verdict_of (snd (served backend_down 10 "hi"))) /\
    AgentManager.dict_get "stdio" (AgentManager.mcp_pools m') = Some pool' /\
    (forall other, other <> "stdio"%string ->
       AgentManager.dict_get other (AgentManager.mcp_pools m')
       = AgentManager.dict_get other (AgentManager.mcp_pools m)) /\
    if verdict_given backend_down (snd (served backend_down 10 "hi"))
    then available pool' = [11] ++ [10] /\
         all_servers pool' = all_servers (started_pool 2) /\
         cleaned pool' = cleaned (started_pool 2)
    else available pool' = [11] /\
         all_servers pool' = without 10 (all_servers (started_pool 2)) /\
         cleaned pool' = cleaned (started_pool 2) ++ [10].
Proof.
  intros m.
  apply (process_message_gives_back_its_server (fun _ => flaky 9) backend_down
           "hi" m (started_pool 2) 10 [11]).
  - reflexivity.
  - unfold pool_ok. vm_compute. repeat split; discriminate.
  - reflexivity.
Defined.

(** X12.  [process_message] raises nothing but what a logging call raised,
    whatever the pool holds and whatever agent creation, the run and
    [cleanup()] do.  Without a [stdio] pool it returns a configuration
    error text and touches neither the pools nor the agent; with one whose
    queue is empty it waits in [acquire], before any agent is made; with a
    server available it returns the run's result or an error text, or it
    raises the exception that the logging call of its own handler or of a
    failed [cleanup()] raised; where those calls can format every
    exception it returns. *)
Theorem process_message_raises_only_logging_errors
    (world_of : string -> World) (Sv : AgentManager.Services)
    (content : string) (m : AgentManager.Manager) :
  match AgentManager.dict_get "stdio" (AgentManager.mcp_pools m) with
  | None =>
      exists m',
        AgentManager.process_message world_of Sv content m
        = Return (AgentManager.Text
                    "Configuration error: MCP pool 'stdio' not found.") m' /\
        AgentManager.mcp_pools m' = AgentManager.mcp_pools m /\
        AgentManager.agent m' = AgentManager.agent m
  | Some pool =>
      match available pool with
      | [] =>
          exists m',
            AgentManager.process_message world_of Sv content m = Suspend m' /\
            AgentManager.agent m' = AgentManager.agent m
      | server :: _ =>
          exists m',
            (AgentManager.process_message world_of Sv content m
             = Return (reply_of (snd (served Sv server content))) m' \/
             exists e,
               AgentManager.process_message world_of Sv content m
               = Raise e m' /\
               (handler_escapes Sv (snd (served Sv server content)) = Some e \/
                escapes (world_of "stdio"%string) server pool = Some e)) /\
            (quiet_services Sv -> quiet_cleanups (world_of "stdio"%string) ->
             AgentManager.process_message world_of Sv content m
             = Return (reply_of (snd (served Sv server content))) m')
      end
  end.
Proof.
  destruct (AgentManager.dict_get "stdio" (AgentManager.mcp_pools m))
    as [pool|] eqn:Hget.
  - destruct (available pool) as [|server rest] eqn:Hav.
    + destruct (process_message_waits world_of Sv content m pool _ Hget
                  (acquire_suspends pool Hav)) as (m' & E & _ & A).
      now exists m'.
    + destruct (acquire_returns pool server rest Hav)
        as (p1 & E1 & _ & _ & _ & _ & D1).
      destruct (release_returns_or_raises (world_of "stdio"%string) server
                  (verdict_given Sv (snd (served Sv server content))) p1)
        as (esc & p2 & E2 & Hesc).
      assert (Hp1 : escapes (world_of "stdio"%string) server p1
                    = escapes (world_of "stdio"%string) server pool).
      { unfold escapes. now rewrite D1. }
      rewrite Hp1 in Hesc.
      destruct (process_message_serves world_of Sv content m pool server p1
                  esc p2 Hget E1 E2) as (m' & E & _).
      exists m'. split.
      * rewrite E. destruct esc as [e|]; simpl.
        -- right. exists e. split; [reflexivity|].
           right. destruct Hesc as [H|H]; [discriminate H|now symmetry].
        -- destruct (handler_escapes Sv (snd (served Sv server content)))
             as [e|]; simpl; [right; exists e|left]; auto.
      * intros Hqs Hqc. rewrite E.
        rewrite (proj1 (quiet_handler Sv server content Hqs)).
        rewrite (escapes_quiet _ server pool Hqc) in Hesc.
        destruct Hesc as [->| ->]; reflexivity.
  - rewrite (process_message_no_pool world_of Sv content m Hget).
    eexists. split; [reflexivity|]. split; reflexivity.
Qed.

(** X13.  Where the logging calls can format every exception, a failed
    message costs the pool a server for good: the pool makes no
    replacement.  When every message fails, as many messages as the pool
    has servers get their error texts, the servers are cleaned up in the
    order they were lent, the pool is left with none, and every further
    message waits in [acquire]. *)
Theorem failed_messages_drain_the_pool
    (world_of : string -> World) (Sv : AgentManager.Services)
    (contents : list string) (m : AgentManager.Manager) (pool : State) :
  quiet_cleanups (world_of "stdio"%string) ->
  quiet_services Sv ->
  AgentManager.dict_get "stdio" (AgentManager.mcp_pools m) = Some pool ->
  accounted pool [] ->
  always_fails Sv ->
  length contents = length (available pool) ->
  exists m' pool',
    process_all world_of Sv contents m
    = Return (map (fun sc => reply_of (snd (served Sv (fst sc) (snd sc))))
                  (combine (available pool) contents)) m' /\
    AgentManager.dict_get "stdio" (AgentManager.mcp_pools m') = Some pool' /\
    available pool' = [] /\
    all_servers pool' = [] /\
    cleaned pool' = cleaned pool ++ available pool /\
    forall content,
      exists m'',
        AgentManager.process_message world_of Sv content m' = Suspend m''.
Proof.
  intros Hqc Hqs Hget Hacc Hfail Hlen.
  destruct (failed_messages_take_servers world_of Sv Hqc Hqs Hfail contents m
              pool (available pool) [] Hget Hacc (eq_sym (app_nil_r _)) Hlen)
    as (m' & pool' & E & Hget' & Hacc' & Hav' & D').
  exists m', pool'. split; [exact E|]. split; [exact Hget'|].
  split; [exact Hav'|]. split; [|split; [exact D'|]].
  - destruct Hacc' as (Hperm & _). rewrite Hav' in Hperm. simpl in Hperm.
    now apply Permutation_nil.
  - intros content.
    destruct (process_message_waits world_of Sv content m' pool' _ Hget'
                (acquire_suspends pool' Hav')) as (m'' & E'' & _).
    now exists m''.
Qed.

(** A pool of two servers, a backend that is down and a [cleanup()] that
    raises on server [10]: two messages are answered with the error text,
    and the third finds no server. *)
Lemma failed_messages_drain_the_pool_witness :
  let m := manager_of [("stdio"%string, started_pool 2)] in
  exists m' pool',
    process_all (fun _ => flaky 9) backend_down ["a"; "b"]%string m
    = Return (map (fun sc => reply_of (snd (served backend_down (fst sc) (snd sc))))
                  (combine (available (started_pool 2)) ["a"; "b"]%string)) m' /\
    AgentManager.dict_get "stdio" (AgentManager.mcp_pools m') = Some pool' /\
    available pool' = [] /\
    all_servers pool' = [] /\
    cleaned pool' = cleaned (started_pool 2) ++ available (started_pool 2) /\
    forall content,
      exists m'',
        AgentManager.process_message (fun _ => flaky 9) backend_down content m'
        = Suspend m''.
Proof.
  intros m.
  apply (failed_messages_drain_the_pool (fun _ => flaky 9) backend_down
           ["a"; "b"]%string m (started_pool 2)).
  - unfold quiet_cleanups. quiet_world.
  - intros server content e H. vm_compute in H. injection H as <-. reflexivity.
  - reflexivity.
  - unfold accounted. split; [vm_compute; apply Permutation_refl|].
    split; [unfold pool_ok; vm_compute; repeat split; discriminate|].
    vm_compute. discriminate.
  - intros server content. reflexivity.
  - reflexivity.
Defined.

(** X14.  However many messages are handled and however each of them ends,
    the pool stays consistent: between two messages every tracked server is
    in the queue, the factory is never awaited, and the servers that had
    [cleanup()] awaited are exactly the ones dropped from the tracked list.
    The sequence stops, waiting, at a message that finds the queue empty,
    and it stops at a message whose call raises (what a logging call
    raised); the pool is consistent then as well. *)
Theorem messages_keep_the_pool_accounted
    (world_of : string -> World) (Sv : AgentManager.Services)
    (contents : list string) (m : AgentManager.Manager) (pool : State) :
  AgentManager.dict_get "stdio" (AgentManager.mcp_pools m) = Some pool ->
  accounted pool [] ->
  exists m' pool' disposed,
    ((exists replies,
         process_all world_of Sv contents m = Return replies m' /\
         length replies = length contents) \/
     (process_all world_of Sv contents m = Suspend m' /\
      available pool' = []) \/
     (exists e, process_all world_of Sv contents m = Raise e m')) /\
    AgentManager.dict_get "stdio" (AgentManager.mcp_pools m') = Some pool' /\
    accounted pool' [] /\
    pool_size pool' = pool_size pool /\
    factory_calls pool' = factory_calls pool /\
    cleaned pool' = cleaned pool ++ disposed /\
    Permutation (all_servers pool) (all_servers pool' ++ disposed).
Proof.
  revert m pool.
  induction contents as [|content contents IH]; intros m pool Hget Hacc.
  - exists m, pool, []. rewrite !app_nil_r.
    split; [left; exists []; split; reflexivity|].
    split; [exact Hget|]. split; [exact Hacc|]. repeat split; reflexivity.
  - destruct (available pool) as [|server rest] eqn:Hav.
    + destruct (process_message_waits world_of Sv content m pool _ Hget
                  (acquire_suspends pool Hav)) as (m1 & E1 & Hpools & _).
      exists m1, (set_logs (logs pool ++ [DEBUG]) pool), [].
      rewrite !app_nil_r.
      split; [right; left; split; [|exact Hav]|].
      { cbn [process_all]. unfold bind. now rewrite E1. }
      rewrite Hpools.
      split; [exact (dict_get_update _ _ _ pool Hget)|].
      split; [exact Hacc|]. repeat split; reflexivity.
    + destruct (process_message_accounted world_of Sv content m pool server
                  rest Hget Hacc Hav)
        as (m1 & p1 & E1 & Hget1 & Hacc1 & P1 & F1 & H1).
      assert (Hin : In server (all_servers pool)).
      { destruct Hacc as (Hperm & _). eapply Permutation_in; [exact Hperm|].
        rewrite Hav. simpl. now left. }
      assert (Hone : exists d,
                 cleaned p1 = cleaned pool ++ d /\
                 Permutation (all_servers pool) (all_servers p1 ++ d)).
      { destruct (verdict_given Sv (snd (served Sv server content))).
        - destruct H1 as (_ & A1 & D1). exists [].
          rewrite !app_nil_r, A1. auto.
        - destruct H1 as (_ & A1 & D1). exists [server]. split; [exact D1|].
          rewrite A1, (without_Permutation server (all_servers pool) Hin) at 1.
          apply Permutation_cons_append. }
      destruct Hone as (d & D1 & Hperm1).
      destruct (first_raised _ _) as [e|]; cbn [reply_or_raise] in E1.
      * exists m1, p1, d.
        split; [right; right; exists e; cbn [process_all];
                now rewrite (bind_Raise _ _ _ _ _ E1)|].
        split; [exact Hget1|]. split; [exact Hacc1|]. auto.
      * destruct (IH m1 p1 Hget1 Hacc1)
          as (m' & pool' & disposed & Hres & Hget' & Hacc' & P' & F' & D'
              & Hperm').
        exists m', pool', (d ++ disposed).
        split.
        { cbn [process_all]. rewrite (bind_Return _ _ _ _ _ E1).
          destruct Hres as [(replies & E & Hl)|[(E & Hempty)|(e & E)]].
          - left. eexists. rewrite (bind_Return _ _ _ _ _ E).
            split; [reflexivity|]. simpl. now rewrite Hl.
          - right. left. split; [|exact Hempty]. unfold bind. now rewrite E.
          - right. right. exists e. now rewrite (bind_Raise _ _ _ _ _ E). }
        split; [exact Hget'|]. split; [exact Hacc'|].
        split; [congruence|]. split; [congruence|].
        split; [rewrite D', D1, <- app_assoc; reflexivity|].
        rewrite Hperm1, Hperm', <- !app_assoc.
        apply Permutation_app_head. apply Permutation_app_comm.
Qed.

(** Three messages on a pool of two servers, all answered: the servers
    take turns and none is cleaned up. *)
Lemma messages_keep_the_pool_accounted_witness :
  let m := manager_of [("stdio"%string, started_pool 2)] in
  exists m' pool' disposed,
    ((exists replies,
         process_all (fun _ => reliable) answering ["a"; "b"; "c"]%string m
         = Return replies m' /\
         length replies = length ["a"; "b"; "c"]%string) \/
     (process_all (fun _ => reliable) answering ["a"; "b"; "c"]%string m
      = Suspend m' /\
      available pool' = []) \/
     (exists e,
         process_all (fun _ => reliable) answering ["a"; "b"; "c"]%string m
         = Raise e m')) /\
    AgentManager.dict_get "stdio" (AgentManager.mcp_pools m') = Some pool' /\
    accounted pool' [] /\
    pool_size pool' = pool_size (started_pool 2) /\
    factory_calls pool' = factory_calls (started_pool 2) /\
    cleaned pool' = cleaned (started_pool 2) ++ disposed /\
    Permutation (all_servers (started_pool 2)) (all_servers pool' ++ disposed).
Proof.
  intros m.
  apply (messages_keep_the_pool_accounted (fun _ => reliable) answering
           ["a"; "b"; "c"]%string m (started_pool 2)).
  - reflexivity.
  - unfold accounted. split; [vm_compute; apply Permutation_refl|].
    split; [unfold pool_ok; vm_compute; repeat split; discriminate|].
    vm_compute. discriminate.
Defined.


(** * Properties of main.main *)

Lemma returns_on_succeeds W c k :
  returns_on W c k -> succeeds W c k = true.
Proof.
  unfold succeeds, returns_on. intros H. apply forallb_forall. intros i Hi.
  apply in_seq in Hi. destruct (H i) as (srv & E); [lia|]. now rewrite E.
Qed.

Lemma failure_not_succeeds W c n j m e :
  n = j + S m -> server_factory W (c + j) = inr e -> succeeds W c n = false.
Proof.
  intros Hn He. destruct (succeeds W c n) eqn:E; [|reflexivity].
  apply succeeds_returns_on in E. destruct (E j) as (srv & Hsrv); [lia|].
  congruence.
Qed.

(** A new pool that is started and then shut down: [initialize] returns
    when the factory delivers and raises otherwise, and [shutdown] leaves
    every server the factory returned cleaned up. *)
Lemma start_then_stop W s :
  quiet_cleanups W ->
  quiet_factory W ->
  fresh s ->
  exists s1 s2,
    (if comes_up W s
     then GenericMCPServerPool.initialize W s = Return tt s1
     else exists e i,
         GenericMCPServerPool.initialize W s = Raise e s1 /\
         server_factory W i = inr e) /\
    GenericMCPServerPool.shutdown W s1 = Return tt s2 /\
    factory_calls s2 = factory_calls s1 /\
    closed_after (made_for W s) s s2.
Proof.
  intros Hquiet Hqf Hf. pose proof Hf as (Hp & Hq & Ha).
  unfold comes_up, made_for, closed_after.
  destruct (returns_or_raises W (factory_calls s) (Z.to_nat (pool_size s)))
    as [Hs|(j & m & e & Hn & Hs & He)].
  - assert (Hr : room_for (Z.to_nat (pool_size s)) (available_servers s))
      by (apply fresh_room; [exact Hf|lia]).
    rewrite (returns_on_succeeds _ _ _ Hs).
    destruct (generic_initialize_returns W s Hs Hr)
      as (s1 & E1 & (_ & Q1 & _ & _ & D1) & A1).
    destruct (generic_shutdown_returns W s1 Hquiet) as (s2 & E2 & _ & Q2 & A2 & F2 & D2).
    exists s1, s2. split; [exact E1|]. split; [exact E2|].
    split; [exact F2|]. split; [|split; [exact A2|]].
    + simpl in Q1, D1. rewrite D2, D1. f_equal. unfold available.
      rewrite Q1, A1, Hq, Ha. simpl.
      apply to_shut_down_tracked_only. auto.
    + unfold available. now rewrite Q2.
  - assert (Hr : room_for j (available_servers s))
      by (apply fresh_room; [exact Hf|lia]).
    rewrite (failure_not_succeeds W _ _ j m e Hn He).
    rewrite Hn, (made_until_failure W j m _ e Hs He).
    destruct (generic_initialize_raises W s j m e Hquiet (Hqf _ _ He) Hn Hs He Hr)
      as (s1 & E1 & _ & Q1 & A1 & D1).
    destruct (generic_shutdown_returns W s1 Hquiet) as (s2 & E2 & _ & Q2 & A2 & F2 & D2).
    exists s1, s2.
    split; [exists e, (factory_calls s + j); split; [exact E1|exact He]|].
    split; [exact E2|].
    split; [exact F2|]. split; [|split; [exact A2|]].
    + rewrite D2, D1. unfold available. rewrite Q1, A1. simpl.
      now rewrite app_nil_r.
    + unfold available. now rewrite Q2.
Qed.

(** A new pool that is shut down without having been started. *)
Lemma stop_unstarted W s :
  quiet_cleanups W ->
  fresh s ->
  exists s2,
    GenericMCPServerPool.shutdown W s = Return tt s2 /\
    factory_calls s2 = factory_calls s /\
    closed_after [] s s2.
Proof.
  intros Hquiet (Hp & Hq & Ha).
  destruct (generic_shutdown_returns W s Hquiet)
    as (s2 & E2 & _ & Q2 & A2 & F2 & D2).
  exists s2. split; [exact E2|]. split; [exact F2|].
  unfold closed_after. split; [|split; [exact A2|]].
  - rewrite D2. unfold available. now rewrite Ha, Hq.
  - unfold available. now rewrite Q2.
Qed.

Section MainRun.

Variable world_of : string -> World.
Variable X : Main.Externals.
Import Main.

Opaque GenericMCPServerPool.initialize GenericMCPServerPool.shutdown.
Opaque format_raises.

(** What a run of [main] comes to when logging can be set up, no logging
    call raises and a signal arrives. *)
Lemma main_run app :
  quiet_run world_of X ->
  fresh (stdio_mcp_pool app) ->
  fresh (code_analysis_mcp_pool app) ->
  configure_logging X = None ->
  shutdown_event_set X = true ->
  let stdio_up := comes_up (world_of "stdio") (stdio_mcp_pool app) in
  let pools_up :=
    stdio_up &&
    comes_up (world_of "code_analysis") (code_analysis_mcp_pool app) in
  let manager_up :=
    pools_up && match AgentManager_init X with None => true | Some _ => false end in
  exists app',
    main world_of X app = Return tt app' /\
    closed_after (made_for (world_of "stdio") (stdio_mcp_pool app))
                 (stdio_mcp_pool app) (stdio_mcp_pool app') /\
    closed_after (if stdio_up
                  then made_for (world_of "code_analysis")
                                (code_analysis_mcp_pool app)
                  else [])
                 (code_analysis_mcp_pool app) (code_analysis_mcp_pool app') /\
    (stdio_up = false ->
     factory_calls (code_analysis_mcp_pool app')
     = factory_calls (code_analysis_mcp_pool app)) /\
    stream_calls app'
    = stream_calls app ++ (if manager_up then [Start; Stop] else [Stop]) /\
    agent_manager_instance app'
    = (if manager_up then true else agent_manager_instance app).
Proof.
  intros (Hpools & Hfac & Ham & Hst & Hash) Hfs Hfc Hcl Hsig
    stdio_up pools_up manager_up.
  subst manager_up pools_up stdio_up.
  destruct (Hpools "stdio"%string) as (Hqc1 & Hqf1).
  destruct (Hpools "code_analysis"%string) as (Hqc2 & Hqf2).
  destruct (start_then_stop (world_of "stdio") _ Hqc1 Hqf1 Hfs)
    as (s1 & s2 & Hi1 & Hs1 & _ & C1).
  unfold main_loggable in Hfac, Ham, Hst, Hash.
  destruct app as [ps pc ami sc sh lg]. simpl in *.
  destruct X as [cl am st ash sev sp mf]. simpl in *. subst cl sev.
  destruct (comes_up (world_of "stdio") ps) eqn:U1.
  - destruct (start_then_stop (world_of "code_analysis") _ Hqc2 Hqf2 Hfc)
      as (c1 & c2 & Hi2 & Hs2 & _ & C2).
    destruct (comes_up (world_of "code_analysis") pc) eqn:U2.
    + unfold main, shut_everything_down, start_stream_client,
        stop_stream_client, shutdown_event_wait, try_finally, try_except,
        on_stdio, on_code_analysis, outcome, alog_exception, alog, bind,
        modify, ret, raise, Exception.
      simpl. rewrite Hi1. simpl. rewrite Hi2. simpl.
      destruct am as [e|]; simpl;
        [rewrite (Ham e eq_refl)
        |destruct st as [e|]; simpl;
          [rewrite (Hst e eq_refl)
          |destruct (ash SIGINT) as [e|] eqn:A1; simpl;
            [rewrite (Hash SIGINT e A1)
            |destruct (ash SIGTERM) as [e|] eqn:A2; simpl;
             [rewrite (Hash SIGTERM e A2)|]]]];
        destruct sp as [e'|]; simpl;
        rewrite Hs1; simpl; rewrite Hs2; simpl;
        (eexists; split; [reflexivity|]); simpl;
        (split; [exact C1|]); (split; [exact C2|]);
        (split; [discriminate|]);
        rewrite <- ?app_assoc; split; reflexivity.
    + destruct Hi2 as (e2 & i2 & Hi2 & F2).
      unfold main, shut_everything_down, start_stream_client,
        stop_stream_client, shutdown_event_wait, try_finally, try_except,
        on_stdio, on_code_analysis, outcome, alog_exception, alog, bind,
        modify, ret, raise, Exception.
      simpl. rewrite Hi1. simpl. rewrite Hi2. simpl.
      rewrite (Hfac _ _ _ F2).
      destruct sp as [e'|]; simpl;
        rewrite Hs1; simpl; rewrite Hs2; simpl;
        (eexists; split; [reflexivity|]); simpl;
        (split; [exact C1|]); (split; [exact C2|]);
        (split; [discriminate|]); split; reflexivity.
  - destruct Hi1 as (e1 & i1 & Hi1 & F1).
    destruct (stop_unstarted (world_of "code_analysis") _ Hqc2 Hfc)
      as (c2 & Hs2 & F2 & C2).
    unfold main, shut_everything_down, start_stream_client,
      stop_stream_client, shutdown_event_wait, try_finally, try_except,
      on_stdio, on_code_analysis, outcome, alog_exception, alog, bind,
      modify, ret, raise, Exception.
    simpl. rewrite Hi1. simpl.
    rewrite (Hfac _ _ _ F1).
    destruct sp as [e'|]; simpl;
      rewrite Hs1; simpl; rewrite Hs2; simpl;
      (eexists; split; [reflexivity|]); simpl;
      (split; [exact C1|]); (split; [exact C2|]);
      (split; [intros _; exact F2|]); split; reflexivity.
Qed.

Transparent format_raises.
Transparent GenericMCPServerPool.initialize GenericMCPServerPool.shutdown.

End MainRun.

(** The worlds of the examples let no logging call raise. *)
Lemma quiet_run_second_pool_fails X :
  Main.AgentManager_init X = None \/
  Main.AgentManager_init X
  = Some (ValueError "Please set LLM_API_BASE_URL and LLM_API_KEY") ->
  Main.stream_manager_start X = None ->
  (forall sig, Main.add_signal_handler X sig = None) ->
  quiet_run second_pool_fails X /\ quiet_run (fun _ => reliable) X.
Proof.
  intros Ham Hst Hash.
  assert (Hrest :
            (forall e, Main.AgentManager_init X = Some e -> main_loggable X e) /\
            (forall e, Main.stream_manager_start X = Some e -> main_loggable X e) /\
            (forall sig e,
                Main.add_signal_handler X sig = Some e -> main_loggable X e)).
  { split; [|split].
    - intros e H. destruct Ham as [Ham|Ham]; rewrite Ham in H;
        [discriminate H|injection H as <-; reflexivity].
    - intros e H. rewrite Hst in H. discriminate H.
    - intros sig e H. rewrite Hash in H. discriminate H. }
  split.
  - split; [|split; [|exact Hrest]].
    + intros key. unfold second_pool_fails.
      destruct (String.eqb key "stdio"); split;
        unfold quiet_cleanups, quiet_factory; quiet_world.
    + intros key i e H. unfold second_pool_fails in H.
      destruct (String.eqb key "stdio"); simpl in H;
        [discriminate H|].
      destruct (Nat.eqb i 1); [injection H as <-; reflexivity|discriminate H].
  - split; [|split; [|exact Hrest]].
    + intros key. split; unfold quiet_cleanups, quiet_factory; quiet_world.
    + intros key i e H. discriminate H.
Qed.

(** X15.  [main] leaks no server.  When logging can be set up, no logging
    call of an [except] block raises (each can format the exception it is
    given) and a shutdown signal arrives, [main] returns, whatever the
    factories, the cleanups, the [AgentManager] constructor and the stream
    client do, and by then both pools are empty and every server either
    factory returned has had [cleanup()] awaited exactly once.  When the
    [stdio] pool does not come up, the [code_analysis] factory is never
    awaited. *)
Theorem main_cleans_up_every_server
    (world_of : string -> World) (X : Main.Externals) (app : Main.App) :
  quiet_run world_of X ->
  fresh (Main.stdio_mcp_pool app) ->
  fresh (Main.code_analysis_mcp_pool app) ->
  Main.configure_logging X = None ->
  Main.shutdown_event_set X = true ->
  let stdio_up := comes_up (world_of "stdio"%string) (Main.stdio_mcp_pool app) in
  exists app',
    Main.main world_of X app = Return tt app' /\
    closed_after (made_for (world_of "stdio"%string) (Main.stdio_mcp_pool app))
                 (Main.stdio_mcp_pool app) (Main.stdio_mcp_pool app') /\
    closed_after (if stdio_up
                  then made_for (world_of "code_analysis"%string)
                                (Main.code_analysis_mcp_pool app)
                  else [])
                 (Main.code_analysis_mcp_pool app)
                 (Main.code_analysis_mcp_pool app') /\
    (stdio_up = false ->
     factory_calls (Main.code_analysis_mcp_pool app')
     = factory_calls (Main.code_analysis_mcp_pool app)).
Proof.
  intros Hquiet Hfs Hfc Hcl Hsig stdio_up.
  destruct (main_run world_of X app Hquiet Hfs Hfc Hcl Hsig)
    as (app' & E & C1 & C2 & F & _).
  exists app'. auto.
Qed.

(** The [stdio] pool comes up with two servers; the second await of the
    [code_analysis] factory raises, so its one server is cleaned up by
    [initialize]. *)
Lemma main_cleans_up_every_server_witness :
  let app := new_app 2 2 in
  let stdio_up := comes_up (second_pool_fails "stdio"%string)
                           (Main.stdio_mcp_pool app) in
  exists app',
    Main.main second_pool_fails calm app = Return tt app' /\
    closed_after (made_for (second_pool_fails "stdio"%string)
                           (Main.stdio_mcp_pool app))
                 (Main.stdio_mcp_pool app) (Main.stdio_mcp_pool app') /\
    closed_after (if stdio_up
                  then made_for (second_pool_fails "code_analysis"%string)
                                (Main.code_analysis_mcp_pool app)
                  else [])
                 (Main.code_analysis_mcp_pool app)
                 (Main.code_analysis_mcp_pool app') /\
    (stdio_up = false ->
     factory_calls (Main.code_analysis_mcp_pool app')
     = factory_calls (Main.code_analysis_mcp_pool app)).
Proof.
  intros app.
  apply (main_cleans_up_every_server second_pool_fails calm app).
  - apply (quiet_run_second_pool_fails calm); [now left|reflexivity|reflexivity].
  - unfold fresh. simpl. repeat split.
  - unfold fresh. simpl. repeat split.
  - reflexivity.
  - reflexivity.
Defined.

(** X16.  In a run of [main] in which logging can be set up, no logging
    call of an [except] block raises and a shutdown signal arrives:
    [main] starts the stream client only when both pools came up and the
    [AgentManager] could be built, and it stops the stream client exactly
    once, also when it was never started; an exception of [start] or
    [stop] does not keep the pools from being shut down. *)
Theorem main_starts_stream_client_last
    (world_of : string -> World) (X : Main.Externals) (app : Main.App) :
  quiet_run world_of X ->
  fresh (Main.stdio_mcp_pool app) ->
  fresh (Main.code_analysis_mcp_pool app) ->
  Main.configure_logging X = None ->
  Main.shutdown_event_set X = true ->
  let manager_up :=
    comes_up (world_of "stdio"%string) (Main.stdio_mcp_pool app) &&
    comes_up (world_of "code_analysis"%string) (Main.code_analysis_mcp_pool app) &&
    match Main.AgentManager_init X with None => true | Some _ => false end in
  exists app',
    Main.main world_of X app = Return tt app' /\
    Main.stream_calls app'
    = Main.stream_calls app
      ++ (if manager_up then [Main.Start; Main.Stop] else [Main.Stop]) /\
    Main.agent_manager_instance app'
    = (if manager_up then true else Main.agent_manager_instance app) /\
    all_servers (Main.stdio_mcp_pool app') = [] /\
    all_servers (Main.code_analysis_mcp_pool app') = [].
Proof.
  intros Hquiet Hfs Hfc Hcl Hsig manager_up.
  destruct (main_run world_of X app Hquiet Hfs Hfc Hcl Hsig)
    as (app' & E & (_ & A1 & _) & (_ & A2 & _) & _ & Hsc & Ham).
  exists app'. auto.
Qed.

(** Both pools come up, the LLM settings are missing and [stop] raises:
    the stream client is stopped without having been started. *)
Lemma main_starts_stream_client_last_witness :
  let app := new_app 2 1 in
  let manager_up :=
    comes_up reliable (Main.stdio_mcp_pool app) &&
    comes_up reliable (Main.code_analysis_mcp_pool app) &&
    match Main.AgentManager_init no_llm_settings with
    | None => true
    | Some _ => false
    end in
  exists app',
    Main.main (fun _ => reliable) no_llm_settings app = Return tt app' /\
    Main.stream_calls app'
    = Main.stream_calls app
      ++ (if manager_up then [Main.Start; Main.Stop] else [Main.Stop]) /\
    Main.agent_manager_instance app'
    = (if manager_up then true else Main.agent_manager_instance app) /\
    all_servers (Main.stdio_mcp_pool app') = [] /\
    all_servers (Main.code_analysis_mcp_pool app') = [].
Proof.
  intros app.
  apply (main_starts_stream_client_last (fun _ => reliable) no_llm_settings app).
  - apply (quiet_run_second_pool_fails no_llm_settings);
      [now right|reflexivity|reflexivity].
  - unfold fresh. simpl. repeat split.
  - unfold fresh. simpl. repeat split.
  - reflexivity.
  - reflexivity.
Defined.


(** * Properties of the example main() of mcp_server_stdio_pool.py *)

Section StdioExample.

Variable W : World.
Import MCPServerStdioPool.

(** Two servers are taken, both are given back, one is taken and given
    back again: nobody waits, and the queue has turned by one. *)
Lemma lend_and_take_back_returns s a b :
  available_servers s = Queue.mk 2 [a; b] ->
  exists s',
    lend_and_take_back W s = Return tt s' /\
    pool_size s' = pool_size s /\
    available_servers s' = Queue.mk 2 [b; a] /\
    all_servers s' = all_servers s /\
    factory_calls s' = factory_calls s /\
    cleaned s' = cleaned s.
Proof.
  intros Hq. destruct s as [ps q tr fc cl lg]. simpl in Hq. subst q.
  eexists. split; [vm_compute; reflexivity|].
  vm_compute. repeat split.
Qed.

Lemma main_on_pool_returns s :
  quiet_cleanups W -> quiet_factory W ->
  fresh s -> pool_size s = 2%Z ->
  exists s',
    main_on_pool W s = Return tt s' /\ closed_after (made_for W s) s s'.
Proof.
  intros Hquiet Hqf Hf Hsize. pose proof Hf as (Hp & Hq & Ha).
  unfold made_for, closed_after. rewrite Hsize in *.
  change (Z.to_nat 2) with 2.
  destruct (returns_or_raises W (factory_calls s) 2)
    as [Hs|(j & m & e & Hn & Hs & He)].
  - assert (Hr : room_for (Z.to_nat (pool_size s)) (available_servers s))
      by (apply fresh_room; [exact Hf|lia]).
    pose proof Hs as Hs'.
    apply returns_on_S in Hs'. destruct Hs' as ((a & Fa) & Hs').
    apply returns_on_S in Hs'. destruct Hs' as ((b & Fb) & _).
    assert (Hmade : made W (factory_calls s) 2 = [a; b])
      by (simpl; now rewrite Fa, Fb).
    rewrite Hsize in Hr.
    pose proof (stdio_initialize_returns W s) as Hinit.
    rewrite Hsize in Hinit. change (Z.to_nat 2) with 2 in *.
    destruct (Hinit Hs Hr) as (s1 & E1 & (P1 & Q1 & _ & F1 & D1) & A1).
    rewrite Hmade in *. simpl in P1, Q1, F1, D1.
    rewrite Hq in Q1. simpl in Q1. rewrite Ha in A1. simpl in A1.
    set (s1' := set_logs (logs s1 ++ [INFO]) s1).
    destruct (lend_and_take_back_returns s1' a b Q1)
      as (s2 & E2 & P2 & Q2 & A2 & F2 & D2).
    destruct (stdio_shutdown_returns W s2 Hquiet)
      as (s3 & E3 & P3 & Q3 & A3 & F3 & D3).
    exists (set_logs (logs s3 ++ [INFO]) s3). split.
    + unfold main_on_pool, try_finally, try_except.
      rewrite (bind_Return _ _ _ _ _ E1).
      unfold bind at 1. unfold log at 1, modify. cbv beta iota. fold s1'.
      unfold bind at 1. unfold gets at 1. cbv beta iota.
      unfold Queue.qsize.
      change (available_servers s1') with (available_servers s1).
      rewrite Q1. cbn [Queue.items length Z.of_nat].
      change (0 <? Z.pos (Pos.of_succ_nat 1))%Z with true. cbv beta iota.
      rewrite E2.
      unfold bind. rewrite E3. reflexivity.
    + simpl. rewrite D3, D2. simpl. rewrite D1. split; [|split; [exact A3|]].
      * f_equal. unfold available. rewrite A2, Q2. cbn [Queue.items].
        change (all_servers s1') with (all_servers s1). rewrite A1.
        apply to_shut_down_tracked_only. simpl. intuition.
      * unfold available. simpl. now rewrite Q3.
  - assert (Hr : room_for j (available_servers s))
      by (apply fresh_room; [exact Hf|lia]).
    rewrite Hn, (made_until_failure W j m _ e Hs He).
    assert (Hn' : Z.to_nat (pool_size s) = j + S m) by (rewrite Hsize; exact Hn).
    destruct (stdio_initialize_raises W s j m e Hquiet (Hqf _ _ He) Hn' Hs He Hr)
      as (s1 & E1 & _ & Q1 & A1 & D1).
    set (s1' := set_logs (logs s1 ++ [ERROR]) s1).
    destruct (stdio_shutdown_returns W s1' Hquiet)
      as (s3 & E3 & P3 & Q3 & A3 & F3 & D3).
    exists (set_logs (logs s3 ++ [INFO]) s3). split.
    + unfold main_on_pool, try_finally, try_except.
      rewrite (bind_Raise _ _ _ _ _ E1). unfold Exception.
      rewrite (log_exception_quiet W e s1 (Hqf _ _ He)). fold s1'.
      cbv beta iota.
      unfold bind. rewrite E3. reflexivity.
    + simpl. rewrite D3. simpl. rewrite D1, Ha. unfold available. simpl.
      rewrite A1, Q1. simpl. rewrite app_nil_r.
      split; [reflexivity|]. split; [exact A3|]. now rewrite Q3.
Qed.

End StdioExample.

(** X17.  In a world where the logging calls of the [except] blocks can
    format every exception the factory and the cleanups raise, the example
    [main()] of the module runs to its end: it returns, without waiting
    and without an exception getting out, also when the factory fails on
    the first or the second server.  By then the pool is empty and each
    server the factory returned has had [cleanup()] awaited exactly
    once. *)
Theorem stdio_example_main_returns
    (W : World) (MCP_SERVER_POOL_SIZE : Z) (credentials_missing : bool) :
  quiet_cleanups W ->
  quiet_factory W ->
  exists s',
    MCPServerStdioPool.main W MCP_SERVER_POOL_SIZE credentials_missing
    = inr (Return tt s') /\
    cleaned s' = made W 0 2 /\
    all_servers s' = [] /\
    available s' = [].
Proof.
  intros Hquiet Hqf.
  unfold MCPServerStdioPool.main, MCPServerStdioPool.__init__.
  change (2 <=? 0)%Z with false. cbv beta iota.
  set (pool := set_logs _ _).
  destruct (main_on_pool_returns W pool Hquiet Hqf) as (s' & E & C).
  - unfold fresh. simpl. repeat split.
  - reflexivity.
  - exists s'. split; [now rewrite E|]. exact C.
Qed.

(** The factory fails on the second server, and the [cleanup()] of the
    first raises. *)
Lemma stdio_example_main_returns_witness :
  exists s',
    MCPServerStdioPool.main (flaky 1) 5 true = inr (Return tt s') /\
    cleaned s' = made (flaky 1) 0 2 /\
    all_servers s' = [] /\
    available s' = [].
Proof.
  apply (stdio_example_main_returns (flaky 1) 5 true).
  - unfold quiet_cleanups. quiet_world.
  - unfold quiet_factory. quiet_world.
Defined.
